(** * Daily close dashboard: cache merge, batch collection and event detection

    A shallow embedding of the server of the dashboard (server.js with the
    event routes) and the properties of its monthly cache, its batch
    collector and its event detector.

    Conventions of the embedding.
    - A JavaScript number that holds a price or a percentage is a rational
      ([Q]); a division whose divisor is zero yields one of the non-finite
      values of [num].  Rounding of binary64 and the sign of zero are outside
      the model.
    - A plain object used as a dictionary is a [gmap] over its own keys; a
      [Map] that is iterated is an insertion-ordered association list
      ([JsMap]).
    - [null] and [undefined] are [None].
    - [String.prototype.localeCompare] on dates is the code-unit order of
      [String.compare]; on the ISO dates the server stores the two agree. *)

From Stdlib Require Import QArith Qabs Qround ZArith String Ascii List OrderedTypeEx.
From Stdlib Require Import Sorted Permutation Lqa.
From stdpp Require Import gmap strings list fin_maps pretty sorting.

Local Open Scope string_scope.

(** ** Data model *)

(** One row of a daily series: [{ date, close, open, high, low, volume }]. *)
Record DailyRecord := mkDaily {
  date : string;
  close : option Q;
  open : option Q;
  high : option Q;
  low : option Q;
  volume : option Q
}.

(** [data] of a period snapshot: instrument id to series. *)
Abbreviation MonthlyData := (gmap string (list DailyRecord)).

(** ** Order on date strings *)

Definition localeCompare (a b : string) : comparison := String.compare a b.

Definition date_le (a b : string) : Prop := localeCompare a b <> Gt.
Definition date_lt (a b : string) : Prop := localeCompare a b = Lt.

(** The comparator handed to [sort]: [(a, b) => a.date.localeCompare(b.date)]. *)
Definition byDateCompare (a b : DailyRecord) : comparison :=
  localeCompare (date a) (date b).

Definition recLe (a b : DailyRecord) : Prop := date_le (date a) (date b).

(** ** Array.prototype.sort

    The sort of the host is stable; for a comparator that is a total preorder
    its result is the one of the stable insertion sort below. *)

Fixpoint insertSorted (x : DailyRecord) (l : list DailyRecord) : list DailyRecord :=
  match l with
  | [] => [x]
  | y :: l' =>
      match byDateCompare x y with
      | Gt => y :: insertSorted x l'
      | _ => x :: y :: l'
      end
  end.

Definition sortByDate (l : list DailyRecord) : list DailyRecord :=
  foldr insertSorted [] l.

(** ** Map with insertion order *)

Module JsMap.

Definition t (V : Type) := list (string * V).

Definition empty {V} : t V := [].

(** [m.set(k, v)]: an existing key keeps its place and takes the new value,
    a new key goes to the end. *)
Fixpoint set {V} (m : t V) (k : string) (v : V) : t V :=
  match m with
  | [] => [(k, v)]
  | (k', v') :: m' =>
      if String.eqb k' k then (k, v) :: m' else (k', v') :: set m' k v
  end.

Fixpoint get {V} (m : t V) (k : string) : option V :=
  match m with
  | [] => None
  | (k', v') :: m' => if String.eqb k' k then Some v' else get m' k
  end.

Definition has {V} (m : t V) (k : string) : bool :=
  match get m k with Some _ => true | None => false end.

Definition keys {V} (m : t V) : list string := map fst m.
Definition values {V} (m : t V) : list V := map snd m.

End JsMap.

(** ** Monthly cache store: merge on refresh *)

(** [xs.forEach(d => byDate.set(d.date, d))]. *)
Definition setAllByDate (byDate : JsMap.t DailyRecord) (xs : list DailyRecord)
  : JsMap.t DailyRecord :=
  fold_left (fun m d => JsMap.set m (date d) d) xs byDate.

(** Body of the first loop of [mergeMonthlyData] for one id. *)
Definition mergeSeries (existing fresh : list DailyRecord) : list DailyRecord :=
  let byDate := setAllByDate (setAllByDate JsMap.empty existing) fresh in
  sortByDate (JsMap.values byDate).

Definition mergeMonthlyData (existing fresh : MonthlyData) : MonthlyData :=
  let merged :=
    map_fold (fun id ex (merged : MonthlyData) =>
                <[id := mergeSeries ex (default [] (fresh !! id))]> merged)
             ∅ existing in
  map_fold (fun id fr (merged : MonthlyData) =>
              match merged !! id with
              | Some _ => merged
              | None => <[id := sortByDate fr]> merged
              end)
           merged fresh.

(** Last record of a series that carries a given date (the one a later
    [set] leaves in the map). *)
Fixpoint lastWithDate (d : string) (xs : list DailyRecord) : option DailyRecord :=
  match xs with
  | [] => None
  | x :: xs' =>
      match lastWithDate d xs' with
      | Some r => Some r
      | None => if String.eqb (date x) d then Some x else None
      end
  end.

(** Every entry of the per-date map sits under the date of its record. *)
Definition keyedByDate (m : JsMap.t DailyRecord) : Prop :=
  Forall (fun kv => kv.1 = date kv.2) m.

(** Data-model invariant of a series: at most one record per date. *)
Definition uniqueDates (xs : list DailyRecord) : Prop := NoDup (map date xs).

Definition wellFormed (m : MonthlyData) : Prop :=
  forall id xs, m !! id = Some xs -> uniqueDates xs.


(** ** Numbers

    Closes and percentages are rationals.  [num] adds the values a
    division by zero or [Math.max] of nothing produces. *)

Inductive num := Fin (q : Q) | PosInf | NegInf | NaN.

Definition Qltb (a b : Q) : bool := negb (Qle_bool b a).

Definition nsub (a b : num) : num :=
  match a, b with
  | Fin x, Fin y => Fin (x - y)
  | NaN, _ | _, NaN => NaN
  | PosInf, PosInf | NegInf, NegInf => NaN
  | PosInf, _ | _, NegInf => PosInf
  | NegInf, _ | _, PosInf => NegInf
  end.

(** Sign of a number: [Lt] negative, [Eq] zero, [Gt] positive. *)
Definition nsign (a : num) : option comparison :=
  match a with
  | Fin x => Some (x ?= 0)%Q
  | PosInf => Some Gt
  | NegInf => Some Lt
  | NaN => None
  end.

Definition ninf (s t : comparison) : num :=
  match s, t with
  | Eq, _ | _, Eq => NaN
  | Lt, Lt | Gt, Gt => PosInf
  | _, _ => NegInf
  end.

Definition nmul (a b : num) : num :=
  match a, b with
  | Fin x, Fin y => Fin (x * y)
  | _, _ =>
      match nsign a, nsign b with
      | Some s, Some t => ninf s t
      | _, _ => NaN
      end
  end.

Definition ndiv (a b : num) : num :=
  match a, b with
  | NaN, _ | _, NaN => NaN
  | Fin x, Fin y =>
      if Qeq_bool y 0 then ninf (x ?= 0)%Q Gt else Fin (x / y)
  | Fin _, _ => Fin 0
  | _, Fin y =>
      match nsign a with
      | Some s => ninf s (if Qeq_bool y 0 then Gt else (y ?= 0)%Q)
      | None => NaN
      end
  | _, _ => NaN
  end.

(** [a <= q] and [a >= q] for a finite bound [q]. *)
Definition nle (a : num) (q : Q) : bool :=
  match a with Fin x => Qle_bool x q | NegInf => true | _ => false end.

Definition nge (a : num) (q : Q) : bool :=
  match a with Fin x => Qle_bool q x | PosInf => true | _ => false end.

(** [Math.max(...xs)]. *)
Definition Math_max (xs : list Q) : num :=
  fold_left (fun m x =>
               match m with
               | Fin y => if Qltb y x then Fin x else m
               | _ => Fin x
               end) xs NegInf.

(** [x.toFixed(2)]. *)
Definition padStart2 (s : string) : string :=
  if (String.length s <? 2)%nat then "0" ++ s else s.

Definition toFixed2 (q : Q) : string :=
  let a := Qabs q in
  let n := Qfloor (a * 100 + (1 # 2))%Q in
  (if Qltb q 0 then "-" else "") ++
  pretty (n / 100)%Z ++ "." ++ padStart2 (pretty (n mod 100)%Z).

(** ** Instruments (config/symbols.js) *)

Record Instrument := mkInstrument {
  id : string;
  name : string;
  symbol : string;
  unit : string;
  newsSymbol : option string;
  overridden : bool
}.

Definition baseItem (i n s u : string) (ns : option string) : Instrument :=
  mkInstrument i n s u ns false.

Definition items : list Instrument :=
  [ baseItem "kospi" "코스피지수" "^KS11" "pt" None;
    baseItem "kospi200" "코스피200지수" "^KS200" "pt" None;
    baseItem "sp500" "S&P500지수" "^GSPC" "pt" (Some "SPY");
    baseItem "sox" "필라델피아반도체지수" "^SOX" "pt" (Some "SOXX");
    baseItem "usdkrw" "미국USD(원)" "KRW=X" "원" None;
    baseItem "gold" "국제금값" "GC=F" "USD" (Some "GLD");
    baseItem "brent" "브랜트유가격" "BZ=F" "USD" None;
    baseItem "treasury10" "미국10년국채가격" "^TNX" "%" None;
    baseItem "apple" "애플" "AAPL" "USD" (Some "AAPL");
    baseItem "microsoft" "마이크로소프트" "MSFT" "USD" (Some "MSFT");
    baseItem "sap" "SAP" "SAP" "EUR" (Some "SAP");
    baseItem "nvidia" "앤비디아" "NVDA" "USD" (Some "NVDA");
    baseItem "gaonchips" "가온칩스" "399720.KQ" "원" None;
    baseItem "tiger_sp500_h" "TIGER S&P 500(H) ETF" "448290.KS" "원" (Some "SPY");
    baseItem "tiger_sp500" "TIGER S&P 500 ETF" "360750.KS" "원" (Some "SPY");
    baseItem "tiger_sox" "Tiger 필라델피아 지수" "381180.KS" "원" (Some "SOXX");
    baseItem "krx_gold" "KRX금현물가격" "319640.KS" "원" None;
    baseItem "alphabet" "알파벳A 가격" "GOOGL" "USD" (Some "GOOGL") ].

(** An entry of [symbolOverrides]: [{ symbol, name? }]. *)
Record Override := mkOverride {
  o_symbol : string;
  o_name : option string
}.

(** Truthiness of a string and of an optional string. *)
Definition nonEmpty (s : string) : bool := negb (String.eqb s "").

Definition truthyStr (o : option string) : bool :=
  match o with Some s => nonEmpty s | None => false end.

Definition applyOverride (symbolOverrides : gmap string Override) (item : Instrument)
  : Instrument :=
  match symbolOverrides !! id item with
  | Some o =>
      if nonEmpty (o_symbol o) then
        mkInstrument (id item)
          (if truthyStr (o_name o) then default "" (o_name o) else name item)
          (o_symbol o) (unit item) (newsSymbol item) true
      else mkInstrument (id item) (name item) (symbol item) (unit item)
             (newsSymbol item) false
  | None => mkInstrument (id item) (name item) (symbol item) (unit item)
              (newsSymbol item) false
  end.

(** [getEffectiveItems()], for the current overrides and a base list. *)
Definition effectiveItems (base : list Instrument)
    (symbolOverrides : gmap string Override) : list Instrument :=
  map (applyOverride symbolOverrides) base.

(** ** Events *)

Definition RISE : string := "상승".
Definition FALL : string := "하락".

Record CandidateEvent := mkCandidate {
  c_date : string;
  c_item : string;
  itemObj : Instrument;
  c_change : Q;
  c_type : string;
  c_description : string
}.

Record Event := mkEvent {
  e_date : string;
  e_item : string;
  e_change : Q;
  e_type : string;
  e_description : string;
  newsHeadline : option string;
  sellWarning : string
}.

(** [((curr - prev) / prev) * 100]. *)
Definition changePctOf (prev curr : Q) : Q := ((curr - prev) / prev) * 100.

Definition describe (item : Instrument) (changePct : Q) : string :=
  name item ++ " 전일대비 " ++ (if Qle_bool 0 changePct then "+" else "") ++
  toFixed2 changePct ++ "%".

(** One turn of the inner loop: records [data[i-1]] and [data[i]]. *)
Definition pairCandidate (item : Instrument) (prevRec currRec : DailyRecord)
  : list CandidateEvent :=
  match close prevRec, close currRec with
  | Some prev, Some curr =>
      if Qeq_bool prev 0 then []
      else
        let changePct := changePctOf prev curr in
        if Qle_bool 3 (Qabs changePct) then
          [ mkCandidate (date currRec) (name item) item changePct
              (if Qltb 0 changePct then RISE else FALL)
              (describe item changePct) ]
        else []
  | _, _ => []
  end.

(** [for (let i = 1; i < data.length; i++)], carrying [data[i-1]]. *)
Fixpoint scanFrom (item : Instrument) (prevRec : DailyRecord)
    (rest : list DailyRecord) : list CandidateEvent :=
  match rest with
  | [] => []
  | currRec :: rest' =>
      (pairCandidate item prevRec currRec ++ scanFrom item currRec rest')%list
  end.

Definition scanSeries (item : Instrument) (data : list DailyRecord)
  : list CandidateEvent :=
  match data with
  | [] => []
  | first :: rest => scanFrom item first rest
  end.

(** The outer loop over [getEffectiveItems()]. *)
Definition candidateEvents (effective : list Instrument) (raw : MonthlyData)
  : list CandidateEvent :=
  flat_map (fun item => scanSeries item (default [] (raw !! id item))) effective.

(** ** Values parsed from a response body *)

#[warnings="-register-all"]
Inductive Json :=
| JNull
| JBool (b : bool)
| JNum (n : num)
| JStr (s : string)
| JArr (xs : list Json)
| JObj (fields : list (string * Json)).

(** A JavaScript value that came out of [JSON.parse], or [undefined]
    ([None]). *)
Definition isNullish (v : option Json) : bool :=
  match v with None | Some JNull => true | _ => false end.

Definition truthy (v : option Json) : bool :=
  match v with
  | None | Some JNull => false
  | Some (JBool b) => b
  | Some (JNum (Fin q)) => negb (Qeq_bool q 0)
  | Some (JNum NaN) => false
  | Some (JNum _) => true
  | Some (JStr s) => nonEmpty s
  | Some (JArr _) | Some (JObj _) => true
  end.

Fixpoint assoc (k : string) (fields : list (string * Json)) : option Json :=
  match fields with
  | [] => None
  | (k', v) :: rest => if String.eqb k' k then Some v else assoc k rest
  end.

(** [v.k] on a value that is neither [null] nor [undefined]. *)
Definition prop (k : string) (v : Json) : option Json :=
  match v with
  | JObj fields => assoc k fields
  | _ => None
  end.

(** [v?.k]. *)
Definition optProp (k : string) (v : option Json) : option Json :=
  match v with
  | None | Some JNull => None
  | Some j => prop k j
  end.

(** [v?.[i]]. *)
Definition optIndex (i : nat) (v : option Json) : option Json :=
  match v with
  | Some (JArr xs) => xs !! i
  | Some (JObj fields) => assoc (pretty i) fields
  | Some (JStr s) =>
      match String.get i s with
      | Some c => Some (JStr (String c EmptyString))
      | None => None
      end
  | _ => None
  end.

(** Outcome of one HTTPS request to the quote provider. *)
Inductive HttpResult :=
| NetworkError (msg : string)
| TimedOut
| Response (statusCode : Z) (body : string).

(** The chart request: symbol and the two unix timestamps ([None] is NaN). *)
Record YahooRequest := mkYahooRequest {
  y_symbol : string;
  y_period1 : option Z;
  y_period2 : option Z
}.

(** A request to the news provider. *)
Inductive NewsRequest :=
| GeneralNews (path : string)
| CompanyNews (sym : string) (fromTs toTs : option Z).

(** ** The host

    What the runtime and the two providers contribute: the calendar of
    [Date], [JSON.parse], the coercions on parsed values, the environment
    variable, and the answer and latency of every request (a function of
    the request and of the number of requests made before it). *)
Class Host := {
  Date_parse : string -> option Z;
  localFields : Z -> Z * Z * Z;
  utcFields : Z -> Z * Z * Z;
  localDate : Z -> Z -> Z -> option Z;
  JSON_parse : string -> option Json;
  hostToNumber : Json -> num;
  hostToString : Json -> string;
  hostToTime : Json -> option Z;
  FINNHUB_API_KEY : option string;
  yahoo : YahooRequest -> nat -> HttpResult * Z;
  finnhub : NewsRequest -> nat -> option string * Z
}.

Record NewsItem := mkNews {
  n_date : string;
  headline : string
}.

(** ** Sell-timing annotation *)

Definition W_NONE : string := "-".
Definition W_CRASH : string := "⚠ 급락 구간 - 즉시 매도 검토 권고".
Definition W_DOWNTREND : string := "⚠ 하락 추세 지속 - 매도 시점 검토 권고".
Definition W_STOPLOSS : string := "⚠ 월간 손실 확대 - 손절 포인트 검토".
Definition W_STREAK : string := "△ 연속 하락 - 관망 또는 분할 매도 고려".
Definition W_SHARPDROP : string := "△ 단기 급락 - 추가 하락 시 매도 검토".
Definition W_MONTHDOWN : string := "△ 월 누적 하락 - 보유 비중 점검".
Definition W_VOLATILE : string := "○ 변동성 확대 - 시장 모니터링".
Definition W_SURGE : string := "○ 급등 - 일부 익절 검토".
Definition W_NEARHIGH : string := "○ 고점 근접 - 수익 실현 고려".
Definition W_HOLD : string := "○ 상승 지속 - 보유 유지".

Fixpoint findIndex {A} (p : A -> bool) (l : list A) : option nat :=
  match l with
  | [] => None
  | x :: l' => if p x then Some O else S <$> findIndex p l'
  end.

(** [sorted.map(d => d.close).filter(v => v != null)]. *)
Definition closesOf (sorted : list DailyRecord) : list Q :=
  omap close sorted.

(** The loop [for (let i = idx; i >= 1; i--)] that counts the declines
    ending at [idx]. *)
Fixpoint consecDownAt (closes : list Q) (i : nat) : nat :=
  match i with
  | O => O
  | S j =>
      match closes !! i, closes !! j with
      | Some ci, Some cj => if Qltb ci cj then S (consecDownAt closes j) else O
      | _, _ => O
      end
  end.

(** [((curr - base) / base) * 100]. *)
Definition pctFrom (curr base : num) : num :=
  nmul (ndiv (nsub curr base) base) (Fin 100).

Definition sellDecision (type : string) (changePct : Q)
    (consecDown : nat) (cumulChange fromHigh : num) : string :=
  if String.eqb type FALL then
    if Qle_bool changePct (-7) && (2 <=? consecDown)%nat then W_CRASH
    else if Qle_bool changePct (-5) && (2 <=? consecDown)%nat then W_DOWNTREND
    else if nle cumulChange (-5) && nle fromHigh (-5) then W_STOPLOSS
    else if (3 <=? consecDown)%nat then W_STREAK
    else if Qle_bool changePct (-5) then W_SHARPDROP
    else if nle cumulChange (-3) then W_MONTHDOWN
    else W_VOLATILE
  else if String.eqb type RISE then
    if Qle_bool 7 changePct then W_SURGE
    else if nge fromHigh (-1) && Qle_bool 5 changePct then W_NEARHIGH
    else W_HOLD
  else W_NONE.

Definition getSellTimingWarning (data : list DailyRecord) (evtDate : string)
    (changePct : Q) (type : string) : string :=
  if (length data <? 2)%nat then W_NONE
  else
    let sorted := sortByDate data in
    let closes := closesOf sorted in
    if (length closes <? 2)%nat then W_NONE
    else
      match findIndex (fun d => String.eqb (date d) evtDate) sorted with
      | None => W_NONE
      | Some idx =>
          match closes !! idx, closes !! O with
          | Some curr, Some monthFirst =>
              let monthHigh := Math_max (take (S idx) closes) in
              let consecDown := consecDownAt closes idx in
              let cumulChange := pctFrom (Fin curr) (Fin monthFirst) in
              let fromHigh := pctFrom (Fin curr) monthHigh in
              sellDecision type changePct consecDown cumulChange fromHigh
          | _, _ => W_NONE
          end
      end.

Section WithHost.
Context `{Host}.

(** ** Headline correlation *)

Definition buildMarketNewsByDate (marketNewsList : list NewsItem)
  : JsMap.t (list string) :=
  fold_left (fun byDate n =>
               JsMap.set byDate (n_date n)
                 (default [] (JsMap.get byDate (n_date n)) ++ [headline n])%list)
            marketNewsList JsMap.empty.

(** [Math.abs(new Date(d).getTime() - new Date(eventDate).getTime())
     / (24 * 60 * 60 * 1000)]; [None] is NaN. *)
Definition dayDiff (d eventDate : string) : option Q :=
  match Date_parse d, Date_parse eventDate with
  | Some a, Some b =>
      Some (Qabs (inject_Z a - inject_Z b) / inject_Z (24 * 60 * 60 * 1000))%Q
  | _, _ => None
  end.

Definition maxDays : Q := 14.

(** The loop over the map; [bestDiff = None] is [Infinity]. *)
Fixpoint scanHeadlines (entries : list (string * list string))
    (eventDate : string) (best : option string) (bestDiff : option Q)
  : option string :=
  match entries with
  | [] => best
  | (d, headlines) :: rest =>
      match headlines with
      | [] => scanHeadlines rest eventDate best bestDiff
      | h0 :: _ =>
          match dayDiff d eventDate with
          | Some diff =>
              if Qle_bool diff maxDays &&
                 match bestDiff with
                 | None => true
                 | Some b => Qltb diff b
                 end
              then scanHeadlines rest eventDate (Some h0) (Some diff)
              else scanHeadlines rest eventDate best bestDiff
          | None => scanHeadlines rest eventDate best bestDiff
          end
      end
  end.

Definition getMarketHeadlineForDate (marketByDate : JsMap.t (list string))
    (eventDate : string) : option string :=
  match JsMap.get marketByDate eventDate with
  | Some (h0 :: _) => Some h0
  | _ => scanHeadlines marketByDate eventDate None None
  end.

(** ** The event list of a period *)

(** The second loop of the route: gate on the news symbol, attach the
    headline and the annotation. *)
Fixpoint gateEvents (marketByDate : JsMap.t (list string)) (raw : MonthlyData)
    (candidates : list CandidateEvent) : list Event :=
  match candidates with
  | [] => []
  | ev :: rest =>
      if truthyStr (newsSymbol (itemObj ev)) then
        let marketHeadline := getMarketHeadlineForDate marketByDate (c_date ev) in
        let itemData := default [] (raw !! id (itemObj ev)) in
        let warning := getSellTimingWarning itemData (c_date ev) (c_change ev) (c_type ev) in
        mkEvent (c_date ev) (c_item ev) (c_change ev) (c_type ev)
                (c_description ev) marketHeadline warning
          :: gateEvents marketByDate raw rest
      else gateEvents marketByDate raw rest
  end.

(** [events.forEach(e => { ...; byDate[e.date].push(e) })]. *)
Definition groupByDate (events : list Event) : gmap string (list Event) :=
  fold_left (fun byDate e =>
               <[e_date e := (default [] (byDate !! e_date e) ++ [e])%list]> byDate)
            events ∅.

Definition detectEvents (effective : list Instrument) (raw : MonthlyData)
    (marketNews : list NewsItem) : gmap string (list Event) :=
  groupByDate
    (gateEvents (buildMarketNewsByDate marketNews) raw
       (candidateEvents effective raw)).

End WithHost.

(** ** Process state and effects *)

Record CacheSlot := mkSlot {
  slot_data : list DailyRecord;
  slot_expires : Z
}.

Record NewsSlot := mkNewsSlot {
  news_data : list NewsItem;
  news_expires : Z
}.

(** An entry of [dailyFileCache]; [data = None] is an entry without data. *)
Record Snapshot := mkSnapshot {
  s_year : Z;
  s_month : Z;
  s_data : option MonthlyData;
  updatedAt : Z
}.

Record FetchFailure := mkFailure {
  f_name : string;
  reason : string
}.

Inductive Request :=
| ChartRequest (r : YahooRequest)
| NewsCall (r : NewsRequest).

(** The mutable globals of the process, the clock ([Date.now()], in
    milliseconds) and the log of the requests sent upstream. *)
Record World := mkWorld {
  clock : Z;
  symbolOverrides : gmap string Override;
  cache : gmap string CacheSlot;
  newsCache : gmap string NewsSlot;
  dailyFileCache : gmap string Snapshot;
  cacheSaveScheduled : bool;
  cacheFile : option (gmap string Snapshot);
  upstream : list Request
}.

Definition setClock (t : Z) (w : World) : World :=
  mkWorld t (symbolOverrides w) (cache w) (newsCache w) (dailyFileCache w)
    (cacheSaveScheduled w) (cacheFile w) (upstream w).

Definition setCache (c : gmap string CacheSlot) (w : World) : World :=
  mkWorld (clock w) (symbolOverrides w) c (newsCache w) (dailyFileCache w)
    (cacheSaveScheduled w) (cacheFile w) (upstream w).

Definition setNewsCache (c : gmap string NewsSlot) (w : World) : World :=
  mkWorld (clock w) (symbolOverrides w) (cache w) c (dailyFileCache w)
    (cacheSaveScheduled w) (cacheFile w) (upstream w).

Definition setDailyFileCache (c : gmap string Snapshot) (w : World) : World :=
  mkWorld (clock w) (symbolOverrides w) (cache w) (newsCache w) c
    (cacheSaveScheduled w) (cacheFile w) (upstream w).

Definition setCacheSaveScheduled (b : bool) (w : World) : World :=
  mkWorld (clock w) (symbolOverrides w) (cache w) (newsCache w)
    (dailyFileCache w) b (cacheFile w) (upstream w).


Definition logRequest (r : Request) (w : World) : World :=
  mkWorld (clock w) (symbolOverrides w) (cache w) (newsCache w)
    (dailyFileCache w) (cacheSaveScheduled w) (cacheFile w)
    (upstream w ++ [r])%list.

(** An async function: it runs on the world and returns or throws. *)
Inductive Outcome (A : Type) :=
| Returned (a : A)
| Thrown (message : string).

Arguments Returned {A} a.
Arguments Thrown {A} message.

Definition M (A : Type) : Type := World -> Outcome A * World.

Definition ret {A} (a : A) : M A := fun w => (Returned a, w).

Definition bind {A B} (c : M A) (k : A -> M B) : M B :=
  fun w =>
    match c w with
    | (Returned a, w') => k a w'
    | (Thrown e, w') => (Thrown e, w')
    end.

Definition throw {A} (e : string) : M A := fun w => (Thrown e, w).

Definition tryCatch {A} (c : M A) (handler : string -> M A) : M A :=
  fun w =>
    match c w with
    | (Returned a, w') => (Returned a, w')
    | (Thrown e, w') => handler e w'
    end.

Definition gets {A} (f : World -> A) : M A := fun w => (Returned (f w), w).

Definition modify (f : World -> World) : M Datatypes.unit :=
  fun w => (Returned tt, f w).

Notation "'let!' x ':=' c 'in' k" := (bind c (fun x => k))
  (at level 100, x pattern, c at level 99, k at level 200, right associativity).
Notation "c ';;' k" := (bind c (fun _ => k))
  (at level 100, k at level 200, right associativity).

(** [await delay(ms)]. *)
Definition delay (ms : Z) : M Datatypes.unit :=
  modify (fun w => setClock (clock w + ms)%Z w).

(** ** Validation helpers *)

Definition MAX_RESPONSE_SIZE : Z := 5 * 1024 * 1024.
Definition SAFE_NUM_MAX : Q := 1000000000000000.
Definition CACHE_TTL : Z := 60 * 60 * 1000.
Definition NEWS_CACHE_TTL : Z := 30 * 60 * 1000.

Definition isDigit (c : ascii) : bool :=
  let n := nat_of_ascii c in (48 <=? n)%nat && (n <=? 57)%nat.

Definition isHyphen (c : ascii) : bool := Ascii.eqb c "-"%char.

(** [/^\d{4}-\d{2}-\d{2}$/.test(str)]. *)
Definition DATE_REGEX_test (str : string) : bool :=
  match list_ascii_of_string str with
  | [y1; y2; y3; y4; h1; m1; m2; h2; d1; d2] =>
      isDigit y1 && isDigit y2 && isDigit y3 && isDigit y4 && isHyphen h1 &&
      isDigit m1 && isDigit m2 && isHyphen h2 && isDigit d1 && isDigit d2
  | _ => false
  end.

Definition includes (needle hay : string) : bool :=
  match String.index 0 needle hay with Some _ => true | None => false end.

(** [new Date(v)] for a number: the time value, [None] when invalid. *)
Definition Qtrunc (q : Q) : Z := Z.quot (Qnum q) (Z.pos (Qden q)).

Definition dateOfNumber (v : num) : option Z :=
  match v with
  | Fin q =>
      let t := Qtrunc q in
      if (Z.abs t <=? 8640000000000000)%Z then Some t else None
  | _ => None
  end.

Definition toTimestamp (d : option Z) : option Z :=
  (fun t => t / 1000)%Z <$> d.

Definition getCacheKey (symbol p1 p2 : string) : string :=
  symbol ++ ":" ++ p1 ++ ":" ++ p2.

Definition getPeriodKey (year month : Z) : string :=
  pretty year ++ "-" ++ padStart2 (pretty month).

Definition toUserFriendlyCause (errMsg : string) : string :=
  if String.eqb errMsg "RATE_LIMITED" then
    "데이터 제공처 요청 한도 초과. 잠시 후 다시 시도해 주세요."
  else if String.eqb errMsg "TIMEOUT" then
    "데이터 제공처 응답 지연. 잠시 후 다시 시도해 주세요."
  else if includes "ECONNREFUSED" errMsg || includes "ENOTFOUND" errMsg then
    "외부 서버 연결 실패. 네트워크를 확인해 주세요."
  else if includes "응답 크기" errMsg then "데이터 양이 비정상적으로 큽니다."
  else errMsg.

(** [parseInt(str, 10)]: leading white space, a sign, then the longest run
    of digits; [None] is NaN. *)
Definition isSpace (c : ascii) : bool :=
  let n := nat_of_ascii c in
  (n =? 32)%nat || ((9 <=? n)%nat && (n <=? 13)%nat).

Fixpoint dropSpaces (cs : list ascii) : list ascii :=
  match cs with
  | c :: cs' => if isSpace c then dropSpaces cs' else cs
  | [] => []
  end.

Fixpoint readDigits (cs : list ascii) (acc : option Z) : option Z :=
  match cs with
  | c :: cs' =>
      if isDigit c then
        readDigits cs'
          (Some (10 * default 0 acc + Z.of_nat (nat_of_ascii c) - 48))%Z
      else acc
  | [] => acc
  end.

Definition parseInt (str : string) : option Z :=
  match dropSpaces (list_ascii_of_string str) with
  | "-"%char :: cs => Z.opp <$> readDigits cs None
  | "+"%char :: cs => readDigits cs None
  | cs => readDigits cs None
  end.

Definition validateYearMonth (year month : string) : option (Z * Z) :=
  match parseInt year, parseInt month with
  | Some y, Some m =>
      if (y <? 2000)%Z || (2100 <? y)%Z || (m <? 1)%Z || (12 <? m)%Z
      then None else Some (y, m)
  | _, _ => None
  end.

(** ** Responses of the routes *)

Inductive ApiResponse :=
| ErrorResponse (status : Z) (error : string) (cause : option string)
| DailyResponse (year month : Z) (data : MonthlyData)
    (effective : list Instrument) (failed : option (list FetchFailure))
| UpdateResponse (year month : Z) (data : MonthlyData)
    (effective : list Instrument) (updated : Z)
    (failed : option (list FetchFailure))
| EventsResponse (year month : Z) (events : gmap string (list Event))
    (failed : option (list FetchFailure)) (newsFilterApplied : bool).

Definition success (r : ApiResponse) : bool :=
  match r with ErrorResponse _ _ _ => false | _ => true end.

Definition responseFailed (r : ApiResponse) : option (list FetchFailure) :=
  match r with
  | ErrorResponse _ _ _ => None
  | DailyResponse _ _ _ _ f | UpdateResponse _ _ _ _ _ f
  | EventsResponse _ _ _ f _ => f
  end.

Definition apiError (code : Z) (message : string) (cause : option string)
  : ApiResponse :=
  ErrorResponse (if (500 <=? code)%Z then 500 else 400)%Z message
    (if truthyStr cause then toUserFriendlyCause <$> cause else None).

(** [failed.length > 0 ? failed : undefined]. *)
Definition failedField (failed : list FetchFailure) : option (list FetchFailure) :=
  match failed with [] => None | _ => Some failed end.

Section Server.
Context `{Host}.

(** ** Dates of the host *)

Definition formatYMD (d : option Z) : string :=
  match d with
  | Some t =>
      let '(y, m, day) := localFields t in
      pretty y ++ "-" ++ padStart2 (pretty (m + 1)%Z) ++ "-" ++
      padStart2 (pretty day)
  | None => "NaN-NaN-NaN"
  end.

Definition sanitizeDate (str : string) : option string :=
  if DATE_REGEX_test str then
    match Date_parse str with Some _ => Some str | None => None end
  else None.

(** [{ start: new Date(year, month - 1, 1), end: new Date(year, month, 0) }]. *)
Definition getMonthRange (year month : Z) : option Z * option Z :=
  (localDate year (month - 1) 1, localDate year month 0).

(** [Number(val)]. *)
Definition toNumber (val : Json) : num :=
  match val with
  | JNum n => n
  | JBool true => Fin 1
  | JBool false => Fin 0
  | JNull => Fin 0
  | _ => hostToNumber val
  end.

Definition sanitizeNum (val : option Json) : option Q :=
  match val with
  | None | Some JNull => None
  | Some v =>
      match toNumber v with
      | Fin n => if Qle_bool (Qabs n) SAFE_NUM_MAX then Some n else None
      | _ => None
      end
  end.

Definition getEffectiveItems : M (list Instrument) :=
  gets (fun w => effectiveItems items (symbolOverrides w)).

Definition isSymbolAllowed (overrides : gmap string Override) (sym : string)
  : bool :=
  existsb (fun i => String.eqb (symbol i) sym) (effectiveItems items overrides).

(** ** Quote source adapter *)

(** How the promise around one [https.get] to the chart endpoint settles:
    it resolves with the body or rejects with a message. *)
Definition settle (res : HttpResult) : Outcome string :=
  match res with
  | NetworkError msg => Thrown (if nonEmpty msg then msg else "네트워크 오류")
  | TimedOut => Thrown "TIMEOUT"
  | Response statusCode body =>
      if (MAX_RESPONSE_SIZE <? Z.of_nat (String.length body))%Z then
        Thrown "응답 크기 초과"
      else if (statusCode =? 429)%Z || includes "Too Many Requests" body then
        Thrown "RATE_LIMITED"
      else if negb (statusCode =? 200)%Z then
        Thrown ("HTTP " ++ pretty statusCode)
      else Returned body
  end.

(** Time the request takes: the latency of the answer, or the 15 s of the
    timeout. *)
Definition elapsed (res : HttpResult) (latency : Z) : Z :=
  match res with
  | TimedOut => 15000
  | _ => Z.max 0 latency
  end.

Definition requestChart (req : YahooRequest) : M string :=
  fun w =>
    let '(res, latency) := yahoo req (length (upstream w)) in
    let w1 := logRequest (ChartRequest req) w in
    (settle res, setClock (clock w1 + elapsed res latency)%Z w1).

(** One turn of the loop over [chart.timestamp]. *)
Definition chartRow (quote : option Json) (i : nat) (ts : Json)
  : option DailyRecord :=
  match ts with
  | JNum (Fin t) =>
      let d := dateOfNumber (Fin (t * 1000)) in
      let dateStr := formatYMD d in
      match sanitizeDate dateStr with
      | None => None
      | Some _ =>
          match sanitizeNum (optIndex i (optProp "close" quote)) with
          | None => None
          | Some c =>
              Some (mkDaily dateStr (Some c)
                      (sanitizeNum (optIndex i (optProp "open" quote)))
                      (sanitizeNum (optIndex i (optProp "high" quote)))
                      (sanitizeNum (optIndex i (optProp "low" quote)))
                      (sanitizeNum (optIndex i (optProp "volume" quote))))
          end
      end
  | _ => None
  end.

(** The series of a parsed body; [None] when there is no
    [chart.result[0].timestamp] array. *)
Definition chartSeries (json : Json) : option (list DailyRecord) :=
  let chart := optIndex 0 (optProp "result" (optProp "chart" (Some json))) in
  if negb (truthy chart) then None
  else
    match optProp "timestamp" chart with
    | Some (JArr timestamps) =>
        let q := optIndex 0 (optProp "quote" (optProp "indicators" chart)) in
        let quote := if truthy q then q else Some (JObj []) in
        Some (omap (fun x => x) (imap (chartRow quote) timestamps))
    | _ => None
    end.

Definition cacheSet (cacheKey : string) (data : list DailyRecord)
  : M Datatypes.unit :=
  modify (fun w =>
            setCache (<[cacheKey := mkSlot data (clock w + CACHE_TTL)%Z]> (cache w)) w).

(** The body of the [try] block of one attempt. *)
Definition chartAttempt (req : YahooRequest) (cacheKey : string)
  : M (list DailyRecord) :=
  let! html := requestChart req in
  match JSON_parse html with
  | None => throw "잘못된 응답 형식"
  | Some json =>
      match chartSeries json with
      | None => cacheSet cacheKey [] ;; ret []
      | Some result => cacheSet cacheKey result ;; ret result
      end
  end.

(** [for (let retry = 0; retry < 3; retry++) { try {...} catch {...} }]
    and the [throw] after it. *)
Fixpoint chartRetries (req : YahooRequest) (cacheKey : string)
    (retries : list Z) : M (list DailyRecord) :=
  match retries with
  | [] => throw "데이터 조회 실패"
  | retry :: rest =>
      tryCatch (chartAttempt req cacheKey)
        (fun err =>
           delay ((retry + 1) * 2000)%Z ;; chartRetries req cacheKey rest)
  end.

Definition fetchChartFromYahoo (sym : string) (period1 period2 : option Z)
  : M (list DailyRecord) :=
  let! allowed := gets (fun w => isSymbolAllowed (symbolOverrides w) sym) in
  if negb allowed then throw ("허용되지 않은 심볼: " ++ sym)
  else
    let p1 := formatYMD period1 in
    let p2 := formatYMD period2 in
    let t1 := toTimestamp period1 in
    let t2 :=
      match t1, toTimestamp period2 with
      | Some a, Some b => if (b <=? a)%Z then Some (a + 86400)%Z else Some b
      | _, t => t
      end in
    let cacheKey := getCacheKey sym p1 p2 in
    let! cached := gets (fun w => cache w !! cacheKey) in
    let! now := gets clock in
    match cached with
    | Some slot =>
        if (now <? slot_expires slot)%Z then ret (slot_data slot)
        else chartRetries (mkYahooRequest sym t1 t2) cacheKey [0; 1; 2]%Z
    | None => chartRetries (mkYahooRequest sym t1 t2) cacheKey [0; 1; 2]%Z
    end.

(** ** Batch collector *)

(** One turn of the batch loop: the series of the instrument is stored and
    the failures stay, or the empty series is stored and one failure is
    added. *)
Definition batchStep (item : Instrument) (start end_ : option Z)
    (results : MonthlyData) (failed : list FetchFailure)
  : M (MonthlyData * list FetchFailure) :=
  tryCatch
    (let! series := fetchChartFromYahoo (symbol item) start end_ in
     ret (<[id item := series]> results, failed))
    (fun err =>
       ret (<[id item := []]> results,
            (failed ++ [mkFailure (name item) err])%list)).

Fixpoint fetchAllLoop (todo : list Instrument) (start end_ : option Z)
    (results : MonthlyData) (failed : list FetchFailure)
  : M (MonthlyData * list FetchFailure) :=
  match todo with
  | [] => ret (results, failed)
  | item :: rest =>
      let! step := batchStep item start end_ results failed in
      delay 500 ;;
      fetchAllLoop rest start end_ (fst step) (snd step)
  end.

Definition fetchAllHistorical (todo : list Instrument) (start end_ : option Z)
  : M (MonthlyData * list FetchFailure) :=
  fetchAllLoop todo start end_ ∅ [].

(** ** Monthly cache store *)

Definition getCachedMonthly (w : World) (year month : Z) : option MonthlyData :=
  match dailyFileCache w !! getPeriodKey year month with
  | Some entry => s_data entry
  | None => None
  end.

Definition scheduleSaveDailyCache : M Datatypes.unit :=
  modify (fun w =>
            if cacheSaveScheduled w then w else setCacheSaveScheduled true w).


Definition inWindow (monthStart monthEnd : string) (d : DailyRecord) : bool :=
  match sanitizeDate (date d) with
  | Some _ => String.leb monthStart (date d) && String.leb (date d) monthEnd
  | None => false
  end.

(** The loop over [Object.keys(raw)]: keep the records of the month, in
    date order. *)
Definition windowed (monthStart monthEnd : string) (raw : MonthlyData)
  : MonthlyData :=
  (fun xs =>
     sortByDate (filter (fun d => inWindow monthStart monthEnd d = true) xs))
    <$> raw.

(** [dailyFileCache[key] = { year, month, data: toSave, updatedAt }]. *)
Definition putSnapshot (year month : Z) (toSave : MonthlyData)
  : M Datatypes.unit :=
  let! stamp := gets clock in
  modify (fun w =>
            setDailyFileCache
              (<[getPeriodKey year month :=
                   mkSnapshot year month (Some toSave) stamp]>
                 (dailyFileCache w)) w).

(** [year === now.getFullYear() && month === now.getMonth() + 1]. *)
Definition isCurrentMonthAt (nowT year month : Z) : bool :=
  let '(y, m, _) := localFields nowT in
  (year =? y)%Z && (month =? m + 1)%Z.

Definition getMonthlyData (year month : Z) (forceRefresh : bool)
  : M (MonthlyData * list FetchFailure) :=
  let monthStart := formatYMD (localDate year (month - 1) 1) in
  let! nowT := gets clock in
  let now := Some nowT in
  let isCurrentMonth := isCurrentMonthAt nowT year month in
  let endDate := if isCurrentMonth then now else localDate year month 0 in
  let monthEnd := formatYMD endDate in
  let! cached := gets (fun w => getCachedMonthly w year month) in
  match cached, forceRefresh with
  | Some data, false => ret (data, [])
  | _, _ =>
      let start := fst (getMonthRange year month) in
      let end_ := snd (getMonthRange year month) in
      let rangeEnd := if isCurrentMonth then now else end_ in
      let! effective := getEffectiveItems in
      let! fetched := fetchAllHistorical effective start rangeEnd in
      let raw := fst fetched in
      let failed := snd fetched in
      let results := windowed monthStart monthEnd raw in
      let toSave :=
        match cached, forceRefresh with
        | Some data, true => mergeMonthlyData data results
        | _, _ => results
        end in
      putSnapshot year month toSave ;;
      scheduleSaveDailyCache ;;
      ret (toSave, failed)
  end.

(** ** News source adapter *)

Definition US_MARKET_NEWS_SYMBOLS : list string := ["AAPL"; "NVDA"; "SPY"; "MSFT"].

(** One [https.get] to the news provider: the body, whatever the status, or
    a rejection on a network error. *)
Definition requestNews (req : NewsRequest) : M string :=
  fun w =>
    let '(res, latency) := finnhub req (length (upstream w)) in
    let w1 := logRequest (NewsCall req) w in
    let w2 := setClock (clock w1 + Z.max 0 latency)%Z w1 in
    match res with
    | Some body => (Returned body, w2)
    | None => (Thrown "request failed", w2)
    end.

(** [JSON.parse(body || '[]')]. *)
Definition parseNewsBody (body : string) : option Json :=
  if nonEmpty body then JSON_parse body else Some (JArr []).

Definition padStart (n : nat) (s : string) : string :=
  String.concat "" (replicate (n - String.length s) "0") ++ s.




Definition newsCacheSet (key : string) (data : list NewsItem) : M Datatypes.unit :=
  modify (fun w =>
            setNewsCache
              (<[key := mkNewsSlot data (clock w + NEWS_CACHE_TTL)%Z]> (newsCache w)) w).

Definition liveNews (key : string) (skipCache : bool) : M (option (list NewsItem)) :=
  gets (fun w =>
          match newsCache w !! key with
          | Some slot =>
              if negb skipCache && (clock w <? news_expires slot)%Z
              then Some (news_data slot) else None
          | None => None
          end).

Definition cappedToday (toDate : string) : M string :=
  let! today := gets (fun w => formatYMD (Some (clock w))) in
  ret (if String.ltb today toDate then today else toDate).

Definition dayStartTs (d : string) : option Z :=
  (fun t => t / 1000)%Z <$> Date_parse (d ++ "T00:00:00Z").

Definition dayEndTs (d : string) : option Z :=
  (fun t => t / 1000)%Z <$> Date_parse (d ++ "T23:59:59Z").


Inductive Parsed (A : Type) :=
| Item (a : A)
| Skip
| Throws.

Arguments Item {A} a.
Arguments Skip {A}.
Arguments Throws {A}.

Definition firstNonNullish (vs : list (option Json)) : option Json :=
  match filter (fun v => isNullish v = false) vs with
  | v :: _ => v
  | [] => None
  end.

(** [new Date(ts).getTime()] for a value that is not a finite number. *)
Definition toTime (ts : Json) : option Z :=
  match ts with
  | JStr s => Date_parse s
  | JNum _ => None
  | _ => hostToTime ts
  end.

Definition stringOf (v : Json) : string :=
  match v with JStr s => s | _ => hostToString v end.

Definition parseNewsItem (n : Json) : Parsed NewsItem :=
  match n with
  | JNull => Throws
  | _ =>
      let ts := firstNonNullish
                  [prop "datetime" n; prop "publishedDate" n; prop "date" n;
                   prop "time" n] in
      let head := firstNonNullish
                    [prop "headline" n; prop "title" n; prop "summary" n;
                     Some (JStr "")] in
      if negb (truthy head) then Skip
      else
        let sec : option Q :=
          match ts with
          | Some (JNum (Fin t)) =>
              if Qltb t 1000000000000 then Some t
              else Some (inject_Z (Qfloor (t / 1000)))
          | None | Some JNull | Some (JStr "") => None
          | Some v =>
              (fun t => inject_Z (t / 1000)%Z) <$> toTime v
          end in
        match sec with
        | None => Skip
        | Some s =>
            match dateOfNumber (Fin (s * 1000)) with
            | None => Skip
            | Some dt =>
                let '(y, m, d) := utcFields dt in
                Item (mkNews
                        (pretty y ++ "-" ++ padStart 2 (pretty (m + 1)%Z) ++ "-" ++
                         padStart 2 (pretty d))
                        (String.substring 0 500 (stringOf (default JNull head))))
            end
        end
  end.

(** [for (const n of parsed) { const item = parseNewsItem(n); if (item &&
    keep(item)) allNews.push(item) }]; the second component tells whether
    the loop ended by an exception. *)
Fixpoint pushParsed (keep : NewsItem -> bool) (parsed : list Json)
    (allNews : list NewsItem) : list NewsItem * bool :=
  match parsed with
  | [] => (allNews, false)
  | n :: rest =>
      match parseNewsItem n with
      | Throws => (allNews, true)
      | Skip => pushParsed keep rest allNews
      | Item item =>
          pushParsed keep rest
            (if keep item then (allNews ++ [item])%list else allNews)
      end
  end.

Definition tryMarketNews (path fromDate toDateCapped : string)
    (allNews : list NewsItem) : M (list NewsItem) :=
  tryCatch
    (let! body := requestNews (GeneralNews path) in
     match parseNewsBody body with
     | Some (JArr parsed) =>
         ret (fst (pushParsed
                     (fun item => String.leb fromDate (n_date item) &&
                                  String.leb (n_date item) toDateCapped)
                     parsed allNews))
     | Some _ => ret allNews
     | None => ret allNews
     end)
    (fun err => ret allNews).

Fixpoint bellwetherNews (symbols : list string) (fromTs toTs : option Z)
    (allNews : list NewsItem) : M (list NewsItem) :=
  match symbols with
  | [] => ret allNews
  | sym :: rest =>
      let! allNews' :=
        tryCatch
          (let! body := requestNews (CompanyNews sym fromTs toTs) in
           match parseNewsBody body with
           | Some (JArr parsed) =>
               let pushed := pushParsed (fun _ => true) parsed allNews in
               if snd pushed then ret (fst pushed)
               else delay 150 ;; ret (fst pushed)
           | Some _ => ret allNews
           | None => ret allNews
           end)
          (fun err => ret allNews) in
      bellwetherNews rest fromTs toTs allNews'
  end.

(** [allNews.filter(n => !seen.has(k) && seen.add(k))] with
    [k = `${n.date}:${n.headline}`]. *)
Fixpoint dedupeNews (allNews : list NewsItem) (seen : list string) : list NewsItem :=
  match allNews with
  | [] => []
  | n :: rest =>
      let k := n_date n ++ ":" ++ headline n in
      if existsb (String.eqb k) seen then dedupeNews rest seen
      else n :: dedupeNews rest (k :: seen)
  end.

Definition fetchMarketNews (fromDate toDate : string) (skipCache : bool)
  : M (list NewsItem) :=
  let key := "market:" ++ fromDate ++ ":" ++ toDate in
  let! cached := liveNews key skipCache in
  match cached with
  | Some data => ret data
  | None =>
      if negb (truthyStr FINNHUB_API_KEY) then ret []
      else
        let! toDateCapped := cappedToday toDate in
        let fromTs := dayStartTs fromDate in
        let toTs := dayEndTs toDateCapped in
        let! news1 := tryMarketNews "market-news" fromDate toDateCapped [] in
        let! news2 :=
          match news1 with
          | [] => tryMarketNews "news" fromDate toDateCapped news1
          | _ => ret news1
          end in
        let! news3 :=
          match news2 with
          | [] => bellwetherNews US_MARKET_NEWS_SYMBOLS fromTs toTs news2
          | _ => ret news2
          end in
        let result := dedupeNews news3 [] in
        newsCacheSet key result ;;
        ret result
  end.

(** ** Routes *)

Definition BAD_RANGE : ApiResponse :=
  apiError 400 "잘못된 날짜 범위" (Some "년(2000~2100), 월(1~12)을 확인하세요").

(** [GET /api/daily/:year/:month]. *)
Definition apiDaily (yearParam monthParam : string) : M ApiResponse :=
  tryCatch
    (match validateYearMonth yearParam monthParam with
     | None => ret BAD_RANGE
     | Some (year, month) =>
         let! got := getMonthlyData year month false in
         let! effective := getEffectiveItems in
         ret (DailyResponse year month (fst got) effective (failedField (snd got)))
     end)
    (fun err => ret (apiError 500 "데이터 조회 중 오류 발생" (Some err))).

(** [GET /api/update/:year/:month]. *)
Definition apiUpdate (yearParam monthParam : string) : M ApiResponse :=
  tryCatch
    (match validateYearMonth yearParam monthParam with
     | None => ret BAD_RANGE
     | Some (year, month) =>
         let! got := getMonthlyData year month true in
         let! effective := getEffectiveItems in
         let! stamp := gets clock in
         ret (UpdateResponse year month (fst got) effective stamp
                (failedField (snd got)))
     end)
    (fun err => ret (apiError 500 "업데이트 중 오류 발생" (Some err))).

(** [GET /api/events/:year/:month], with the query parameter [refresh]. *)
Definition apiEvents (yearParam monthParam : string) (refresh : option string)
  : M ApiResponse :=
  tryCatch
    (match validateYearMonth yearParam monthParam with
     | None => ret BAD_RANGE
     | Some (year, month) =>
         let forceRefresh :=
           match refresh with Some r => String.eqb r "1" | None => false end in
         let! got := getMonthlyData year month forceRefresh in
         let raw := fst got in
         let monthStart := formatYMD (fst (getMonthRange year month)) in
         let monthEnd := formatYMD (snd (getMonthRange year month)) in
         let! effective := getEffectiveItems in
         let candidates := candidateEvents effective raw in
         let! marketNews := fetchMarketNews monthStart monthEnd forceRefresh in
         let marketByDate := buildMarketNewsByDate marketNews in
         let events := gateEvents marketByDate raw candidates in
         ret (EventsResponse year month (groupByDate events)
                (failedField (snd got)) false)
     end)
    (fun err => ret (apiError 500 "이벤트 조회 중 오류 발생" (Some err))).

(** ** What the quote provider does for a symbol *)

(** Every request for the symbol is answered 200 with an empty body. *)
Definition yieldsEmptyResponse (sym : string) : Prop :=
  forall t1 t2 n, fst (yahoo (mkYahooRequest sym t1 t2) n) = Response 200 "".

(** Every request for the symbol is answered with a body that parses. *)
Definition yieldsChart (sym : string) : Prop :=
  forall t1 t2 n, exists body json,
    settle (fst (yahoo (mkYahooRequest sym t1 t2) n)) = Returned body /\
    JSON_parse body = Some json.

End Server.

(** ** Reference data

    The scenario of three consecutive days with closes 100, 95 and 88. *)

Definition day (d : string) (c : Q) : DailyRecord :=
  mkDaily d (Some c) None None None None.

Definition series_100_95_88 : list DailyRecord :=
  [ day "2024-03-04" 100; day "2024-03-05" 95; day "2024-03-06" 88 ].

Definition apple : Instrument :=
  baseItem "apple" "애플" "AAPL" "USD" (Some "AAPL").

Definition kospi : Instrument :=
  baseItem "kospi" "코스피지수" "^KS11" "pt" None.

(** The event the route builds from a retained candidate. *)
Definition eventOf `{Host} (marketByDate : JsMap.t (list string))
    (raw : MonthlyData) (c : CandidateEvent) : Event :=
  mkEvent (c_date c) (c_item c) (c_change c) (c_type c) (c_description c)
    (getMarketHeadlineForDate marketByDate (c_date c))
    (getSellTimingWarning (default [] (raw !! id (itemObj c))) (c_date c)
       (c_change c) (c_type c)).

(** A news date with a headline that lies within the window of an event
    date, [q] days away. *)
Definition inWindowOf `{Host} (marketByDate : JsMap.t (list string))
    (eventDate d h : string) (q : Q) : Prop :=
  (exists hs, (d, h :: hs) ∈ marketByDate) /\
  dayDiff d eventDate = Some q /\ (q <= 14)%Q.

(** ** Vocabulary of the effect properties *)

(** The stores an operation of the quote adapter must leave alone. *)
Definition keepsStores (w w' : World) : Prop :=
  symbolOverrides w' = symbolOverrides w /\
  newsCache w' = newsCache w /\
  dailyFileCache w' = dailyFileCache w /\
  cacheSaveScheduled w' = cacheSaveScheduled w /\
  cacheFile w' = cacheFile w.

Definition Preserves {A} (c : M A) : Prop :=
  forall w, keepsStores w (snd (c w)).

(** The computation always returns: it never throws. *)
Definition Total {A} (c : M A) : Prop :=
  forall w, exists a w', c w = (Returned a, w').

(** ** A reference host

    A host on UTC with the proleptic Gregorian calendar, a parser of ISO
    dates, and providers given as parameters. *)

Definition daysFromCivil (y m d : Z) : Z :=
  let y' := (if m <=? 2 then y - 1 else y)%Z in
  let era := (y' / 400)%Z in
  let yoe := (y' - era * 400)%Z in
  let mp := (if 2 <? m then m - 3 else m + 9)%Z in
  let doy := ((153 * mp + 2) / 5 + d - 1)%Z in
  let doe := (yoe * 365 + yoe / 4 - yoe / 100 + doy)%Z in
  (era * 146097 + doe - 719468)%Z.

Definition civilFromDays (z0 : Z) : Z * Z * Z :=
  let z := (z0 + 719468)%Z in
  let era := (z / 146097)%Z in
  let doe := (z - era * 146097)%Z in
  let yoe := ((doe - doe / 1460 + doe / 36524 - doe / 146096) / 365)%Z in
  let doy := (doe - (365 * yoe + yoe / 4 - yoe / 100))%Z in
  let mp := ((5 * doy + 2) / 153)%Z in
  let d := (doy - (153 * mp + 2) / 5 + 1)%Z in
  let m := (if mp <? 10 then mp + 3 else mp - 9)%Z in
  ((yoe + era * 400 + (if m <=? 2 then 1 else 0))%Z, (m - 1)%Z, d).

Definition msPerDay : Z := 24 * 60 * 60 * 1000.

Definition utcFieldsOf (t : Z) : Z * Z * Z := civilFromDays (t / msPerDay).

(** [new Date(y, m, d)] on UTC, with the month index [m] from 0. *)
Definition utcDate (y m d : Z) : option Z :=
  Some ((daysFromCivil (y + m / 12) (m mod 12 + 1) 1 + (d - 1)) * msPerDay)%Z.

Definition digitsValue (cs : list ascii) : Z :=
  fold_left (fun acc c => (10 * acc + Z.of_nat (nat_of_ascii c) - 48)%Z) cs 0%Z.

Definition isoParse (str : string) : option Z :=
  let head := String.substring 0 10 str in
  let tail := String.substring 10 (String.length str - 10) str in
  if DATE_REGEX_test head then
    match list_ascii_of_string head with
    | [y1; y2; y3; y4; _; m1; m2; _; d1; d2] =>
        let y := digitsValue [y1; y2; y3; y4] in
        let m := digitsValue [m1; m2] in
        let d := digitsValue [d1; d2] in
        if (1 <=? m)%Z && (m <=? 12)%Z && (1 <=? d)%Z && (d <=? 31)%Z then
          let start := (daysFromCivil y m d * msPerDay)%Z in
          if String.eqb tail "" || String.eqb tail "T00:00:00Z" then Some start
          else if String.eqb tail "T23:59:59Z" then Some (start + 86399000)%Z
          else None
        else None
    | _ => None
    end
  else None.

Definition referenceHost (key : option string)
    (quote : YahooRequest -> nat -> HttpResult * Z)
    (parse : string -> option Json) : Host :=
  {| Date_parse := isoParse;
     localFields := utcFieldsOf;
     utcFields := utcFieldsOf;
     localDate := utcDate;
     JSON_parse := parse;
     hostToNumber := fun _ => NaN;
     hostToString := fun _ => "[object Object]";
     hostToTime := fun _ => None;
     FINNHUB_API_KEY := key;
     yahoo := quote;
     finnhub := fun _ _ => (None, 0%Z) |}.

(** A provider that never answers, and one that answers an empty body for
    AAPL and an empty object for everything else. *)
Definition silentQuotes (req : YahooRequest) (n : nat) : HttpResult * Z :=
  (TimedOut, 0%Z).

Definition emptyForApple (req : YahooRequest) (n : nat) : HttpResult * Z :=
  (if String.eqb (y_symbol req) "AAPL" then Response 200 ""
   else Response 200 "{}", 120%Z).

Definition parseObjects (body : string) : option Json :=
  if nonEmpty body then Some (JObj []) else None.

Definition keylessHost : Host := referenceHost None silentQuotes parseObjects.

Definition emptyAppleHost : Host :=
  referenceHost (Some "token") emptyForApple parseObjects.

(** The process right after start, at some instant of 2024-03-15, with an
    empty store, and with a stored snapshot of March 2024 that holds the
    scenario series for Apple and for KOSPI. *)
Definition freshWorld : World :=
  mkWorld 1710500000000 ∅ ∅ ∅ ∅ false None [].

Definition marchSnapshot : MonthlyData :=
  <["apple" := series_100_95_88]> (<["kospi" := series_100_95_88]> ∅).

Definition marchWorld : World :=
  mkWorld 1710500000000 ∅ ∅ ∅
    (<["2024-03" := mkSnapshot 2024 3 (Some marchSnapshot) 1710000000000]> ∅)
    false None [].

(** Two monthly maps without a common date, and a short news list. *)
Definition sampleA : MonthlyData :=
  <["apple" := [day "2024-03-05" 95; day "2024-03-04" 100]]>
    (<["kospi" := [day "2024-03-04" 2600]]> ∅).

Definition sampleB : MonthlyData :=
  <["apple" := [day "2024-03-06" 88]]>
    (<["sp500" := [day "2024-03-05" 5100; day "2024-03-04" 5000]]> ∅).

Definition sampleNews : list NewsItem :=
  [ mkNews "2024-03-01" "Fed holds rates"; mkNews "2024-03-20" "Chips rally";
    mkNews "2024-03-01" "Oil slips" ].

(** The candidate and the event of the third day of the scenario. *)
Definition thirdDayCandidate : CandidateEvent :=
  mkCandidate "2024-03-06" "애플" apple ((88 - 95) / 95 * 100)%Q FALL
    "애플 전일대비 -7.37%".

Definition thirdDayEvent : Event :=
  mkEvent "2024-03-06" "애플" ((88 - 95) / 95 * 100)%Q FALL
    "애플 전일대비 -7.37%" None W_CRASH.

(** ** Vocabulary of the further properties *)

(** The key under which [fetchMarketNews] remembers an item it has seen:
    [`${n.date}:${n.headline}`]. *)
Definition newsKey (n : NewsItem) : string := n_date n ++ ":" ++ headline n.

(** The advisories a decline and a rise can receive. *)
Definition fallAdvisories : list string :=
  [W_CRASH; W_DOWNTREND; W_STOPLOSS; W_STREAK; W_SHARPDROP; W_MONTHDOWN;
   W_VOLATILE].

Definition riseAdvisories : list string := [W_SURGE; W_NEARHIGH; W_HOLD].

(** Every record of every series has a close. *)
Definition closesPresent (raw : MonthlyData) : Prop :=
  forall k xs r, raw !! k = Some xs -> r ∈ xs -> is_Some (close r).

(** A non-empty run of decimal digits, and a text that does not go on with
    a digit. *)
Definition digitsOnly (s : string) : bool :=
  nonEmpty s && forallb isDigit (list_ascii_of_string s).

Definition noLeadingDigit (s : string) : bool :=
  match s with
  | EmptyString => true
  | String c _ => negb (isDigit c)
  end.

(** The periods the routes accept. *)
Definition validPeriod (year month : Z) : Prop :=
  (2000 <= year <= 2100)%Z /\ (1 <= month <= 12)%Z.

(** The requests a news fetch can send, in the order it sends them: the
    general feed, the alternative feed, then the four large US names. *)
Definition marketNewsPlan (fromTs toTs : option Z) : list NewsRequest :=
  [GeneralNews "market-news"; GeneralNews "news"] ++
  map (fun sym => CompanyNews sym fromTs toTs) US_MARKET_NEWS_SYMBOLS.

(** ** Sanitised rows

    What [sanitizeDate] and [sanitizeNum] guarantee of a row the quote
    adapter builds. *)

Definition boundedField (v : option Q) : Prop :=
  match v with
  | Some q => (Qabs q <= SAFE_NUM_MAX)%Q
  | None => True
  end.

Section Sanitised.
Context `{Host}.

Definition sanitised (r : DailyRecord) : Prop :=
  sanitizeDate (date r) = Some (date r) /\
  (exists c, close r = Some c /\ (Qabs c <= SAFE_NUM_MAX)%Q) /\
  boundedField (open r) /\ boundedField (high r) /\
  boundedField (low r) /\ boundedField (volume r).

Definition dataSanitised (data : MonthlyData) : Prop :=
  forall k xs, data !! k = Some xs -> Forall sanitised xs.

(** Every series held by the response cache and by the monthly store is
    made of sanitised rows. *)
Definition storesSanitised (w : World) : Prop :=
  (forall key slot, cache w !! key = Some slot -> Forall sanitised (slot_data slot)) /\
  (forall key snap data, dailyFileCache w !! key = Some snap ->
     s_data snap = Some data -> dataSanitised data).

End Sanitised.

(** An operation keeps an invariant of the world and, when it returns,
    returns a value with a given property. *)
Definition Keeps {A} (I : World -> Prop) (c : M A) (Q : A -> Prop) : Prop :=
  forall w, I w ->
    I (snd (c w)) /\
    match fst (c w) with
    | Returned a => Q a
    | Thrown _ => True
    end.

(** ** The chart route and the route of the recent days *)

(** A point of the chart: [{ date, close, open }]. *)
Record ChartPoint := mkPoint {
  p_date : string;
  p_close : option Q;
  p_open : option Q
}.

Definition toPoint (d : DailyRecord) : ChartPoint :=
  mkPoint (date d) (close d) (open d).

Inductive ChartReply :=
| ChartRefused (r : ApiResponse)
| ChartData (label : string) (data : list ChartPoint).

Inductive RecentReply :=
| RecentRefused (r : ApiResponse)
| RecentData (from to : string) (days : Z) (data : MonthlyData)
    (effective : list Instrument) (failed : option (list FetchFailure)).

Definition NOT_ALLOWED : ApiResponse :=
  apiError 400 "허용되지 않은 항목" (Some "항목을 선택해 주세요").

(** [i => i.id === symbol || i.symbol === symbol]. *)
Definition matchesParam (symbolParam : string) (i : Instrument) : bool :=
  String.eqb (id i) symbolParam || String.eqb (symbol i) symbolParam.

(** [parseInt(req.params.days || '30', 10)] and the clamp to 1..365. *)
Definition recentDays (daysParam : option string) : Z :=
  match parseInt (if truthyStr daysParam then default "" daysParam else "30") with
  | None => 30
  | Some rawDays => Z.min (Z.max rawDays 1) 365
  end.

Section MoreRoutes.
Context `{Host}.

(** [GET /api/chart/:symbol/:year/:month]. *)
Definition apiChart (symbolParam yearParam monthParam : string) : M ChartReply :=
  tryCatch
    (match validateYearMonth yearParam monthParam with
     | None => ret (ChartRefused BAD_RANGE)
     | Some (year, month) =>
         let! effective := getEffectiveItems in
         let item := List.find (matchesParam symbolParam) effective in
         let sym := match item with Some i => symbol i | None => symbolParam end in
         let! allowed := gets (fun w => isSymbolAllowed (symbolOverrides w) sym) in
         if negb allowed then ret (ChartRefused NOT_ALLOWED)
         else
           let! data := fetchChartFromYahoo sym (fst (getMonthRange year month))
                          (snd (getMonthRange year month)) in
           ret (ChartData
                  (match item with
                   | Some i => if nonEmpty (name i) then name i else symbolParam
                   | None => symbolParam
                   end)
                  (map toPoint data))
     end)
    (fun err => ret (ChartRefused (apiError 500 "차트 데이터 조회 실패" (Some err)))).

(** What [Date] contributes to the route of the recent days:
    [d.setHours(0, 0, 0, 0)] and [d.setDate(n)] on a valid time value
    ([None] is an invalid date). *)
Variable setHours0 : Z -> option Z.
Variable setDate : Z -> Z -> option Z.

(** [d.getDate()]; [None] is NaN. *)
Definition getDate (d : option Z) : option Z :=
  (fun t => let '(_, _, day) := localFields t in day) <$> d.

(** [copy.setDate(n)] for a copy of [d] and a day number that may be NaN. *)
Definition withDate (d : option Z) (n : option Z) : option Z :=
  match d, n with
  | Some t, Some k => setDate t k
  | _, _ => None
  end.

(** The range that ends yesterday and spans [days] days. *)
Definition recentRange (now days : Z) : option Z * option Z :=
  let today := setHours0 now in
  let end_ := withDate today ((fun n => n - 1)%Z <$> getDate today) in
  let start := withDate end_ ((fun n => n - (days - 1))%Z <$> getDate end_) in
  (start, end_).

(** [GET /api/daily_recent/:days?]. *)
Definition apiDailyRecent (daysParam : option string) : M RecentReply :=
  tryCatch
    (let days := recentDays daysParam in
     let! now := gets clock in
     let start := fst (recentRange now days) in
     let end_ := snd (recentRange now days) in
     let from := formatYMD start in
     let to := formatYMD end_ in
     let! effective := getEffectiveItems in
     let! fetched := fetchAllHistorical effective start end_ in
     let data := windowed from to (fst fetched) in
     let! effective' := getEffectiveItems in
     ret (RecentData from to days data effective' (failedField (snd fetched))))
    (fun err =>
       ret (RecentRefused
              (apiError 500 "최근 일별 데이터 조회 중 오류 발생" (Some err)))).

End MoreRoutes.

(** A parsed chart body with one quoted day, 2024-03-04, close 100. *)
Definition oneDayChart : Json :=
  JObj [("chart",
         JObj [("result",
                JArr [JObj [("timestamp", JArr [JNum (Fin 1709553600)]);
                            ("indicators",
                             JObj [("quote",
                                    JArr [JObj [("close", JArr [JNum (Fin 100)])]])])]])])].

(** The first and the last day of March 2024, at midnight UTC. *)
Definition marchStart : option Z := Some 1709251200000%Z.
Definition marchEnd : option Z := Some 1711843200000%Z.

(** ** Removing an override *)

Definition setSymbolOverrides (o : gmap string Override) (w : World) : World :=
  mkWorld (clock w) o (cache w) (newsCache w) (dailyFileCache w)
    (cacheSaveScheduled w) (cacheFile w) (upstream w).

Inductive OverrideReply :=
| OverrideRefused (status : Z) (error : string)
| OverrideDone (effective : list Instrument).

Section OverrideRoutes.
Context `{Host}.

(** [DELETE /api/symbols/override/:id]; [written] is the outcome of creating
    the directory and writing the overrides file: [None] when both succeed,
    the message of the error otherwise. *)
Definition apiOverrideDelete (written : option string) (idParam : string)
  : M OverrideReply :=
  if negb (existsb (fun i => String.eqb (id i) idParam) items) then
    ret (OverrideRefused 400 "존재하지 않는 항목입니다")
  else
    modify (fun w => setSymbolOverrides (delete idParam (symbolOverrides w)) w) ;;
    match written with
    | Some message => ret (OverrideRefused 500 message)
    | None =>
        let! effective := getEffectiveItems in
        ret (OverrideDone effective)
    end.

End OverrideRoutes.

(* ================================================================== *)
(** * Properties *)
(* ================================================================== *)

(** ** The order on dates *)

Lemma localeCompare_refl a : localeCompare a a = Eq.
Proof. unfold localeCompare. by apply String_as_OT.cmp_eq. Qed.

Lemma localeCompare_eq a b : localeCompare a b = Eq <-> a = b.
Proof. unfold localeCompare. apply String_as_OT.cmp_eq. Qed.

Lemma localeCompare_antisym a b :
  localeCompare a b = CompOpp (localeCompare b a).
Proof. unfold localeCompare. apply String.compare_antisym. Qed.

Lemma date_lt_trans a b c : date_lt a b -> date_lt b c -> date_lt a c.
Proof.
  unfold date_lt, localeCompare. intros H1 H2.
  apply String_as_OT.cmp_lt in H1, H2. apply String_as_OT.cmp_lt.
  eapply String_as_OT.lt_trans; eauto.
Qed.

Lemma date_le_lt_or_eq a b : date_le a b <-> date_lt a b \/ a = b.
Proof.
  unfold date_le, date_lt. rewrite <- localeCompare_eq.
  destruct (localeCompare a b); intuition congruence.
Qed.

Lemma date_le_refl a : date_le a a.
Proof. apply date_le_lt_or_eq. by right. Qed.

Lemma date_le_trans a b c : date_le a b -> date_le b c -> date_le a c.
Proof.
  rewrite !date_le_lt_or_eq. intros [H1 | ->] [H2 | ->]; eauto using date_lt_trans.
Qed.

Lemma date_lt_irrefl a : ~ date_lt a a.
Proof. unfold date_lt. rewrite localeCompare_refl. discriminate. Qed.

Lemma date_le_antisym a b : date_le a b -> date_le b a -> a = b.
Proof.
  rewrite !date_le_lt_or_eq. intros [H1|H1] [H2|H2]; try done.
  exfalso. eapply date_lt_irrefl, date_lt_trans; eauto.
Qed.

Lemma date_gt_le a b : localeCompare a b = Gt -> date_le b a.
Proof.
  intros H. unfold date_le. rewrite localeCompare_antisym, H. discriminate.
Qed.

#[local] Instance recLe_trans : Transitive recLe.
Proof. intros a b c. apply date_le_trans. Qed.

(** ** The stable sort *)

Lemma insertSorted_perm x l : insertSorted x l ≡ₚ x :: l.
Proof.
  induction l as [|y l IH]; simpl; [done|].
  destruct (byDateCompare x y); try done.
  rewrite IH. apply perm_swap.
Qed.

Lemma sortByDate_perm l : sortByDate l ≡ₚ l.
Proof.
  induction l as [|x l IH]; simpl; [done|].
  by rewrite insertSorted_perm, IH.
Qed.

Lemma insertSorted_sorted x l :
  StronglySorted recLe l -> StronglySorted recLe (insertSorted x l).
Proof.
  induction 1 as [|y l Hl IH Hy]; simpl.
  { repeat constructor. }
  destruct (byDateCompare x y) eqn:E.
  - constructor; [by constructor|].
    assert (recLe x y) as Hxy by (unfold recLe, date_le, byDateCompare in *; congruence).
    constructor; [done|]. eapply Forall_impl; [exact Hy|].
    intros z Hz. by etrans.
  - constructor; [by constructor|].
    assert (recLe x y) as Hxy by (unfold recLe, date_le, byDateCompare in *; congruence).
    constructor; [done|]. eapply Forall_impl; [exact Hy|].
    intros z Hz. by etrans.
  - constructor; [done|].
    rewrite insertSorted_perm. constructor; [|done].
    by apply date_gt_le.
Qed.

Lemma sortByDate_sorted l : StronglySorted recLe (sortByDate l).
Proof.
  induction l; simpl; [constructor|]. by apply insertSorted_sorted.
Qed.

Lemma insertSorted_head x l : Forall (recLe x) l -> insertSorted x l = x :: l.
Proof.
  destruct 1 as [|y l Hy _]; simpl; [done|].
  unfold recLe, date_le, byDateCompare in *.
  by destruct (localeCompare (date x) (date y)).
Qed.

Lemma sortByDate_id l : StronglySorted recLe l -> sortByDate l = l.
Proof.
  induction 1 as [|x l _ IH Hx]; simpl; [done|].
  rewrite IH. by apply insertSorted_head.
Qed.

Lemma sortByDate_elem r l : r ∈ sortByDate l <-> r ∈ l.
Proof. by rewrite sortByDate_perm. Qed.

Lemma sortByDate_dates l : map date (sortByDate l) ≡ₚ map date l.
Proof. apply Permutation_map, sortByDate_perm. Qed.

Lemma uniqueDates_inj l r1 r2 :
  uniqueDates l -> r1 ∈ l -> r2 ∈ l -> date r1 = date r2 -> r1 = r2.
Proof.
  unfold uniqueDates. induction l as [|x l IH]; intros Hnd H1 H2 Hd.
  { by apply elem_of_nil in H1. }
  simpl in Hnd. apply NoDup_cons in Hnd as [Hx Hnd].
  apply elem_of_cons in H1 as [->|H1], H2 as [->|H2]; try done.
  - exfalso. apply Hx. rewrite Hd. by apply list_elem_of_fmap_2.
  - exfalso. apply Hx. rewrite <- Hd. by apply list_elem_of_fmap_2.
  - by apply IH.
Qed.

Lemma uniqueDates_NoDup l : uniqueDates l -> NoDup l.
Proof. apply NoDup_fmap_1. Qed.

(** Two date-sorted series with unique dates and the same records are the
    same list. *)
Lemma sorted_series_ext l1 l2 :
  StronglySorted recLe l1 -> StronglySorted recLe l2 ->
  uniqueDates l1 -> uniqueDates l2 ->
  (forall r, r ∈ l1 <-> r ∈ l2) -> l1 = l2.
Proof.
  intros S1 S2 U1 U2 Hm.
  apply (StronglySorted_unique_strong recLe); try done.
  - intros x1 x2 H1 H2 L12 L21.
    apply (uniqueDates_inj l1); try done; [by apply Hm|].
    by apply date_le_antisym.
  - apply NoDup_Permutation; auto using uniqueDates_NoDup.
Qed.


(** ** Insertion-ordered maps *)

Lemma JsMap_get_set {V} (m : JsMap.t V) k v k' :
  JsMap.get (JsMap.set m k v) k' =
  if String.eqb k k' then Some v else JsMap.get m k'.
Proof.
  induction m as [|[k0 v0] m IH]; simpl; [done|].
  destruct (String.eqb_spec k0 k) as [->|Hne]; simpl.
  - by destruct (String.eqb_spec k k').
  - rewrite IH. destruct (String.eqb_spec k0 k') as [->|?]; [|done].
    by destruct (String.eqb_spec k k').
Qed.

Lemma JsMap_keys_set {V} (m : JsMap.t V) k v k' :
  k' ∈ JsMap.keys (JsMap.set m k v) <-> k' = k \/ k' ∈ JsMap.keys m.
Proof.
  unfold JsMap.keys. induction m as [|[k0 v0] m IH]; simpl.
  { rewrite list_elem_of_singleton. rewrite elem_of_nil. tauto. }
  destruct (String.eqb_spec k0 k) as [->|Hne]; simpl.
  - rewrite !elem_of_cons. tauto.
  - rewrite !elem_of_cons, IH. tauto.
Qed.

Lemma JsMap_set_NoDup {V} (m : JsMap.t V) k v :
  NoDup (JsMap.keys m) -> NoDup (JsMap.keys (JsMap.set m k v)).
Proof.
  unfold JsMap.keys. induction m as [|[k0 v0] m IH]; simpl; intros Hnd.
  { apply NoDup_singleton. }
  apply NoDup_cons in Hnd as [Hk0 Hnd].
  destruct (String.eqb_spec k0 k) as [->|Hne]; simpl.
  - by apply NoDup_cons.
  - apply NoDup_cons. split; [|by apply IH].
    intros Hin. apply (JsMap_keys_set m k v k0) in Hin as [?|?]; by auto.
Qed.

Lemma JsMap_get_None {V} (m : JsMap.t V) k :
  JsMap.get m k = None <-> k ∉ JsMap.keys m.
Proof.
  unfold JsMap.keys. induction m as [|[k0 v0] m IH]; simpl.
  { split; [intros _; apply not_elem_of_nil|done]. }
  rewrite not_elem_of_cons. destruct (String.eqb_spec k0 k) as [->|Hne].
  - split; [done|]. by intros [? _].
  - rewrite IH. split; [by intros; split|by intros [_ ?]].
Qed.

Lemma JsMap_elem_get {V} (m : JsMap.t V) k v :
  NoDup (JsMap.keys m) -> ((k, v) ∈ m <-> JsMap.get m k = Some v).
Proof.
  unfold JsMap.keys. induction m as [|[k0 v0] m IH]; simpl; intros Hnd.
  { rewrite elem_of_nil. split; [done|discriminate]. }
  apply NoDup_cons in Hnd as [Hk0 Hnd]. rewrite elem_of_cons, (IH Hnd).
  destruct (String.eqb_spec k0 k) as [->|Hne].
  - split.
    + intros [[= ->]|Hg]; [done|]. exfalso.
      assert (JsMap.get m k = None) as E by by apply JsMap_get_None.
      congruence.
    + intros [= ->]. by left.
  - split; [|by right]. intros [[= ? ?]|?]; [congruence|done].
Qed.

(** ** The per-date map of the merge *)

Lemma keyedByDate_set m r :
  keyedByDate m -> keyedByDate (JsMap.set m (date r) r).
Proof.
  unfold keyedByDate. induction 1 as [|[k0 v0] m Hk Hm IH]; simpl.
  { by repeat constructor. }
  destruct (String.eqb k0 (date r)); constructor; try done.
Qed.

Lemma setAllByDate_keyed m xs :
  keyedByDate m -> keyedByDate (setAllByDate m xs).
Proof.
  unfold setAllByDate. revert m. induction xs as [|x xs IH]; simpl; intros m Hm;
    [done|]. by apply IH, keyedByDate_set.
Qed.

Lemma setAllByDate_NoDup m xs :
  NoDup (JsMap.keys m) -> NoDup (JsMap.keys (setAllByDate m xs)).
Proof.
  unfold setAllByDate. revert m. induction xs as [|x xs IH]; simpl; intros m Hm;
    [done|]. by apply IH, JsMap_set_NoDup.
Qed.

Lemma setAllByDate_get m xs d :
  JsMap.get (setAllByDate m xs) d =
  match lastWithDate d xs with Some r => Some r | None => JsMap.get m d end.
Proof.
  unfold setAllByDate. revert m. induction xs as [|x xs IH]; simpl; intros m;
    [done|].
  rewrite IH. destruct (lastWithDate d xs); [done|].
  rewrite JsMap_get_set. by destruct (String.eqb (date x) d).
Qed.

Lemma keyedByDate_values m : keyedByDate m -> map date (JsMap.values m) = JsMap.keys m.
Proof.
  unfold JsMap.values, JsMap.keys. induction 1 as [|[k v] m Hk _ IH]; simpl;
    [done|]. simpl in Hk. by rewrite IH, Hk.
Qed.

Lemma keyedByDate_elem m r :
  keyedByDate m -> NoDup (JsMap.keys m) ->
  (r ∈ JsMap.values m <-> JsMap.get m (date r) = Some r).
Proof.
  intros Hk Hnd. rewrite <- (JsMap_elem_get m (date r) r Hnd).
  unfold JsMap.values. rewrite list_elem_of_fmap. split.
  - intros ([k v] & -> & Hin). simpl.
    unfold keyedByDate in Hk. rewrite Forall_forall in Hk.
    specialize (Hk _ Hin). simpl in Hk. by subst.
  - intros Hin. by exists (date r, r).
Qed.

Lemma lastWithDate_Some d xs r :
  lastWithDate d xs = Some r -> r ∈ xs /\ date r = d.
Proof.
  induction xs as [|x xs IH]; simpl; [discriminate|].
  destruct (lastWithDate d xs) as [r'|].
  - intros [= <-]. destruct IH as [? ?]; [done|]. split; [by right|done].
  - destruct (String.eqb_spec (date x) d); [|discriminate].
    intros [= <-]. split; [by left|done].
Qed.

Lemma lastWithDate_None d xs : lastWithDate d xs = None <-> d ∉ map date xs.
Proof.
  induction xs as [|x xs IH]; simpl.
  { split; [intros _; apply not_elem_of_nil|done]. }
  rewrite not_elem_of_cons. destruct (lastWithDate d xs) as [r'|].
  - split; [discriminate|]. intros [_ Hn]. by apply IH in Hn.
  - destruct (String.eqb_spec (date x) d) as [E|E].
    + split; [discriminate|]. by intros [? _].
    + split; [|done]. intros _. split; [done|]. by apply IH.
Qed.

Lemma lastWithDate_unique d xs r :
  uniqueDates xs -> r ∈ xs -> date r = d -> lastWithDate d xs = Some r.
Proof.
  intros Hu Hin Hd. destruct (lastWithDate d xs) as [r'|] eqn:E.
  - apply lastWithDate_Some in E as [Hin' Hd'].
    f_equal. apply (uniqueDates_inj xs); try done. congruence.
  - apply lastWithDate_None in E. exfalso. apply E. subst.
    by apply list_elem_of_fmap_2.
Qed.

(** ** One merged series *)

Lemma mergeSeries_elem ex fr r :
  r ∈ mergeSeries ex fr <->
  lastWithDate (date r) fr = Some r \/
  (lastWithDate (date r) fr = None /\ lastWithDate (date r) ex = Some r).
Proof.
  unfold mergeSeries. rewrite sortByDate_elem.
  rewrite keyedByDate_elem.
  - rewrite !setAllByDate_get. simpl.
    destruct (lastWithDate (date r) fr) as [r'|];
      [|destruct (lastWithDate (date r) ex)]; intuition congruence.
  - apply setAllByDate_keyed, setAllByDate_keyed. constructor.
  - apply setAllByDate_NoDup, setAllByDate_NoDup. constructor.
Qed.

Lemma mergeSeries_unique ex fr : uniqueDates (mergeSeries ex fr).
Proof.
  unfold uniqueDates, mergeSeries. rewrite sortByDate_dates.
  rewrite keyedByDate_values.
  - apply setAllByDate_NoDup, setAllByDate_NoDup. constructor.
  - apply setAllByDate_keyed, setAllByDate_keyed. constructor.
Qed.

Lemma mergeSeries_sorted ex fr : StronglySorted recLe (mergeSeries ex fr).
Proof. apply sortByDate_sorted. Qed.

Lemma mergeSeries_dates ex fr d :
  d ∈ map date (mergeSeries ex fr) <-> d ∈ map date ex \/ d ∈ map date fr.
Proof.
  rewrite list_elem_of_fmap. split.
  - intros (r & -> & Hr). apply mergeSeries_elem in Hr as [H|[_ H]];
      apply lastWithDate_Some in H as [Hin _]; [right|left];
      by apply list_elem_of_fmap_2.
  - intros H.
    destruct (lastWithDate d fr) as [r|] eqn:Ef.
    { exists r. pose proof (lastWithDate_Some _ _ _ Ef) as [_ <-].
      split; [done|]. apply mergeSeries_elem. by left. }
    destruct H as [H|H]; [|by apply lastWithDate_None in Ef].
    destruct (lastWithDate d ex) as [r|] eqn:Ee;
      [|by apply lastWithDate_None in Ee].
    exists r. pose proof (lastWithDate_Some _ _ _ Ee) as [_ <-].
    split; [done|]. apply mergeSeries_elem. by right.
Qed.

Lemma mergeSeries_nil_r ex : uniqueDates ex -> mergeSeries ex [] = sortByDate ex.
Proof.
  intros Hu. apply sorted_series_ext.
  - apply mergeSeries_sorted.
  - apply sortByDate_sorted.
  - apply mergeSeries_unique.
  - unfold uniqueDates. by rewrite sortByDate_dates.
  - intros r. rewrite mergeSeries_elem, sortByDate_elem. simpl. split.
    + intros [?|[_ H]]; [done|]. by apply lastWithDate_Some in H as [? _].
    + intros Hin. right. split; [done|]. by apply lastWithDate_unique.
Qed.




(** ** The merged map *)

Lemma mergeMonthlyData_lookup (existing fresh : MonthlyData) id :
  mergeMonthlyData existing fresh !! id =
  match existing !! id with
  | Some ex => Some (mergeSeries ex (default [] (fresh !! id)))
  | None => sortByDate <$> fresh !! id
  end.
Proof.
  unfold mergeMonthlyData.
  set (f1 := fun id ex (merged : MonthlyData) =>
               <[id := mergeSeries ex (default [] (fresh !! id))]> merged).
  assert (forall j, map_fold f1 ∅ existing !! j =
            (fun ex => mergeSeries ex (default [] (fresh !! j))) <$> existing !! j)
    as H1.
  { apply (map_fold_weak_ind
             (fun (r : MonthlyData) (m : MonthlyData) => forall j,
                r !! j = (fun ex => mergeSeries ex (default [] (fresh !! j))) <$> m !! j)).
    - intros j. by rewrite !lookup_empty.
    - intros i x m r Hi IH j. unfold f1.
      destruct (decide (i = j)) as [->|Hne].
      + by rewrite !lookup_insert_eq.
      + by rewrite !lookup_insert_ne. }
  set (merged1 := map_fold f1 ∅ existing) in *.
  revert id.
  apply (map_fold_weak_ind
           (fun (r : MonthlyData) (m : MonthlyData) => forall j,
              r !! j = match existing !! j with
                       | Some ex => Some (mergeSeries ex (default [] (fresh !! j)))
                       | None => sortByDate <$> m !! j
                       end)).
  - intros j. rewrite H1, lookup_empty. by destruct (existing !! j).
  - intros i x m r Hi IH j.
    destruct (r !! i) as [v|] eqn:Er.
    + rewrite IH. destruct (existing !! j) eqn:Ej; [done|].
      destruct (decide (i = j)) as [->|Hne].
      * rewrite IH, Ej, Hi in Er. discriminate.
      * by rewrite lookup_insert_ne.
    + destruct (decide (i = j)) as [->|Hne].
      * rewrite lookup_insert_eq. rewrite IH in Er.
        destruct (existing !! j); [discriminate|]. by rewrite lookup_insert_eq.
      * rewrite !lookup_insert_ne by done. apply IH.
Qed.



(** ** Candidate events *)


Lemma Qltb_lt a b : Qltb a b = true <-> (a < b)%Q.
Proof.
  unfold Qltb. rewrite negb_true_iff. split.
  - intros Hb. apply Qnot_le_lt. intros Hle.
    apply Qle_bool_iff in Hle. congruence.
  - intros Hlt. destruct (Qle_bool b a) eqn:E; [|done].
    apply Qle_bool_iff in E. lra.
Qed.

Lemma Qltb_ge a b : Qltb a b = false <-> (b <= a)%Q.
Proof.
  unfold Qltb. rewrite negb_false_iff. apply Qle_bool_iff.
Qed.

Lemma pairCandidate_elem item prevRec currRec ev :
  ev ∈ pairCandidate item prevRec currRec <->
  exists prev curr,
    close prevRec = Some prev /\ close currRec = Some curr /\
    ~ (prev == 0)%Q /\ (3 <= Qabs (changePctOf prev curr))%Q /\
    ev = mkCandidate (date currRec) (name item) item (changePctOf prev curr)
           (if Qltb 0 (changePctOf prev curr) then RISE else FALL)
           (describe item (changePctOf prev curr)).
Proof.
  unfold pairCandidate.
  destruct (close prevRec) as [prev|], (close currRec) as [curr|];
    try (rewrite elem_of_nil; split; [done|]; by intros (? & ? & ? & ? & _)).
  destruct (Qeq_bool prev 0) eqn:E0.
  { rewrite elem_of_nil. split; [done|].
    intros (p & c & [= <-] & _ & Hne & _). by apply Qeq_bool_iff in E0. }
  apply Qeq_bool_neq in E0.
  destruct (Qle_bool 3 (Qabs (changePctOf prev curr))) eqn:E3.
  - apply Qle_bool_iff in E3. rewrite list_elem_of_singleton. split.
    + intros ->. by exists prev, curr.
    + by intros (p & c & [= <-] & [= <-] & _ & _ & ->).
  - rewrite elem_of_nil. split; [done|].
    intros (p & c & [= <-] & [= <-] & _ & Hle & _).
    apply Qle_bool_iff in Hle. congruence.
Qed.

Lemma scanFrom_elem item prevRec rest ev :
  ev ∈ scanFrom item prevRec rest <->
  exists (i : nat) p c,
    (prevRec :: rest) !! i = Some p /\ (prevRec :: rest) !! S i = Some c /\
    ev ∈ pairCandidate item p c.
Proof.
  revert prevRec. induction rest as [|currRec rest IH]; intros prevRec; simpl.
  { rewrite elem_of_nil. split; [done|].
    intros (i & p & c & _ & Hc & _). by destruct i. }
  rewrite elem_of_app, IH. split.
  - intros [Hp|(i & p & c & Hi & Hsi & Hev)].
    + by exists O, prevRec, currRec.
    + by exists (S i), p, c.
  - intros (i & p & c & Hi & Hsi & Hev). destruct i as [|i]; simpl in *.
    + left. congruence.
    + right. by exists i, p, c.
Qed.

Lemma scanSeries_elem item data ev :
  ev ∈ scanSeries item data <->
  exists (i : nat) p c,
    data !! i = Some p /\ data !! S i = Some c /\ ev ∈ pairCandidate item p c.
Proof.
  destruct data as [|first rest]; simpl.
  - rewrite elem_of_nil. split; [done|]. by intros (i & p & c & ? & _).
  - apply scanFrom_elem.
Qed.

Lemma candidateEvents_elem effective (raw : MonthlyData) ev :
  ev ∈ candidateEvents effective raw <->
  exists item, item ∈ effective /\
    ev ∈ scanSeries item (default [] (raw !! id item)).
Proof.
  unfold candidateEvents. rewrite list_elem_of_In, in_flat_map.
  split; intros (item & Hi & Hev); exists item;
    by rewrite ?list_elem_of_In in *.
Qed.


(** ** News gating *)

Section Events.
Context `{Host}.

Lemma groupByDate_fold (evs : list Event) (acc : gmap string (list Event)) d :
  default [] (fold_left (fun byDate e =>
       <[e_date e := (default [] (byDate !! e_date e) ++ [e])%list]> byDate)
     evs acc !! d) =
  (default [] (acc !! d) ++ filter (fun e => e_date e = d) evs)%list.
Proof.
  revert acc. induction evs as [|e evs IH]; intros acc; simpl.
  { by rewrite app_nil_r. }
  rewrite IH. destruct (decide (e_date e = d)) as [Heq|Hne].
  - rewrite filter_cons_True by done. rewrite Heq, lookup_insert_eq. simpl.
    by rewrite <- app_assoc.
  - rewrite lookup_insert_ne by done. by rewrite filter_cons_False by done.
Qed.

Lemma groupByDate_elem (evs : list Event) d e :
  e ∈ default [] (groupByDate evs !! d) <-> e ∈ evs /\ e_date e = d.
Proof.
  unfold groupByDate. rewrite groupByDate_fold, lookup_empty. simpl.
  by rewrite list_elem_of_filter, (comm and).
Qed.

Lemma gateEvents_elem marketByDate (raw : MonthlyData) candidates e :
  e ∈ gateEvents marketByDate raw candidates <->
  exists c, c ∈ candidates /\ truthyStr (newsSymbol (itemObj c)) = true /\
            e = eventOf marketByDate raw c.
Proof.
  induction candidates as [|c cs IH]; simpl.
  { rewrite elem_of_nil. split; [done|]. intros (c & Hc & _).
    by apply elem_of_nil in Hc. }
  destruct (truthyStr (newsSymbol (itemObj c))) eqn:E.
  - rewrite elem_of_cons, IH. split.
    + intros [->|(c' & Hc' & Ht & ->)].
      * exists c. split; [by left|done].
      * exists c'. split; [by right|done].
    + intros (c' & Hc' & Ht & ->). apply elem_of_cons in Hc' as [->|Hc'].
      * by left.
      * right. by exists c'.
  - rewrite IH. split.
    + intros (c' & Hc' & Ht & ->). exists c'. split; [by right|done].
    + intros (c' & Hc' & Ht & ->). apply elem_of_cons in Hc' as [->|Hc'].
      * congruence.
      * by exists c'.
Qed.

Lemma items_newsSymbol :
  forallb (fun b => match newsSymbol b with
                    | Some s => nonEmpty s
                    | None => true
                    end) items = true.
Proof. reflexivity. Qed.

Lemma effective_newsSymbol overrides item :
  item ∈ effectiveItems items overrides ->
  (truthyStr (newsSymbol item) = true <-> newsSymbol item <> None).
Proof.
  unfold effectiveItems. rewrite list_elem_of_fmap.
  intros (b & -> & Hb).
  assert (newsSymbol (applyOverride overrides b) = newsSymbol b) as ->.
  { unfold applyOverride. destruct (overrides !! id b) as [o|]; [|done].
    by destruct (nonEmpty (o_symbol o)). }
  pose proof items_newsSymbol as Hall. rewrite forallb_forall in Hall.
  apply list_elem_of_In in Hb. specialize (Hall b Hb).
  destruct (newsSymbol b); simpl; [|done].
  split; [done|by intros _].
Qed.

Lemma candidate_itemObj effective (raw : MonthlyData) c :
  c ∈ candidateEvents effective raw -> itemObj c ∈ effective.
Proof.
  intros Hc. apply candidateEvents_elem in Hc as (item & Hitem & Hc).
  apply scanSeries_elem in Hc as (i & p & cr & _ & _ & Hc).
  by apply pairCandidate_elem in Hc as (prev & curr & _ & _ & _ & _ & ->).
Qed.

End Events.

Section Correlation.
Context `{Host}.

Lemma detectEvents_elem (overrides : gmap string Override)
    (raw : MonthlyData) (marketNews : list NewsItem) (d : string) (e : Event) :
  e ∈ default [] (detectEvents (effectiveItems items overrides) raw marketNews !! d)
  <->
  exists c, c ∈ candidateEvents (effectiveItems items overrides) raw /\
    newsSymbol (itemObj c) <> None /\ c_date c = d /\
    e = eventOf (buildMarketNewsByDate marketNews) raw c.
Proof.
  unfold detectEvents. rewrite groupByDate_elem, gateEvents_elem. split.
  - intros [(c & Hc & Ht & ->) Hd]. exists c. split; [done|].
    split; [|done].
    pose proof (candidate_itemObj _ _ _ Hc) as Hitem.
    by apply (effective_newsSymbol overrides _ Hitem).
  - intros (c & Hc & Hn & Hd & ->). split; [|done].
    exists c. split; [done|]. split; [|done].
    pose proof (candidate_itemObj _ _ _ Hc) as Hitem.
    by apply (effective_newsSymbol overrides _ Hitem).
Qed.

(** ** Headline correlation *)

Lemma JsMap_get_elem {V} (m : JsMap.t V) k v :
  JsMap.get m k = Some v -> (k, v) ∈ m.
Proof.
  induction m as [|[k0 v0] m IH]; simpl; [discriminate|].
  destruct (String.eqb_spec k0 k) as [->|Hne].
  - intros [= ->]. by left.
  - intros Hg. right. by apply IH.
Qed.

Lemma inWindowOf_nil eventDate d h q : ~ inWindowOf [] eventDate d h q.
Proof. intros [[hs Hin] _]. by apply elem_of_nil in Hin. Qed.

Lemma inWindowOf_cons d0 hs0 rest eventDate d h q :
  inWindowOf ((d0, hs0) :: rest) eventDate d h q <->
  (d = d0 /\ (exists hs, hs0 = h :: hs) /\
   dayDiff d0 eventDate = Some q /\ (q <= 14)%Q) \/
  inWindowOf rest eventDate d h q.
Proof.
  unfold inWindowOf. split.
  - intros ([hs Hin] & Hd & Hq). apply elem_of_cons in Hin as [[= -> <-]|Hin].
    + left. eauto.
    + right. eauto.
  - intros [(-> & [hs ->] & Hd & Hq)|([hs Hin] & Hd & Hq)].
    + split; [exists hs; by left|done].
    + split; [exists hs; by right|done].
Qed.

Lemma scanHeadlines_spec entries eventDate best bestDiff :
  (scanHeadlines entries eventDate best bestDiff = best /\
   forall d h q, inWindowOf entries eventDate d h q ->
     match bestDiff with Some b => (b <= q)%Q | None => False end) \/
  (exists d h q,
     scanHeadlines entries eventDate best bestDiff = Some h /\
     inWindowOf entries eventDate d h q /\
     match bestDiff with Some b => (q < b)%Q | None => True end /\
     forall d' h' q', inWindowOf entries eventDate d' h' q' -> (q <= q')%Q).
Proof.
  revert best bestDiff.
  induction entries as [|[d0 hs0] rest IH]; intros best bestDiff; simpl.
  { left. split; [done|]. intros d h q Hw. by apply inWindowOf_nil in Hw. }
  assert (forall d h q, inWindowOf ((d0, hs0) :: rest) eventDate d h q ->
            (match hs0 with [] => False | _ => True end /\
             dayDiff d0 eventDate = Some q /\ (q <= 14)%Q) \/
            inWindowOf rest eventDate d h q) as Hsplit.
  { intros d h q Hw. apply inWindowOf_cons in Hw
      as [(-> & [hs ->] & Hd & Hq)|Hw]; [left|right]; done. }
  destruct hs0 as [|h0 hs0].
  { destruct (IH best bestDiff) as [[Hr Hmin]|(d & h & q & Hr & Hw & Hb & Hmin)].
    - left. split; [done|]. intros d h q Hw.
      apply Hsplit in Hw as [[[] _]|Hw]. by apply (Hmin d h q).
    - right. exists d, h, q. split; [done|]. split.
      { apply inWindowOf_cons. by right. }
      split; [done|]. intros d' h' q' Hw'.
      apply Hsplit in Hw' as [[[] _]|Hw']. by apply (Hmin d' h' q'). }
  destruct (dayDiff d0 eventDate) as [diff|] eqn:Ediff.
  2:{ destruct (IH best bestDiff) as [[Hr Hmin]|(d & h & q & Hr & Hw & Hb & Hmin)].
      - left. split; [done|]. intros d h q Hw.
        apply Hsplit in Hw as [(_ & ? & _)|Hw]; [done|]. by apply (Hmin d h q).
      - right. exists d, h, q. split; [done|]. split.
        { apply inWindowOf_cons. by right. }
        split; [done|]. intros d' h' q' Hw'.
        apply Hsplit in Hw' as [(_ & ? & _)|Hw']; [done|].
        by apply (Hmin d' h' q'). }
  destruct (Qle_bool diff maxDays &&
            match bestDiff with Some b => Qltb diff b | None => true end) eqn:Ec.
  - apply andb_true_iff in Ec as [E14 Eb]. apply Qle_bool_iff in E14.
    unfold maxDays in E14.
    assert (match bestDiff with Some b => (diff < b)%Q | None => True end) as Hb0.
    { destruct bestDiff; [by apply Qltb_lt|done]. }
    assert (inWindowOf ((d0, h0 :: hs0) :: rest) eventDate d0 h0 diff) as Hw0.
    { apply inWindowOf_cons. left. eauto. }
    destruct (IH (Some h0) (Some diff))
      as [[Hr Hmin]|(d & h & q & Hr & Hw & Hb & Hmin)].
    + right. exists d0, h0, diff. split; [done|]. split; [done|].
      split; [done|]. intros d' h' q' Hw'.
      apply Hsplit in Hw' as [(_ & [= <-] & _)|Hw']; [lra|].
      by apply (Hmin d' h' q').
    + right. exists d, h, q. split; [done|]. split.
      { apply inWindowOf_cons. by right. }
      split.
      { destruct bestDiff; [lra|done]. }
      intros d' h' q' Hw'.
      apply Hsplit in Hw' as [(_ & [= <-] & _)|Hw']; [lra|].
      by apply (Hmin d' h' q').
  - assert (forall q, Some diff = Some q -> (q <= 14)%Q ->
              match bestDiff with Some b => (b <= q)%Q | None => False end) as Hhead.
    { intros q [= <-] Hq. apply andb_false_iff in Ec as [E14|Eb].
      - exfalso. apply Qle_bool_iff in Hq. unfold maxDays in E14. congruence.
      - destruct bestDiff; [by apply Qltb_ge|done]. }
    destruct (IH best bestDiff) as [[Hr Hmin]|(d & h & q & Hr & Hw & Hb & Hmin)].
    + left. split; [done|]. intros d h q Hw.
      apply Hsplit in Hw as [(_ & Hd & Hq)|Hw]; [by apply Hhead|].
      by apply (Hmin d h q).
    + right. exists d, h, q. split; [done|]. split.
      { apply inWindowOf_cons. by right. }
      split; [done|]. intros d' h' q' Hw'.
      apply Hsplit in Hw' as [(_ & Hd & Hq)|Hw']; [|by apply (Hmin d' h' q')].
      specialize (Hhead q' Hd Hq). destruct bestDiff; [lra|done].
Qed.

(** C5. The headline picked for an event date is the first headline of the
    entry with that very date when there is one; otherwise it is the first
    headline of an entry at most 14 days away and no farther than any other
    such entry; when no entry lies within 14 days there is none, and the
    event is listed all the same, without a headline. *)
Theorem headline_within_window (marketByDate : JsMap.t (list string))
    (eventDate : string) :
  (forall h, getMarketHeadlineForDate marketByDate eventDate = Some h ->
     (exists hs, (eventDate, h :: hs) ∈ marketByDate) \/
     (exists d q, inWindowOf marketByDate eventDate d h q)) /\
  (forall h hs, JsMap.get marketByDate eventDate = Some (h :: hs) ->
     getMarketHeadlineForDate marketByDate eventDate = Some h) /\
  ((JsMap.get marketByDate eventDate = None \/
    JsMap.get marketByDate eventDate = Some []) ->
   (forall h, getMarketHeadlineForDate marketByDate eventDate = Some h ->
      exists d q, inWindowOf marketByDate eventDate d h q /\
        forall d' h' q', inWindowOf marketByDate eventDate d' h' q' ->
          (q <= q')%Q) /\
   (getMarketHeadlineForDate marketByDate eventDate = None <->
    forall d h q, ~ inWindowOf marketByDate eventDate d h q)) /\
  (forall (raw : MonthlyData) c,
     truthyStr (newsSymbol (itemObj c)) = true ->
     getMarketHeadlineForDate marketByDate (c_date c) = None ->
     exists e, gateEvents marketByDate raw [c] = [e] /\
               newsHeadline e = None /\ e_date e = c_date c).
Proof.
  assert ((JsMap.get marketByDate eventDate = None \/
           JsMap.get marketByDate eventDate = Some []) ->
          getMarketHeadlineForDate marketByDate eventDate =
          scanHeadlines marketByDate eventDate None None) as Hscan.
  { unfold getMarketHeadlineForDate. by intros [-> | ->]. }
  assert ((JsMap.get marketByDate eventDate = None \/
    JsMap.get marketByDate eventDate = Some []) ->
   (forall h, getMarketHeadlineForDate marketByDate eventDate = Some h ->
      exists d q, inWindowOf marketByDate eventDate d h q /\
        forall d' h' q', inWindowOf marketByDate eventDate d' h' q' ->
          (q <= q')%Q) /\
   (getMarketHeadlineForDate marketByDate eventDate = None <->
    forall d h q, ~ inWindowOf marketByDate eventDate d h q)) as Hnear.
  { intros Hno. rewrite (Hscan Hno).
    destruct (scanHeadlines_spec marketByDate eventDate None None)
      as [[Hr Hmin]|(d & h & q & Hr & Hw & _ & Hmin)].
    - rewrite Hr. split; [discriminate|]. split; [|done].
      intros _ d h q Hw. by apply (Hmin d h q).
    - rewrite Hr. split.
      + intros h' [= <-]. by exists d, q.
      + split; [discriminate|]. intros Hnone. by destruct (Hnone d h q). }
  split; [|split; [|split]].
  - intros h Hh.
    destruct (JsMap.get marketByDate eventDate) as [[|h0 hs0]|] eqn:Eg.
    + destruct Hnear as [Hn _]; [by right|].
      destruct (Hn h Hh) as (d & q & Hw & _). right. by exists d, q.
    + left. unfold getMarketHeadlineForDate in Hh. rewrite Eg in Hh.
      injection Hh as <-. exists hs0. by apply JsMap_get_elem.
    + destruct Hnear as [Hn _]; [by left|].
      destruct (Hn h Hh) as (d & q & Hw & _). right. by exists d, q.
  - intros h hs Hg. unfold getMarketHeadlineForDate. by rewrite Hg.
  - exact Hnear.
  - intros raw c Ht Hnone. eexists. simpl. rewrite Ht. split; [done|].
    by simpl.
Qed.

End Correlation.

(** ** The scenario 100, 95, 88 *)

(** C6. For closes 100, 95 and 88 on three consecutive days the candidate
    of the third day is a fall of (88-95)/95*100, about -7.37 percent; the
    annotation for that day sees a streak of 2 declines and a cumulative
    change of -12 percent and is the strongest sell advisory. *)
Theorem scenario_100_95_88 (item : Instrument) :
  let changePct := ((88 - 95) / 95 * 100)%Q in
  mkCandidate "2024-03-06" (name item) item changePct FALL
    (describe item changePct) ∈ scanSeries item series_100_95_88 /\
  (Qabs (changePct - -7.37) <= 0.005)%Q /\
  toFixed2 changePct = "-7.37" /\
  consecDownAt (closesOf (sortByDate series_100_95_88)) 2 = 2%nat /\
  (exists q, pctFrom (Fin 88) (Fin 100) = Fin q /\ (q == -12)%Q) /\
  getSellTimingWarning series_100_95_88 "2024-03-06" changePct FALL = W_CRASH /\
  sellDecision FALL changePct 2 (pctFrom (Fin 88) (Fin 100))
    (pctFrom (Fin 88) (Math_max [100; 95; 88]%Q)) = W_CRASH.
Proof.
  intros changePct. split; [|split; [|split; [|split; [|split; [|split]]]]].
  - simpl. right. left.
  - apply Qle_bool_iff. reflexivity.
  - reflexivity.
  - reflexivity.
  - eexists. split; [reflexivity|]. reflexivity.
  - reflexivity.
  - reflexivity.
Qed.

(** ** Effects: frames and totality *)

Lemma keepsStores_refl w : keepsStores w w.
Proof. by repeat split. Qed.

Lemma keepsStores_trans w1 w2 w3 :
  keepsStores w1 w2 -> keepsStores w2 w3 -> keepsStores w1 w3.
Proof.
  unfold keepsStores. intros (? & ? & ? & ? & ?) (? & ? & ? & ? & ?).
  repeat split; congruence.
Qed.

Lemma Preserves_ret {A} (a : A) : Preserves (ret a).
Proof. intros w. apply keepsStores_refl. Qed.

Lemma Preserves_throw {A} e : Preserves (@throw A e).
Proof. intros w. apply keepsStores_refl. Qed.

Lemma Preserves_gets {A} (f : World -> A) : Preserves (gets f).
Proof. intros w. apply keepsStores_refl. Qed.

Lemma Preserves_bind {A B} (c : M A) (k : A -> M B) :
  Preserves c -> (forall a, Preserves (k a)) -> Preserves (bind c k).
Proof.
  intros Hc Hk w. unfold bind. specialize (Hc w).
  destruct (c w) as [[a|e] w1]; simpl in *; [|done].
  eapply keepsStores_trans; [exact Hc|apply Hk].
Qed.

Lemma Preserves_tryCatch {A} (c : M A) (h : string -> M A) :
  Preserves c -> (forall e, Preserves (h e)) -> Preserves (tryCatch c h).
Proof.
  intros Hc Hh w. unfold tryCatch. specialize (Hc w).
  destruct (c w) as [[a|e] w1]; simpl in *; [done|].
  eapply keepsStores_trans; [exact Hc|apply Hh].
Qed.

Lemma Preserves_delay ms : Preserves (delay ms).
Proof. intros w. by repeat split. Qed.

Lemma Total_ret {A} (a : A) : Total (ret a).
Proof. intros w. by exists a, w. Qed.

Lemma Total_gets {A} (f : World -> A) : Total (gets f).
Proof. intros w. by exists (f w), w. Qed.

Lemma Total_modify f : Total (modify f).
Proof. intros w. by exists tt, (f w). Qed.

Lemma Total_bind {A B} (c : M A) (k : A -> M B) :
  Total c -> (forall a, Total (k a)) -> Total (bind c k).
Proof.
  intros Hc Hk w. unfold bind. destruct (Hc w) as (a & w1 & ->). apply Hk.
Qed.

Lemma Total_tryCatch {A} (c : M A) (h : string -> M A) :
  (forall e, Total (h e)) -> Total (tryCatch c h).
Proof.
  intros Hh w. unfold tryCatch. destruct (c w) as [[a|e] w1]; [by eexists _, _|].
  apply Hh.
Qed.

Section Adapter.
Context `{Host}.

Lemma Preserves_cacheSet key data : Preserves (cacheSet key data).
Proof. intros w. by repeat split. Qed.

Lemma Preserves_requestChart req : Preserves (requestChart req).
Proof.
  intros w. unfold requestChart.
  destruct (yahoo req (length (upstream w))) as [res latency].
  by repeat split.
Qed.

Lemma Preserves_chartAttempt req key : Preserves (chartAttempt req key).
Proof.
  unfold chartAttempt. apply Preserves_bind; [apply Preserves_requestChart|].
  intros html. destruct (JSON_parse html) as [json|]; [|apply Preserves_throw].
  destruct (chartSeries json);
    (apply Preserves_bind; [apply Preserves_cacheSet|intros; apply Preserves_ret]).
Qed.

Lemma Preserves_chartRetries req key retries :
  Preserves (chartRetries req key retries).
Proof.
  induction retries as [|retry rest IH]; simpl; [apply Preserves_throw|].
  apply Preserves_tryCatch; [apply Preserves_chartAttempt|].
  intros e. apply Preserves_bind; [apply Preserves_delay|done].
Qed.

Lemma Preserves_fetchChartFromYahoo sym p1 p2 :
  Preserves (fetchChartFromYahoo sym p1 p2).
Proof.
  unfold fetchChartFromYahoo. apply Preserves_bind; [apply Preserves_gets|].
  intros allowed. destruct allowed; cbn [negb]; [|apply Preserves_throw].
  apply Preserves_bind; [apply Preserves_gets|]. intros cached.
  apply Preserves_bind; [apply Preserves_gets|]. intros now.
  destruct cached as [slot|]; [|apply Preserves_chartRetries].
  destruct (now <? slot_expires slot)%Z;
    [apply Preserves_ret|apply Preserves_chartRetries].
Qed.

Lemma batchStep_cases item start end_ (results : MonthlyData) failed w :
  (exists series w',
     fetchChartFromYahoo (symbol item) start end_ w = (Returned series, w') /\
     batchStep item start end_ results failed w =
       (Returned (<[id item := series]> results, failed), w')) \/
  (exists err w',
     fetchChartFromYahoo (symbol item) start end_ w = (Thrown err, w') /\
     batchStep item start end_ results failed w =
       (Returned (<[id item := []]> results,
                  (failed ++ [mkFailure (name item) err])%list), w')).
Proof.
  unfold batchStep, tryCatch, bind, ret.
  destruct (fetchChartFromYahoo (symbol item) start end_ w) as [[series|err] w'].
  - left. by exists series, w'.
  - right. by exists err, w'.
Qed.

Lemma fetchAllLoop_cons item rest start end_ (results : MonthlyData) failed w :
  fetchAllLoop (item :: rest) start end_ results failed w =
  match batchStep item start end_ results failed w with
  | (Returned step, w1) =>
      fetchAllLoop rest start end_ (fst step) (snd step)
        (setClock (clock w1 + 500)%Z w1)
  | (Thrown e, w1) => (Thrown e, w1)
  end.
Proof.
  simpl. unfold bind at 1.
  destruct (batchStep item start end_ results failed w) as [[step|e] w1]; done.
Qed.

Lemma Preserves_fetchAllLoop todo start end_ results failed :
  Preserves (fetchAllLoop todo start end_ results failed).
Proof.
  revert results failed. induction todo as [|item rest IH]; intros results failed.
  { apply Preserves_ret. }
  simpl. apply Preserves_bind.
  - unfold batchStep. apply Preserves_tryCatch.
    + apply Preserves_bind; [apply Preserves_fetchChartFromYahoo|].
      intros; apply Preserves_ret.
    + intros; apply Preserves_ret.
  - intros step. apply Preserves_bind; [apply Preserves_delay|]. intros _. apply IH.
Qed.

Lemma Total_fetchAllLoop todo start end_ results failed :
  Total (fetchAllLoop todo start end_ results failed).
Proof.
  revert results failed. induction todo as [|item rest IH]; intros results failed.
  { apply Total_ret. }
  simpl. apply Total_bind.
  - unfold batchStep. apply Total_tryCatch. intros; apply Total_ret.
  - intros step. apply Total_bind; [apply Total_modify|]. intros _. apply IH.
Qed.

End Adapter.

(** ** The period logic *)

Section Period.
Context `{Host}.

Lemma getMonthlyData_hit w year month data :
  getCachedMonthly w year month = Some data ->
  getMonthlyData year month false w = (Returned (data, []), w).
Proof.
  intros Hc. unfold getMonthlyData, bind, gets, ret. by rewrite Hc.
Qed.

Lemma windowed_lookup monthStart monthEnd (raw : MonthlyData) k :
  raw !! k = Some [] -> windowed monthStart monthEnd raw !! k = Some [].
Proof. intros Hk. unfold windowed. by rewrite lookup_fmap, Hk. Qed.

Lemma windowed_dom monthStart monthEnd (raw : MonthlyData) k :
  is_Some (windowed monthStart monthEnd raw !! k) <-> is_Some (raw !! k).
Proof. unfold windowed. rewrite lookup_fmap. apply fmap_is_Some. Qed.

(** The path that fetches: what is returned is what is stored, and only the
    clock, the response cache, the request log and the snapshot store
    move. *)
Lemma getMonthlyData_fetch w year month force :
  getCachedMonthly w year month = None \/ force = true ->
  exists rangeEnd monthStart monthEnd raw failed w1 w2,
    fetchAllHistorical (effectiveItems items (symbolOverrides w))
      (localDate year (month - 1) 1) rangeEnd w = (Returned (raw, failed), w1) /\
    let results := windowed monthStart monthEnd raw in
    let toSave :=
      match getCachedMonthly w year month, force with
      | Some data, true => mergeMonthlyData data results
      | _, _ => results
      end in
    getMonthlyData year month force w = (Returned (toSave, failed), w2) /\
    dailyFileCache w2 =
      <[getPeriodKey year month := mkSnapshot year month (Some toSave) (clock w1)]>
        (dailyFileCache w) /\
    symbolOverrides w2 = symbolOverrides w /\
    newsCache w2 = newsCache w /\
    upstream w2 = upstream w1 /\
    clock w2 = clock w1 /\
    cache w2 = cache w1 /\
    cacheSaveScheduled w2 = true.
Proof.
  intros Hmiss.
  pose (rangeEnd := if isCurrentMonthAt (clock w) year month then Some (clock w)
                    else localDate year month 0).
  destruct (Total_fetchAllLoop (effectiveItems items (symbolOverrides w))
              (localDate year (month - 1) 1) rangeEnd ∅ [] w)
    as ([raw failed] & w1 & Hfetch).
  pose proof (Preserves_fetchAllLoop (effectiveItems items (symbolOverrides w))
                (localDate year (month - 1) 1) rangeEnd ∅ [] w) as Hkeep.
  rewrite Hfetch in Hkeep. simpl in Hkeep.
  destruct Hkeep as (Ho & Hn & Hd & Hs & Hf).
  exists rangeEnd, (formatYMD (localDate year (month - 1) 1)),
    (formatYMD rangeEnd), raw, failed, w1.
  subst rangeEnd.
  unfold getMonthlyData, getEffectiveItems, fetchAllHistorical, putSnapshot,
    scheduleSaveDailyCache, getMonthRange in *.
  unfold bind, gets, modify, ret. cbn [fst snd].
  destruct (getCachedMonthly w year month) as [data|] eqn:Ec, force;
    try (by destruct Hmiss as [?|?]);
    rewrite Hfetch; cbn [fst snd];
    (eexists; split; [reflexivity|]; cbn zeta; split; [reflexivity|]);
    cbn [dailyFileCache symbolOverrides newsCache upstream clock cache
         cacheSaveScheduled setDailyFileCache setCacheSaveScheduled];
    destruct (cacheSaveScheduled w1) eqn:Es;
    cbn [dailyFileCache symbolOverrides newsCache upstream clock cache
         cacheSaveScheduled setDailyFileCache setCacheSaveScheduled];
    rewrite ?Hd; repeat split; done.
Qed.

End Period.

(** ** The batch loop *)

Section Batch.
Context `{Host}.

Lemma fetchAllLoop_app l1 l2 start end_ (results : MonthlyData) failed w :
  fetchAllLoop (l1 ++ l2) start end_ results failed w =
  match fetchAllLoop l1 start end_ results failed w with
  | (Returned rf, w1) => fetchAllLoop l2 start end_ (fst rf) (snd rf) w1
  | (Thrown e, w1) => (Thrown e, w1)
  end.
Proof.
  revert results failed w. induction l1 as [|item l1 IH]; intros results failed w.
  { done. }
  rewrite <- app_comm_cons, !fetchAllLoop_cons.
  destruct (batchStep item start end_ results failed w) as [[step|e] w1]; [|done].
  apply IH.
Qed.

Lemma fetchAllLoop_results todo start end_ (results : MonthlyData) failed w r f w' :
  fetchAllLoop todo start end_ results failed w = (Returned (r, f), w') ->
  (exists extra, f = (failed ++ extra)%list /\ (length extra <= length todo)%nat) /\
  (forall k, k ∉ map id todo -> r !! k = results !! k) /\
  (forall item, item ∈ todo -> is_Some (r !! id item)) /\
  (length f = (length failed + length todo)%nat ->
   forall item, item ∈ todo -> r !! id item = Some []).
Proof.
  revert results failed w.
  induction todo as [|item rest IH]; intros results failed w Hrun.
  { injection Hrun as <- <- <-. split; [exists []; by rewrite app_nil_r|].
    split; [done|]. split; intros; exfalso; eapply elem_of_nil; eauto. }
  rewrite fetchAllLoop_cons in Hrun.
  destruct (batchStep_cases item start end_ results failed w)
    as [(series & w1 & _ & Hstep)|(err & w1 & _ & Hstep)];
    rewrite Hstep in Hrun; cbn [fst snd] in Hrun;
    apply IH in Hrun as ((extra & -> & Hlen) & Hkeys & Hsome & Hcount).
  - split; [exists extra; split; [done|simpl; lia]|].
    split; [|split].
    + intros k Hk. simpl in Hk. apply not_elem_of_cons in Hk as [Hne Hk].
      rewrite (Hkeys k Hk). by rewrite lookup_insert_ne.
    + intros item' Hin. apply elem_of_cons in Hin as [->|Hin]; [|by apply Hsome].
      destruct (decide (id item ∈ map id rest)) as [Hdup|Hnew].
      * apply list_elem_of_fmap in Hdup as (item'' & -> & Hin'). by apply Hsome.
      * rewrite (Hkeys _ Hnew), lookup_insert_eq. by eexists.
    + rewrite length_app. simpl. lia.
  - split; [exists (mkFailure (name item) err :: extra); split;
            [by rewrite <- app_assoc|simpl; lia]|].
    split; [|split].
    + intros k Hk. simpl in Hk. apply not_elem_of_cons in Hk as [Hne Hk].
      rewrite (Hkeys k Hk). by rewrite lookup_insert_ne.
    + intros item' Hin. apply elem_of_cons in Hin as [->|Hin]; [|by apply Hsome].
      destruct (decide (id item ∈ map id rest)) as [Hdup|Hnew].
      * apply list_elem_of_fmap in Hdup as (item'' & -> & Hin'). by apply Hsome.
      * rewrite (Hkeys _ Hnew), lookup_insert_eq. by eexists.
    + intros Hall item' Hin.
      assert (length ((failed ++ [mkFailure (name item) err]) ++ extra) =
              (length (failed ++ [mkFailure (name item) err]) + length rest)%nat)
        as Hall'.
      { rewrite !length_app in *. simpl in *. lia. }
      specialize (Hcount Hall').
      apply elem_of_cons in Hin as [->|Hin]; [|by apply Hcount].
      destruct (decide (id item ∈ map id rest)) as [Hdup|Hnew].
      * apply list_elem_of_fmap in Hdup as (item'' & -> & Hin'). by apply Hcount.
      * by rewrite (Hkeys _ Hnew), lookup_insert_eq.
Qed.

End Batch.

(** ** Cache hits and first fetches *)

Section Snapshots.
Context `{Host}.

Lemma getCachedMonthly_insert w w' year month data stamp :
  dailyFileCache w' =
    <[getPeriodKey year month := mkSnapshot year month (Some data) stamp]>
      (dailyFileCache w) ->
  getCachedMonthly w' year month = Some data.
Proof.
  intros Hd. unfold getCachedMonthly. by rewrite Hd, lookup_insert_eq.
Qed.

(** C7. When the store holds a snapshot of the period, a call without
    refresh returns its data and no failure and leaves the whole state as
    it was: no request goes upstream and no cache changes.  Hence, after
    any completed call, a second call with the same arguments returns the
    same data from the store and sends nothing upstream. *)
Theorem cache_hit_is_silent (year month : Z) :
  (forall w data,
     getCachedMonthly w year month = Some data ->
     getMonthlyData year month false w = (Returned (data, []), w) /\
     upstream (snd (getMonthlyData year month false w)) = upstream w /\
     dailyFileCache (snd (getMonthlyData year month false w)) = dailyFileCache w /\
     cache (snd (getMonthlyData year month false w)) = cache w) /\
  (forall w r w1,
     getMonthlyData year month false w = (r, w1) ->
     exists data failed,
       r = Returned (data, failed) /\
       getMonthlyData year month false w1 = (Returned (data, []), w1)) /\
  (forall w data yearParam monthParam,
     validateYearMonth yearParam monthParam = Some (year, month) ->
     getCachedMonthly w year month = Some data ->
     apiDaily yearParam monthParam w =
       (Returned (DailyResponse year month data
                    (effectiveItems items (symbolOverrides w)) None), w)).
Proof.
  split; [|split].
  - intros w data Hc. rewrite (getMonthlyData_hit w year month data Hc). done.
  - intros w r w1 Hrun.
    destruct (getCachedMonthly w year month) as [data|] eqn:Ec.
    + rewrite (getMonthlyData_hit w year month data Ec) in Hrun.
      injection Hrun as <- <-. exists data, [].
      split; [done|]. by apply getMonthlyData_hit.
    + destruct (getMonthlyData_fetch w year month false)
        as (rangeEnd & monthStart & monthEnd & raw & failed & w1' & w2 & _ &
            Hget & Hd & _); [by left|].
      cbn zeta in Hget, Hd. rewrite Ec in Hget, Hd. rewrite Hget in Hrun.
      injection Hrun as <- <-. eexists _, failed. split; [done|].
      apply getMonthlyData_hit. by eapply getCachedMonthly_insert.
  - intros w data yearParam monthParam Hv Hc.
    unfold apiDaily, tryCatch, bind. rewrite Hv.
    by rewrite (getMonthlyData_hit w year month data Hc).
Qed.

(** C10. Without a snapshot of the period, a call fetches, always returns,
    and leaves a snapshot of what it returns in the store, with a series
    for every instrument.  When the failure list has one entry per
    instrument, every stored series is empty.  The next call without
    refresh returns that stored data with no failure and changes nothing:
    nothing is fetched again. *)
Theorem first_fetch_writes_snapshot (w : World) (year month : Z) :
  getCachedMonthly w year month = None ->
  exists data failed w1,
    getMonthlyData year month false w = (Returned (data, failed), w1) /\
    getCachedMonthly w1 year month = Some data /\
    (forall item, item ∈ effectiveItems items (symbolOverrides w) ->
       is_Some (data !! id item)) /\
    (length failed = length (effectiveItems items (symbolOverrides w)) ->
     forall item, item ∈ effectiveItems items (symbolOverrides w) ->
       data !! id item = Some []) /\
    getMonthlyData year month false w1 = (Returned (data, []), w1) /\
    upstream (snd (getMonthlyData year month false w1)) = upstream w1.
Proof.
  intros Ec.
  destruct (getMonthlyData_fetch w year month false)
    as (rangeEnd & monthStart & monthEnd & raw & failed & w1 & w2 & Hfetch &
        Hget & Hd & _); [by left|].
  cbn zeta in Hget, Hd. rewrite Ec in Hget, Hd.
  unfold fetchAllHistorical in Hfetch.
  apply fetchAllLoop_results in Hfetch as (_ & _ & Hsome & Hcount).
  exists (windowed monthStart monthEnd raw), failed, w2.
  assert (getCachedMonthly w2 year month = Some (windowed monthStart monthEnd raw))
    as Hc2 by by eapply getCachedMonthly_insert.
  split; [done|]. split; [done|]. split; [|split; [|split]].
  - intros item Hin. apply windowed_dom. by apply Hsome.
  - intros Hall item Hin. apply windowed_lookup. by apply Hcount.
  - by apply getMonthlyData_hit.
  - by rewrite (getMonthlyData_hit _ _ _ _ Hc2).
Qed.

End Snapshots.

(** ** One failing fetch in a batch *)

Lemma append_same_length_inj (s1 s2 t1 t2 : string) :
  String.length s1 = String.length s2 ->
  (s1 ++ t1 = s2 ++ t2)%string -> s1 = s2.
Proof.
  revert s2. induction s1 as [|c s1 IH]; intros [|c' s2]; simpl; try done.
  intros [= Hlen] [= -> Happ]. f_equal. by apply IH.
Qed.

Lemma length_append (s t : string) :
  String.length (s ++ t) = (String.length s + String.length t)%nat.
Proof. induction s as [|c s IH]; simpl; [done|]. by rewrite IH. Qed.

Lemma getCacheKey_inj sym1 sym2 p1 p2 :
  getCacheKey sym1 p1 p2 = getCacheKey sym2 p1 p2 -> sym1 = sym2.
Proof.
  unfold getCacheKey. intros Heq.
  apply (append_same_length_inj _ _ _ _) in Heq; [done|].
  apply (f_equal String.length) in Heq. rewrite !length_append in Heq. lia.
Qed.

Section OneFailure.
Context `{Host}.

Lemma settle_empty : settle (Response 200 "") = Returned "".
Proof. reflexivity. Qed.

Lemma yields_distinct sym1 sym2 :
  JSON_parse "" = None -> yieldsEmptyResponse sym1 -> yieldsChart sym2 ->
  sym1 <> sym2.
Proof.
  intros Hparse Hempty Hchart ->.
  destruct (Hchart None None O) as (body & json & Hs & Hj).
  rewrite Hempty, settle_empty in Hs. injection Hs as <-. congruence.
Qed.

Lemma effective_allowed overrides item :
  item ∈ effectiveItems items overrides ->
  isSymbolAllowed overrides (symbol item) = true.
Proof.
  intros Hin. unfold isSymbolAllowed. apply existsb_exists.
  exists item. split; [by apply list_elem_of_In|apply String.eqb_refl].
Qed.

Lemma chartAttempt_empty req key w :
  fst (yahoo req (length (upstream w))) = Response 200 "" ->
  JSON_parse "" = None ->
  exists w',
    chartAttempt req key w = (Thrown "잘못된 응답 형식", w') /\
    cache w' = cache w /\
    upstream w' = (upstream w ++ [ChartRequest req])%list.
Proof.
  intros Hres Hparse. unfold chartAttempt, bind, requestChart.
  destruct (yahoo req (length (upstream w))) as [res latency].
  simpl in Hres. subst res. rewrite settle_empty, Hparse.
  eexists. split; [reflexivity|]. done.
Qed.

Lemma chartRetries_empty req key retries w :
  (forall n, fst (yahoo req n) = Response 200 "") ->
  JSON_parse "" = None ->
  exists w',
    chartRetries req key retries w = (Thrown "데이터 조회 실패", w') /\
    cache w' = cache w /\
    length (upstream w') = (length (upstream w) + length retries)%nat.
Proof.
  intros Hres Hparse. revert w.
  induction retries as [|retry rest IH]; intros w; simpl.
  { exists w. split; [done|]. split; [done|lia]. }
  unfold tryCatch.
  destruct (chartAttempt_empty req key w (Hres _) Hparse) as (w1 & -> & Hc & Hu).
  unfold bind, delay, modify.
  destruct (IH (setClock (clock w1 + (retry + 1) * 2000)%Z w1))
    as (w2 & -> & Hc2 & Hu2).
  exists w2. split; [done|]. split; [by rewrite Hc2|].
  rewrite Hu2. simpl. rewrite Hu, length_app. simpl. lia.
Qed.

(** A symbol whose every answer is an empty body: the three attempts are
    spent and the fetch throws. *)
Lemma fetch_empty_fails sym start end_ w :
  JSON_parse "" = None -> yieldsEmptyResponse sym ->
  isSymbolAllowed (symbolOverrides w) sym = true ->
  cache w !! getCacheKey sym (formatYMD start) (formatYMD end_) = None ->
  exists w',
    fetchChartFromYahoo sym start end_ w = (Thrown "데이터 조회 실패", w') /\
    cache w' = cache w /\
    length (upstream w') = (length (upstream w) + 3)%nat.
Proof.
  intros Hparse Hempty Hallowed Hcache.
  unfold fetchChartFromYahoo, bind, gets. rewrite Hallowed.
  cbn [negb]. cbv beta iota zeta. rewrite Hcache.
  apply chartRetries_empty; [|done]. intros n. apply Hempty.
Qed.

Lemma chartAttempt_chart req key w :
  (exists body json,
     settle (fst (yahoo req (length (upstream w)))) = Returned body /\
     JSON_parse body = Some json) ->
  exists series w',
    chartAttempt req key w = (Returned series, w') /\
    forall k, k <> key -> cache w' !! k = cache w !! k.
Proof.
  intros (body & json & Hs & Hj). unfold chartAttempt, bind, requestChart.
  destruct (yahoo req (length (upstream w))) as [res latency].
  simpl in Hs. rewrite Hs, Hj.
  destruct (chartSeries json) as [series|];
    (eexists _, _; split; [reflexivity|]);
    intros k Hk; simpl; by rewrite lookup_insert_ne.
Qed.

Lemma fetch_chart_succeeds sym start end_ w :
  yieldsChart sym -> isSymbolAllowed (symbolOverrides w) sym = true ->
  exists series w',
    fetchChartFromYahoo sym start end_ w = (Returned series, w') /\
    forall k, k <> getCacheKey sym (formatYMD start) (formatYMD end_) ->
      cache w' !! k = cache w !! k.
Proof.
  intros Hchart Hallowed.
  unfold fetchChartFromYahoo, bind, gets. rewrite Hallowed. cbn [negb].
  cbv beta iota zeta.
  assert (forall req, y_symbol req = sym ->
            exists series w',
              chartRetries req (getCacheKey sym (formatYMD start) (formatYMD end_))
                [0; 1; 2]%Z w = (Returned series, w') /\
              forall k, k <> getCacheKey sym (formatYMD start) (formatYMD end_) ->
                cache w' !! k = cache w !! k) as Hretry.
  { intros [s t1 t2] Hs. simpl in Hs. subst s. cbn [chartRetries]. unfold tryCatch.
    destruct (chartAttempt_chart (mkYahooRequest sym t1 t2)
                (getCacheKey sym (formatYMD start) (formatYMD end_)) w)
      as (series & w' & -> & Hk); [apply Hchart|].
    by exists series, w'. }
  destruct (cache w !! getCacheKey sym (formatYMD start) (formatYMD end_))
    as [slot|]; [|by apply Hretry].
  destruct (clock w <? slot_expires slot)%Z; [|by apply Hretry].
  by exists (slot_data slot), w.
Qed.

(** A run of the loop over instruments that all answer: no failure is
    added, and the response cache moves only under their own keys. *)
Lemma fetchAllLoop_succeed todo start end_ (results : MonthlyData) failed w :
  (forall item, item ∈ todo -> yieldsChart (symbol item)) ->
  (forall item, item ∈ todo ->
     isSymbolAllowed (symbolOverrides w) (symbol item) = true) ->
  exists r w',
    fetchAllLoop todo start end_ results failed w = (Returned (r, failed), w') /\
    symbolOverrides w' = symbolOverrides w /\
    (forall k, k ∉ map id todo -> r !! k = results !! k) /\
    (forall key,
       (forall item, item ∈ todo ->
          key <> getCacheKey (symbol item) (formatYMD start) (formatYMD end_)) ->
       cache w' !! key = cache w !! key).
Proof.
  revert results w. induction todo as [|item rest IH]; intros results w Hc Ha.
  { exists results, w. by repeat split. }
  rewrite fetchAllLoop_cons.
  destruct (fetch_chart_succeeds (symbol item) start end_ w)
    as (series & w1 & Hfetch & Hcache); [apply Hc; by left|apply Ha; by left|].
  destruct (batchStep_cases item start end_ results failed w)
    as [(series' & w1' & Hf' & ->)|(err & w1' & Hf' & _)];
    [|rewrite Hfetch in Hf'; discriminate].
  rewrite Hfetch in Hf'. injection Hf' as <- <-. cbn [fst snd].
  pose proof (Preserves_fetchChartFromYahoo (symbol item) start end_ w) as Hkeep.
  rewrite Hfetch in Hkeep. destruct Hkeep as (Ho & _). simpl in Ho.
  destruct (IH (<[id item := series]> results) (setClock (clock w1 + 500)%Z w1))
    as (r & w' & -> & Ho' & Hkeys & Hcache').
  { intros item' Hin. apply Hc. by right. }
  { intros item' Hin. simpl. rewrite Ho. apply Ha. by right. }
  exists r, w'. split; [done|]. split; [by rewrite Ho'|]. split.
  - intros k Hk. simpl in Hk. apply not_elem_of_cons in Hk as [Hne Hk].
    rewrite (Hkeys k Hk). by rewrite lookup_insert_ne.
  - intros key Hkey. rewrite Hcache'.
    + simpl. apply Hcache. apply Hkey. by left.
    + intros item' Hin. apply Hkey. by right.
Qed.

End OneFailure.

Local Open Scope list_scope.

Lemma items_ids_NoDup : NoDup (map id items).
Proof. by compute_done. Qed.

Lemma effectiveItems_ids base overrides :
  map id (effectiveItems base overrides) = map id base.
Proof.
  unfold effectiveItems. rewrite map_map. apply map_ext. intros item.
  unfold applyOverride. destruct (overrides !! id item) as [o|]; [|done].
  by destruct (nonEmpty (o_symbol o)).
Qed.

Section EmptyResponse.
Context `{Host}.

(** C9. In a batch where the provider answers one instrument with an empty
    body on every attempt and answers every other instrument with a body
    that parses, the batch runs to its end: every instrument has a series,
    the one of the failing instrument is empty, and the failure list is the
    single entry that names it with its reason.  Through the daily route
    the response is a success that carries this data and this failure. *)
Theorem batch_one_empty_response (w : World) (before after : list Instrument)
    (bad : Instrument) :
  JSON_parse "" = None ->
  yieldsEmptyResponse (symbol bad) ->
  (forall item, item ∈ before ++ after -> yieldsChart (symbol item)) ->
  (forall p1 p2, cache w !! getCacheKey (symbol bad) p1 p2 = None) ->
  (forall start end_,
     (forall item, item ∈ before ++ bad :: after ->
        isSymbolAllowed (symbolOverrides w) (symbol item) = true) ->
     id bad ∉ map id after ->
     exists results w',
       fetchAllHistorical (before ++ bad :: after) start end_ w =
         (Returned (results, [mkFailure (name bad) "데이터 조회 실패"]), w') /\
       results !! id bad = Some [] /\
       (forall item, item ∈ before ++ bad :: after ->
          is_Some (results !! id item))) /\
  (forall yearParam monthParam year month,
     validateYearMonth yearParam monthParam = Some (year, month) ->
     getCachedMonthly w year month = None ->
     effectiveItems items (symbolOverrides w) = (before ++ bad :: after)%list ->
     exists data w',
       apiDaily yearParam monthParam w =
         (Returned (DailyResponse year month data (before ++ bad :: after)
                      (Some [mkFailure (name bad) "데이터 조회 실패"])), w') /\
       success (DailyResponse year month data (before ++ bad :: after)
                  (Some [mkFailure (name bad) "데이터 조회 실패"])) = true /\
       data !! id bad = Some [] /\
       (forall item, item ∈ before ++ bad :: after -> is_Some (data !! id item))).
Proof.
  intros Hparse Hempty Hchart Hnocache.
  assert (forall start end_,
     (forall item, item ∈ before ++ bad :: after ->
        isSymbolAllowed (symbolOverrides w) (symbol item) = true) ->
     id bad ∉ map id after ->
     exists results w',
       fetchAllHistorical (before ++ bad :: after) start end_ w =
         (Returned (results, [mkFailure (name bad) "데이터 조회 실패"]), w') /\
       results !! id bad = Some [] /\
       (forall item, item ∈ before ++ bad :: after ->
          is_Some (results !! id item))) as Hbatch.
  { intros start end_ Hallowed Hid.
    unfold fetchAllHistorical. rewrite fetchAllLoop_app.
    destruct (fetchAllLoop_succeed before start end_ ∅ [] w)
      as (r1 & w1 & Hrun1 & Ho1 & _ & Hcache1).
    { intros item Hin. apply Hchart. apply elem_of_app. by left. }
    { intros item Hin. apply Hallowed. apply elem_of_app. by left. }
    rewrite Hrun1. cbn [fst snd]. rewrite fetchAllLoop_cons.
    destruct (fetch_empty_fails (symbol bad) start end_ w1)
      as (w2 & Hfail & Hcache2 & _); try done.
    { rewrite Ho1. apply Hallowed. apply elem_of_app. right. by left. }
    { rewrite Hcache1; [apply Hnocache|]. intros item Hin Heq.
      apply getCacheKey_inj in Heq.
      apply (yields_distinct (symbol bad) (symbol item)); try done.
      apply Hchart. apply elem_of_app. by left. }
    destruct (batchStep_cases bad start end_ r1 [] w1)
      as [(series & w2' & Hf' & _)|(err & w2' & Hf' & ->)];
      [rewrite Hfail in Hf'; discriminate|].
    rewrite Hfail in Hf'. injection Hf' as <- <-. cbn [fst snd app].
    pose proof (Preserves_fetchChartFromYahoo (symbol bad) start end_ w1) as Hkeep.
    rewrite Hfail in Hkeep. destruct Hkeep as (Ho2 & _). simpl in Ho2.
    destruct (fetchAllLoop_succeed after start end_ (<[id bad := []]> r1)
                [mkFailure (name bad) "데이터 조회 실패"]
                (setClock (clock w2 + 500)%Z w2))
      as (r3 & w3 & Hrun3 & _ & Hkeys3 & _).
    { intros item Hin. apply Hchart. apply elem_of_app. by right. }
    { intros item Hin. simpl. rewrite Ho2, Ho1. apply Hallowed.
      apply elem_of_app. right. by right. }
    exists r3, w3. split; [exact Hrun3|]. split.
    - rewrite (Hkeys3 _ Hid). by rewrite lookup_insert_eq.
    - pose proof Hrun1 as Hres1. pose proof Hrun3 as Hres3.
      apply fetchAllLoop_results in Hres1 as (_ & _ & Hsome1 & _).
      apply fetchAllLoop_results in Hres3 as (_ & Hkeep3 & Hsome3 & _).
      intros item Hin. apply elem_of_app in Hin as [Hin|Hin].
      + destruct (decide (id item ∈ map id after)) as [Hdup|Hnew].
        * apply list_elem_of_fmap in Hdup as (item' & -> & Hin'). by apply Hsome3.
        * rewrite (Hkeep3 _ Hnew).
          destruct (decide (id bad = id item)) as [->|Hne].
          -- rewrite lookup_insert_eq. by eexists.
          -- rewrite lookup_insert_ne by done. by apply Hsome1.
      + apply elem_of_cons in Hin as [->|Hin]; [|by apply Hsome3].
        rewrite (Hkeep3 _ Hid), lookup_insert_eq. by eexists. }
  split; [exact Hbatch|].
  intros yearParam monthParam year month Hvalid Hmiss Heff.
  destruct (getMonthlyData_fetch w year month false)
    as (rangeEnd & monthStart & monthEnd & raw & failed & w1 & w2 & Hfetch &
        Hget & _ & Ho & _); [by left|].
  cbn zeta in Hget. rewrite Hmiss in Hget. rewrite Heff in Hfetch.
  destruct (Hbatch (localDate year (month - 1) 1) rangeEnd)
    as (results & w' & Hrun & Hbad & Hsome).
  { intros item Hin. apply effective_allowed. by rewrite Heff. }
  { pose proof items_ids_NoDup as Hnd.
    rewrite <- (effectiveItems_ids items (symbolOverrides w)), Heff in Hnd.
    rewrite map_app in Hnd. apply NoDup_app in Hnd as (_ & _ & Hnd).
    simpl in Hnd. by apply NoDup_cons in Hnd as [? _]. }
  rewrite Hrun in Hfetch. injection Hfetch as <- <- <-.
  exists (windowed monthStart monthEnd results), w2.
  split; [|split; [done|split]].
  - unfold apiDaily, tryCatch, bind. rewrite Hvalid, Hget.
    unfold getEffectiveItems, gets, ret. cbn [fst snd failedField].
    by rewrite Ho, Heff.
  - by apply windowed_lookup.
  - intros item Hin. apply windowed_dom. by apply Hsome.
Qed.

End EmptyResponse.

(** ** No news key *)

Section NoKey.
Context `{Host}.

Lemma getMonthlyData_returns w year month force :
  exists data failed w',
    getMonthlyData year month force w = (Returned (data, failed), w') /\
    symbolOverrides w' = symbolOverrides w /\
    newsCache w' = newsCache w.
Proof.
  destruct (getCachedMonthly w year month) as [data|] eqn:Ec, force.
  - destruct (getMonthlyData_fetch w year month true)
      as (? & ? & ? & ? & failed & ? & w2 & _ & Hget & _ & Ho & Hn & _);
      [by right|].
    eexists _, failed, w2. split; [exact Hget|done].
  - exists data, [], w. split; [by apply getMonthlyData_hit|done].
  - destruct (getMonthlyData_fetch w year month true)
      as (? & ? & ? & ? & failed & ? & w2 & _ & Hget & _ & Ho & Hn & _);
      [by right|].
    eexists _, failed, w2. split; [exact Hget|done].
  - destruct (getMonthlyData_fetch w year month false)
      as (? & ? & ? & ? & failed & ? & w2 & _ & Hget & _ & Ho & Hn & _);
      [by left|].
    eexists _, failed, w2. split; [exact Hget|done].
Qed.






End NoKey.


(** ** Remarks on the edges of the claims *)

(** A series of an id that only the fresh map has is sorted but keeps two
    records of one date, while a series that is merged keeps the later one:
    this is why the algebraic laws of the merge are stated for series with
    one record per date. *)
Lemma merge_new_id_keeps_same_date_records :
  let twice := [day "2024-03-04" 100; day "2024-03-04" 101] in
  mergeMonthlyData ∅ {["apple" := twice]} !! "apple" = Some twice /\
  mergeMonthlyData {["apple" := twice]} ∅ !! "apple" =
    Some [day "2024-03-04" 101].
Proof. split; reflexivity. Qed.

Section Routes.
Context `{Host}.

(** A body that parses but holds no series is no failure: the fetch returns
    the empty series. *)
Lemma fetch_without_series_returns_empty sym start end_ w :
  (forall t1 t2 n, exists body json,
     settle (fst (yahoo (mkYahooRequest sym t1 t2) n)) = Returned body /\
     JSON_parse body = Some json /\ chartSeries json = None) ->
  isSymbolAllowed (symbolOverrides w) sym = true ->
  cache w !! getCacheKey sym (formatYMD start) (formatYMD end_) = None ->
  exists w', fetchChartFromYahoo sym start end_ w = (Returned [], w').
Proof.
  intros Hbody Hallowed Hcache.
  unfold fetchChartFromYahoo, bind, gets. rewrite Hallowed.
  cbn [negb]. cbv beta iota zeta. rewrite Hcache.
  cbn [chartRetries]. unfold tryCatch, chartAttempt, bind, requestChart.
  match goal with
  | |- context [yahoo (mkYahooRequest sym ?t1 ?t2) ?n] =>
      destruct (Hbody t1 t2 n) as (body & json & Hs & Hj & Hc);
      destruct (yahoo (mkYahooRequest sym t1 t2) n) as [res latency]
  end.
  simpl in Hs. rewrite Hs, Hj, Hc. by eexists.
Qed.

Lemma Total_tryMarketNews path fromDate toDateCapped allNews :
  Total (tryMarketNews path fromDate toDateCapped allNews).
Proof. apply Total_tryCatch. intros; apply Total_ret. Qed.

Lemma Total_bellwetherNews symbols fromTs toTs allNews :
  Total (bellwetherNews symbols fromTs toTs allNews).
Proof.
  revert allNews. induction symbols as [|sym rest IH]; intros allNews; simpl.
  { apply Total_ret. }
  apply Total_bind; [|intros; apply IH].
  apply Total_tryCatch. intros; apply Total_ret.
Qed.

Lemma Total_fetchMarketNews fromDate toDate skipCache :
  Total (fetchMarketNews fromDate toDate skipCache).
Proof.
  unfold fetchMarketNews. apply Total_bind; [apply Total_gets|].
  intros [data|]; [apply Total_ret|].
  destruct (truthyStr FINNHUB_API_KEY); cbn [negb]; [|apply Total_ret].
  apply Total_bind.
  { apply Total_bind; [apply Total_gets|intros; apply Total_ret]. }
  intros toDateCapped. apply Total_bind; [apply Total_tryMarketNews|].
  intros news1. apply Total_bind.
  { destruct news1; [apply Total_tryMarketNews|apply Total_ret]. }
  intros news2. apply Total_bind.
  { destruct news2; [apply Total_bellwetherNews|apply Total_ret]. }
  intros news3. apply Total_bind; [apply Total_modify|intros; apply Total_ret].
Qed.

(** The event route answers every valid period with a success whose events
    are those detected on the data of the period and the news fetched. *)
Lemma apiEvents_succeeds yearParam monthParam refresh year month w :
  validateYearMonth yearParam monthParam = Some (year, month) ->
  exists raw failed marketNews w',
    apiEvents yearParam monthParam refresh w =
      (Returned (EventsResponse year month
                   (detectEvents (effectiveItems items (symbolOverrides w))
                      raw marketNews)
                   (failedField failed) false), w').
Proof.
  intros Hvalid.
  set (forceRefresh := match refresh with
                       | Some r => String.eqb r "1"
                       | None => false
                       end).
  destruct (getMonthlyData_returns w year month forceRefresh)
    as (raw & failed & w1 & Hget & Ho & _).
  destruct (Total_fetchMarketNews
              (formatYMD (localDate year (month - 1) 1))
              (formatYMD (localDate year month 0)) forceRefresh w1)
    as (marketNews & w2 & Hnews).
  exists raw, failed, marketNews, w2.
  unfold apiEvents, tryCatch, bind, getMonthRange. rewrite Hvalid.
  fold forceRefresh.
  rewrite Hget. unfold getEffectiveItems, gets. cbn [fst snd].
  rewrite Hnews, Ho. done.
Qed.

(** An invalid period is refused before anything is fetched. *)
Lemma apiEvents_invalid yearParam monthParam refresh w :
  validateYearMonth yearParam monthParam = None ->
  apiEvents yearParam monthParam refresh w = (Returned BAD_RANGE, w).
Proof. intros Hv. unfold apiEvents, tryCatch. by rewrite Hv. Qed.

End Routes.

Section Gating.
Context `{Host}.

(** C4. In the event list of a period, the events filed under a date are
    exactly the events of the candidates of that date whose instrument has
    a news symbol: an instrument without one never shows, whatever its
    move, and every candidate of an instrument with one is kept.  The event
    route answers a valid period with such a list, built from the data of
    the period and the news it fetched. *)
Theorem events_news_gating :
  (forall (overrides : gmap string Override) (raw : MonthlyData)
          (marketNews : list NewsItem) (d : string) (e : Event),
     e ∈ default []
           (detectEvents (effectiveItems items overrides) raw marketNews !! d)
     <->
     exists c, c ∈ candidateEvents (effectiveItems items overrides) raw /\
       newsSymbol (itemObj c) <> None /\ c_date c = d /\
       e = eventOf (buildMarketNewsByDate marketNews) raw c) /\
  (forall yearParam monthParam refresh year month w,
     validateYearMonth yearParam monthParam = Some (year, month) ->
     exists raw failed marketNews w',
       apiEvents yearParam monthParam refresh w =
         (Returned (EventsResponse year month
                      (detectEvents (effectiveItems items (symbolOverrides w))
                         raw marketNews)
                      (failedField failed) false), w')).
Proof.
  split.
  - apply detectEvents_elem.
  - intros. by apply apiEvents_succeeds.
Qed.

End Gating.

(** ** The theorems at concrete inputs *)

Lemma sampleA_wellFormed : wellFormed sampleA.
Proof.
  intros i xs Hl. unfold sampleA in Hl.
  repeat (apply lookup_insert_Some in Hl as [[<- <-]|[_ Hl]];
          [by compute_done|]).
  by rewrite lookup_empty in Hl.
Qed.

Lemma sampleB_wellFormed : wellFormed sampleB.
Proof.
  intros i xs Hl. unfold sampleB in Hl.
  repeat (apply lookup_insert_Some in Hl as [[<- <-]|[_ Hl]];
          [by compute_done|]).
  by rewrite lookup_empty in Hl.
Qed.





Lemma events_news_gating_witness :
  thirdDayEvent ∈
    default [] (@detectEvents keylessHost (effectiveItems items ∅)
                  marchSnapshot [] !! "2024-03-06").
Proof.
  apply (proj1 (@events_news_gating keylessHost) ∅ marchSnapshot []
           "2024-03-06" thirdDayEvent).
  exists thirdDayCandidate. split.
  - apply list_elem_of_In. vm_compute. do 3 right. left. reflexivity.
  - split; [discriminate|]. split; reflexivity.
Defined.

Lemma headline_within_window_witness :
  exists d q,
    @inWindowOf keylessHost (buildMarketNewsByDate sampleNews)
      "2024-03-06" d "Fed holds rates" q /\
    forall d' h' q',
      @inWindowOf keylessHost (buildMarketNewsByDate sampleNews)
        "2024-03-06" d' h' q' -> (q <= q')%Q.
Proof.
  destruct (@headline_within_window keylessHost
              (buildMarketNewsByDate sampleNews) "2024-03-06")
    as (_ & _ & Hnear & _).
  destruct Hnear as [Hpick _]; [left; reflexivity|].
  apply Hpick. reflexivity.
Defined.

Lemma cache_hit_is_silent_witness :
  @getMonthlyData keylessHost 2024 3 false marchWorld =
    (Returned (marchSnapshot, []), marchWorld) /\
  upstream (snd (@getMonthlyData keylessHost 2024 3 false marchWorld)) = [].
Proof.
  destruct (@cache_hit_is_silent keylessHost 2024 3) as (Hhit & _).
  destruct (Hhit marchWorld marchSnapshot) as (Hget & Hup & _); [reflexivity|].
  split; [exact Hget|exact Hup].
Defined.

Lemma first_fetch_writes_snapshot_witness :
  exists data failed w1,
    @getMonthlyData keylessHost 2024 3 false freshWorld =
      (Returned (data, failed), w1) /\
    getCachedMonthly w1 2024 3 = Some data /\
    @getMonthlyData keylessHost 2024 3 false w1 = (Returned (data, []), w1).
Proof.
  destruct (@first_fetch_writes_snapshot keylessHost freshWorld 2024 3)
    as (data & failed & w1 & Hget & Hstored & _ & _ & Hagain & _);
    [reflexivity|].
  exists data, failed, w1. split; [exact Hget|]. split; [exact Hstored|exact Hagain].
Defined.


Lemma others_yield_chart item :
  item ∈ take 8 items ++ drop 9 items ->
  @yieldsChart emptyAppleHost (symbol item).
Proof.
  intros Hin. simpl in Hin.
  repeat (apply elem_of_cons in Hin as [->|Hin];
          [intros t1 t2 n; by exists "{}", (JObj [])|]).
  by apply elem_of_nil in Hin.
Qed.

Lemma batch_one_empty_response_witness :
  exists data w',
    @apiDaily emptyAppleHost "2024" "3" freshWorld =
      (Returned (DailyResponse 2024 3 data (take 8 items ++ apple :: drop 9 items)
                   (Some [mkFailure "애플" "데이터 조회 실패"])), w') /\
    data !! "apple" = Some [].
Proof.
  destruct (@batch_one_empty_response emptyAppleHost freshWorld
              (take 8 items) (drop 9 items) apple) as (_ & Hroute).
  - reflexivity.
  - intros t1 t2 n. reflexivity.
  - apply others_yield_chart.
  - intros p1 p2. apply lookup_empty.
  - destruct (Hroute "2024" "3" 2024%Z 3%Z)
      as (data & w' & Hrun & _ & Hbad & _);
      [reflexivity|reflexivity|reflexivity|].
    exists data, w'. split; [exact Hrun|exact Hbad].
Defined.

(* ================================================================== *)
(** * Further properties of the adapters, the store and the routes *)
(* ================================================================== *)

Lemma buildMarketNewsByDate_fold (news : list NewsItem) (acc : JsMap.t (list string)) d :
  JsMap.get
    (fold_left (fun byDate n =>
                  JsMap.set byDate (n_date n)
                    (default [] (JsMap.get byDate (n_date n)) ++ [headline n]))
               news acc) d =
  match map headline (filter (fun n => n_date n = d) news) with
  | [] => JsMap.get acc d
  | hs => Some (default [] (JsMap.get acc d) ++ hs)
  end.
Proof.
  revert acc. induction news as [|n news IH]; intros acc; [done|].
  cbn [fold_left]. rewrite IH, JsMap_get_set.
  destruct (decide (n_date n = d)) as [Heq|Hne].
  - rewrite filter_cons_True by done. cbn [map].
    rewrite (proj2 (String.eqb_eq _ _) Heq). subst d.
    destruct (map headline (filter _ news)); cbn [from_option Datatypes.id].
    + done.
    + by rewrite <- app_assoc.
  - rewrite filter_cons_False by done.
    by rewrite (proj2 (String.eqb_neq _ _) Hne).
Qed.

Lemma buildMarketNewsByDate_keys_fold (news : list NewsItem) (acc : JsMap.t (list string)) :
  NoDup (JsMap.keys acc) ->
  NoDup (JsMap.keys
    (fold_left (fun byDate n =>
                  JsMap.set byDate (n_date n)
                    (default [] (JsMap.get byDate (n_date n)) ++ [headline n]))
               news acc)).
Proof.
  revert acc. induction news as [|n news IH]; intros acc Hnd; [done|].
  cbn [fold_left]. apply IH. by apply JsMap_set_NoDup.
Qed.

(** X1. The map built from a news list holds, under each date, the
    headlines of the items of that date in the order of the list; a date
    without news has no entry, no entry is an empty list, and every date is
    a key once. *)
Theorem market_news_grouped_by_date (marketNewsList : list NewsItem) (d : string) :
  JsMap.get (buildMarketNewsByDate marketNewsList) d =
    match map headline (filter (fun n => n_date n = d) marketNewsList) with
    | [] => None
    | hs => Some hs
    end /\
  NoDup (JsMap.keys (buildMarketNewsByDate marketNewsList)).
Proof.
  split.
  - unfold buildMarketNewsByDate. rewrite buildMarketNewsByDate_fold.
    by destruct (map headline _).
  - apply buildMarketNewsByDate_keys_fold. constructor.
Qed.

Section ExactDate.
Context `{Host}.

(** X2. When the news list has an item of the very date of the event,
    the headline correlated with the event is the headline of the first
    such item of the list. *)
Theorem exact_date_gives_first_headline (marketNewsList : list NewsItem)
    (eventDate : string) (n : NewsItem) (later : list NewsItem) :
  filter (fun n => n_date n = eventDate) marketNewsList = n :: later ->
  getMarketHeadlineForDate (buildMarketNewsByDate marketNewsList) eventDate =
    Some (headline n).
Proof.
  intros Hf. unfold getMarketHeadlineForDate, buildMarketNewsByDate.
  rewrite buildMarketNewsByDate_fold, Hf. done.
Qed.
End ExactDate.

(** X3. The object the event route answers holds, under each date, the
    events of that date in the order they were detected, and has no key
    for a date without events. *)
Theorem events_grouped_by_date (events : list Event) (d : string) :
  groupByDate events !! d =
    match filter (fun e => e_date e = d) events with
    | [] => None
    | es => Some es
    end.
Proof.
  unfold groupByDate.
  assert (Hgen : forall (acc : gmap string (list Event)),
    fold_left (fun byDate e =>
       <[e_date e := default [] (byDate !! e_date e) ++ [e]]> byDate) events acc !! d =
    match filter (fun e => e_date e = d) events with
    | [] => acc !! d
    | es => Some (default [] (acc !! d) ++ es)
    end).
  { induction events as [|e events IH]; intros acc; [done|].
    cbn [fold_left]. rewrite IH.
    destruct (decide (e_date e = d)) as [Heq|Hne].
    - rewrite filter_cons_True by done. subst d. rewrite lookup_insert_eq.
      destruct (filter _ events); cbn [from_option Datatypes.id]; [done|].
      by rewrite <- app_assoc.
    - rewrite filter_cons_False by done. rewrite lookup_insert_ne by done. done. }
  rewrite Hgen, lookup_empty. by destruct (filter _ events).
Qed.

Lemma existsb_eqb_elem (k : string) (seen : list string) :
  existsb (String.eqb k) seen = true <-> k ∈ seen.
Proof.
  rewrite existsb_exists. split.
  - intros (x & Hin & Heq). apply String.eqb_eq in Heq. subst x.
    by apply list_elem_of_In.
  - intros Hin. exists k. split; [by apply list_elem_of_In|apply String.eqb_refl].
Qed.

Lemma dedupeNews_spec (allNews : list NewsItem) (seen : list string) :
  NoDup (map newsKey (dedupeNews allNews seen)) /\
  (forall n, n ∈ dedupeNews allNews seen -> newsKey n ∉ seen) /\
  sublist (dedupeNews allNews seen) allNews /\
  (forall n, n ∈ allNews ->
     newsKey n ∈ seen \/ newsKey n ∈ map newsKey (dedupeNews allNews seen)) /\
  (forall l1 n l2, allNews = l1 ++ n :: l2 -> newsKey n ∉ seen ->
     newsKey n ∉ map newsKey l1 -> n ∈ dedupeNews allNews seen).
Proof.
  revert seen. induction allNews as [|x rest IH]; intros seen.
  - cbn. repeat split.
    + constructor.
    + intros n Hn. by apply elem_of_nil in Hn.
    + constructor.
    + intros n Hn. by apply elem_of_nil in Hn.
    + intros [|? ?] ? ? Heq; discriminate.
  - cbn [dedupeNews]. fold (newsKey x).
    destruct (existsb (String.eqb (newsKey x)) seen) eqn:Ex.
    + apply existsb_eqb_elem in Ex.
      destruct (IH seen) as (Hnd & Hout & Hsub & Hcov & Hfirst).
      repeat split; try done.
      * by apply sublist_cons.
      * intros n Hn. apply elem_of_cons in Hn as [-> | Hn]; [by left|by apply Hcov].
      * intros [|y l1] n l2 Heq Hseen Hl1.
        -- injection Heq as -> ->. done.
        -- injection Heq as -> ->. apply (Hfirst l1 n l2); [done|done|].
           intros Hin. apply Hl1. cbn [map]. by apply elem_of_cons; right.
    + assert (Hx : newsKey x ∉ seen).
      { intros Hin. apply existsb_eqb_elem in Hin. congruence. }
      destruct (IH (newsKey x :: seen)) as (Hnd & Hout & Hsub & Hcov & Hfirst).
      repeat split.
      * cbn [map]. constructor; [|done].
        intros Hin. apply list_elem_of_fmap in Hin as (y & Hy & Hin).
        apply (Hout y Hin). rewrite <- Hy. by left.
      * intros n Hn. apply elem_of_cons in Hn as [-> | Hn]; [done|].
        intros Hin. apply (Hout n Hn). by right.
      * by apply sublist_skip.
      * intros n Hn. cbn [map].
        apply elem_of_cons in Hn as [-> | Hn]; [right; by left|].
        destruct (Hcov n Hn) as [Hs | Hr].
        -- apply elem_of_cons in Hs as [Heq | Hs]; [|by left].
           right. rewrite Heq. by left.
        -- right. by right.
      * intros [|y l1] n l2 Heq Hseen Hl1.
        -- injection Heq as -> ->. by left.
        -- injection Heq as -> ->. right. apply (Hfirst l1 n l2); [done| |].
           ++ intros Hin. apply elem_of_cons in Hin as [Hk | Hin]; [|done].
              apply Hl1. cbn [map]. rewrite Hk. by left.
           ++ intros Hin. apply Hl1. cbn [map]. by right.
Qed.

(** X4. The de-duplication of the collected news keeps a sublist in
    which no date-and-headline key occurs twice, every key of the input is
    still present, and of the items of one key it is the first that
    stays. *)
Theorem dedupeNews_first_occurrences (allNews : list NewsItem) :
  NoDup (map newsKey (dedupeNews allNews [])) /\
  sublist (dedupeNews allNews []) allNews /\
  (forall n, n ∈ allNews -> newsKey n ∈ map newsKey (dedupeNews allNews [])) /\
  (forall l1 n l2, allNews = l1 ++ n :: l2 -> newsKey n ∉ map newsKey l1 ->
     n ∈ dedupeNews allNews []).
Proof.
  destruct (dedupeNews_spec allNews []) as (Hnd & _ & Hsub & Hcov & Hfirst).
  repeat split; try done.
  - intros n Hn. destruct (Hcov n Hn) as [Hs | Hr]; [|done].
    by apply elem_of_nil in Hs.
  - intros l1 n l2 Heq Hl1. apply (Hfirst l1 n l2); [done| |done].
    intros Hin. by apply elem_of_nil in Hin.
Qed.

Lemma sellDecision_cases type changePct consecDown cumulChange fromHigh :
  let w := sellDecision type changePct consecDown cumulChange fromHigh in
  (type = FALL /\ w ∈ fallAdvisories) \/
  (type = RISE /\ w ∈ riseAdvisories) \/
  (type <> FALL /\ type <> RISE /\ w = W_NONE).
Proof.
  cbv zeta. unfold sellDecision.
  destruct (String.eqb type FALL) eqn:Ef.
  - apply String.eqb_eq in Ef. left. split; [done|].
    unfold fallAdvisories.
    repeat match goal with
           | |- context [if ?b then _ else _] => destruct b
           end; set_solver.
  - apply String.eqb_neq in Ef.
    destruct (String.eqb type RISE) eqn:Er.
    + apply String.eqb_eq in Er. right; left. split; [done|].
      unfold riseAdvisories.
      repeat match goal with
             | |- context [if ?b then _ else _] => destruct b
             end; set_solver.
    + apply String.eqb_neq in Er. by right; right.
Qed.

Lemma advisories_not_none w :
  w ∈ fallAdvisories \/ w ∈ riseAdvisories -> w <> W_NONE.
Proof.
  unfold fallAdvisories, riseAdvisories.
  intros [Hin | Hin]; repeat (apply elem_of_cons in Hin as [-> | Hin]);
    try discriminate; by apply elem_of_nil in Hin.
Qed.

Lemma findIndex_None {A} (p : A -> bool) (l : list A) :
  findIndex p l = None <-> Forall (fun x => p x = false) l.
Proof.
  induction l as [|x l IH]; cbn [findIndex].
  - split; [constructor|done].
  - destruct (p x) eqn:Ep.
    + split; [done|]. intros Hf. apply Forall_cons in Hf as [Hx _]. congruence.
    + rewrite fmap_None, IH. split.
      * intros Hf. by constructor.
      * intros Hf. by apply Forall_cons in Hf as [_ Hf].
Qed.

Lemma findIndex_Some {A} (p : A -> bool) (l : list A) i :
  findIndex p l = Some i -> exists x, l !! i = Some x /\ p x = true.
Proof.
  revert i. induction l as [|x l IH]; intros i; cbn [findIndex]; [done|].
  destruct (p x) eqn:Ep.
  - intros [= <-]. by exists x.
  - destruct (findIndex p l) as [j|]; [|done]. intros [= <-].
    destruct (IH j eq_refl) as (y & Hy & Hp). by exists y.
Qed.

Lemma closesOf_lookup (sorted : list DailyRecord) i :
  Forall (fun r => is_Some (close r)) sorted ->
  closesOf sorted !! i = sorted !! i ≫= close.
Proof.
  unfold closesOf. revert i. induction sorted as [|r l IH]; intros i Hall; [done|].
  apply Forall_cons in Hall as [[c Hc] Hall].
  cbn [omap list_omap]. rewrite Hc. destruct i as [|i]; cbn.
  - by rewrite Hc.
  - by apply IH.
Qed.

Lemma closesOf_length (sorted : list DailyRecord) :
  Forall (fun r => is_Some (close r)) sorted ->
  length (closesOf sorted) = length sorted.
Proof.
  unfold closesOf. induction sorted as [|r l IH]; intros Hall; [done|].
  apply Forall_cons in Hall as [[c Hc] Hall].
  cbn [omap list_omap]. rewrite Hc. cbn. f_equal. by apply IH.
Qed.

(** X5. The annotation of an event is the dash, or one of the seven
    advisories of a decline when the type is a decline, or one of the three
    of a rise when the type is a rise.  It is the dash when the series has
    fewer than two records, when no record has the date of the event, and
    when the type is neither of the two. *)
Theorem sell_warning_by_type (data : list DailyRecord) (evtDate : string)
    (changePct : Q) (type : string) :
  let w := getSellTimingWarning data evtDate changePct type in
  (w = W_NONE \/ (type = FALL /\ w ∈ fallAdvisories) \/
   (type = RISE /\ w ∈ riseAdvisories)) /\
  ((length data < 2)%nat -> w = W_NONE) /\
  (evtDate ∉ map date data -> w = W_NONE) /\
  (type <> FALL -> type <> RISE -> w = W_NONE).
Proof.
  cbv zeta. unfold getSellTimingWarning.
  destruct (length data <? 2)%nat eqn:El.
  { repeat split; try done; by left. }
  apply Nat.ltb_ge in El.
  destruct (length (closesOf (sortByDate data)) <? 2)%nat eqn:Ec.
  { repeat split; try done; by left. }
  destruct (findIndex _ (sortByDate data)) as [idx|] eqn:Ei.
  2:{ repeat split; try done; by left. }
  assert (Hdate : evtDate ∈ map date data).
  { apply findIndex_Some in Ei as (x & Hx & Hp). apply String.eqb_eq in Hp.
    apply list_elem_of_fmap. exists x. split; [done|].
    apply (proj1 (sortByDate_elem _ _)). by eapply list_elem_of_lookup_2. }
  destruct (closesOf (sortByDate data) !! idx) as [curr|].
  2:{ repeat split; try done; try lia; by left. }
  destruct (closesOf (sortByDate data) !! 0%nat) as [monthFirst|].
  2:{ repeat split; try done; try lia; by left. }
  pose proof (sellDecision_cases type changePct
                (consecDownAt (closesOf (sortByDate data)) idx)
                (pctFrom (Fin curr) (Fin monthFirst))
                (pctFrom (Fin curr)
                   (Math_max (take (S idx) (closesOf (sortByDate data))))))
    as Hcases.
  cbv zeta in Hcases.
  repeat split.
  - destruct Hcases as [?|[?|(_ & _ & ?)]]; [right; by left|right; by right|by left].
  - lia.
  - done.
  - intros Hf Hr. destruct Hcases as [[? _]|[[? _]|(_ & _ & ?)]]; done.
Qed.

Lemma candidate_advisory (effective : list Instrument)
    (raw : MonthlyData) (c : CandidateEvent) :
  closesPresent raw ->
  c ∈ candidateEvents effective raw ->
  let w := getSellTimingWarning (default [] (raw !! id (itemObj c))) (c_date c)
             (c_change c) (c_type c) in
  (c_type c = FALL /\ w ∈ fallAdvisories) \/
  (c_type c = RISE /\ w ∈ riseAdvisories).
Proof.
  intros Hclose Hc. cbv zeta.
  apply candidateEvents_elem in Hc as (item & _ & Hc).
  apply scanSeries_elem in Hc as (i & p & cr & Hp & Hcr & Hc).
  apply pairCandidate_elem in Hc as (prev & curr & Hcp & Hcc & _ & _ & ->).
  cbn [itemObj c_date c_change c_type].
  set (data := default [] (raw !! id item)) in *.
  assert (Hall : Forall (fun r => is_Some (close r)) (sortByDate data)).
  { apply Forall_forall. intros r Hr. apply (proj1 (sortByDate_elem _ _)) in Hr.
    subst data. destruct (raw !! id item) as [xs|] eqn:Ex; cbn in Hr.
    - eapply Hclose; eauto.
    - by apply elem_of_nil in Hr. }
  assert (Hlen : (2 <= length data)%nat).
  { apply lookup_lt_Some in Hcr. lia. }
  assert (Hslen : length (sortByDate data) = length data).
  { apply Permutation_length, sortByDate_perm. }
  unfold getSellTimingWarning.
  replace (length data <? 2)%nat with false by (symmetry; apply Nat.ltb_ge; lia).
  rewrite closesOf_length by done. rewrite Hslen.
  replace (length data <? 2)%nat with false by (symmetry; apply Nat.ltb_ge; lia).
  destruct (findIndex _ (sortByDate data)) as [idx|] eqn:Ei.
  2:{ apply findIndex_None in Ei. rewrite Forall_forall in Ei.
      assert (Hin : cr ∈ sortByDate data).
      { apply (proj2 (sortByDate_elem _ _)). by eapply list_elem_of_lookup_2. }
      specialize (Ei cr Hin). cbn in Ei. by rewrite String.eqb_refl in Ei. }
  apply findIndex_Some in Ei as (x & Hx & _).
  rewrite !closesOf_lookup by done. rewrite Hx. cbn [mbind option_bind].
  destruct (Forall_lookup_1 _ _ _ _ Hall Hx) as [cx ->].
  assert (H0 : exists x0, sortByDate data !! 0%nat = Some x0).
  { apply lookup_lt_is_Some. lia. }
  destruct H0 as [x0 Hx0]. rewrite Hx0. cbn [mbind option_bind].
  destruct (Forall_lookup_1 _ _ _ _ Hall Hx0) as [c0 ->].
  match goal with
  | |- context [sellDecision ?t ?a ?b ?c0 ?d] =>
      pose proof (sellDecision_cases t a b c0 d) as Hcases
  end.
  cbv zeta in Hcases.
  destruct Hcases as [?|[?|(Hf & Hr & _)]]; [by left|by right|].
  exfalso. destruct (Qltb 0 (changePctOf prev curr)); [by apply Hr|by apply Hf].
Qed.

Section Advisories.
Context `{Host}.

(** X6. On data in which every record has a close, every event the
    detector lists, under whatever date and with whatever news, is
    annotated with a real advisory of its own type, never with the dash. *)
Theorem detected_event_has_advisory (effective : list Instrument)
    (raw : MonthlyData) (marketNews : list NewsItem) (d : string)
    (es : list Event) (e : Event) :
  closesPresent raw ->
  detectEvents effective raw marketNews !! d = Some es -> e ∈ es ->
  (e_type e = FALL /\ sellWarning e ∈ fallAdvisories) \/
  (e_type e = RISE /\ sellWarning e ∈ riseAdvisories).
Proof.
  intros Hclose Hes He. unfold detectEvents in Hes.
  assert (Hin : e ∈ default [] (groupByDate
            (gateEvents (buildMarketNewsByDate marketNews) raw
               (candidateEvents effective raw)) !! d)) by (by rewrite Hes).
  apply groupByDate_elem in Hin as [Hin _].
  apply gateEvents_elem in Hin as (c & Hc & _ & ->).
  exact (candidate_advisory effective raw c Hclose Hc).
Qed.

End Advisories.

Lemma list_ascii_of_string_app (a b : string) :
  list_ascii_of_string (a ++ b)%string =
  list_ascii_of_string a ++ list_ascii_of_string b.
Proof.
  induction a as [|c a IH]; [done|].
  change (list_ascii_of_string (String c a ++ b)%string)
    with (c :: list_ascii_of_string (a ++ b)%string).
  rewrite IH. done.
Qed.

Lemma readDigits_app (l1 l2 : list ascii) (acc : option Z) :
  forallb isDigit l1 = true ->
  readDigits (l1 ++ l2) acc = readDigits l2 (readDigits l1 acc).
Proof.
  revert acc. induction l1 as [|c l1 IH]; intros acc Hall; [done|].
  cbn in Hall. apply andb_true_iff in Hall as [Hc Hall].
  cbn [app readDigits]. rewrite Hc. by apply IH.
Qed.

Lemma readDigits_stop (s : string) (acc : option Z) :
  noLeadingDigit s = true -> readDigits (list_ascii_of_string s) acc = acc.
Proof.
  destruct s as [|c s]; cbn; [done|]. intros Hc.
  by destruct (isDigit c).
Qed.

Lemma isDigit_not_space c : isDigit c = true -> isSpace c = false.
Proof.
  unfold isDigit, isSpace. intros Hd.
  apply andb_true_iff in Hd as [H1 H2].
  apply Nat.leb_le in H1, H2.
  apply orb_false_iff. split.
  - apply Nat.eqb_neq. lia.
  - apply andb_false_iff. right. apply Nat.leb_gt. lia.
Qed.

Lemma parseInt_digits (a s : string) :
  digitsOnly a = true -> noLeadingDigit s = true ->
  parseInt (a ++ s)%string = parseInt a.
Proof.
  unfold digitsOnly. intros Ha Hs. apply andb_true_iff in Ha as [Hne Hall].
  destruct a as [|c a]; [done|].
  unfold parseInt. rewrite list_ascii_of_string_app.
  cbn [list_ascii_of_string app dropSpaces] in *.
  cbn [forallb] in Hall. apply andb_true_iff in Hall as [Hc Hall].
  rewrite (isDigit_not_space c Hc).
  assert (Hsign : c <> "-"%char /\ c <> "+"%char).
  { split; intros ->; discriminate. }
  assert (Hgo : forall l, match c :: l with
                          | "-"%char :: cs => Z.opp <$> readDigits cs None
                          | "+"%char :: cs => readDigits cs None
                          | cs => readDigits cs None
                          end = readDigits (c :: l) None).
  { intros l. destruct Hsign as [Hm Hp].
    destruct c as [[] [] [] [] [] [] [] []]; try done. }
  rewrite !Hgo. cbn [readDigits]. rewrite Hc.
  rewrite readDigits_app by done. by rewrite readDigits_stop.
Qed.

Lemma years_parse :
  forallb (fun k => let y := (2000 + Z.of_nat k)%Z in
                    digitsOnly (pretty y) &&
                    match parseInt (pretty y) with
                    | Some z => (z =? y)%Z
                    | None => false
                    end) (seq 0 101) = true.
Proof. vm_compute. reflexivity. Qed.

Lemma months_parse :
  forallb (fun k => let m := (1 + Z.of_nat k)%Z in
                    digitsOnly (pretty m) &&
                    match parseInt (pretty m) with
                    | Some z => (z =? m)%Z
                    | None => false
                    end) (seq 0 12) = true.
Proof. vm_compute. reflexivity. Qed.

Lemma year_parses (y : Z) :
  (2000 <= y <= 2100)%Z ->
  digitsOnly (pretty y) = true /\ parseInt (pretty y) = Some y.
Proof.
  intros Hy. pose proof years_parse as Hall.
  rewrite forallb_forall in Hall.
  specialize (Hall (Z.to_nat (y - 2000))).
  cbv zeta in Hall.
  replace (2000 + Z.of_nat (Z.to_nat (y - 2000)))%Z with y in Hall by lia.
  assert (Hin : In (Z.to_nat (y - 2000)) (seq 0 101)) by (apply in_seq; lia).
  apply Hall in Hin. apply andb_true_iff in Hin as [Hd Hp].
  split; [done|]. destruct (parseInt (pretty y)); [|done].
  apply Z.eqb_eq in Hp. by subst.
Qed.

Lemma month_parses (m : Z) :
  (1 <= m <= 12)%Z ->
  digitsOnly (pretty m) = true /\ parseInt (pretty m) = Some m.
Proof.
  intros Hm. pose proof months_parse as Hall.
  rewrite forallb_forall in Hall.
  specialize (Hall (Z.to_nat (m - 1))).
  cbv zeta in Hall.
  replace (1 + Z.of_nat (Z.to_nat (m - 1)))%Z with m in Hall by lia.
  assert (Hin : In (Z.to_nat (m - 1)) (seq 0 12)) by (apply in_seq; lia).
  apply Hall in Hin. apply andb_true_iff in Hin as [Hd Hp].
  split; [done|]. destruct (parseInt (pretty m)); [|done].
  apply Z.eqb_eq in Hp. by subst.
Qed.

(** X7. The validation accepts only years 2000..2100 and months 1..12.
    It reads the leading decimal digits of each parameter: the decimal
    rendering of a year and a month in range is accepted and yields them,
    also when it is followed by text that does not start with a digit. *)
Theorem validateYearMonth_reads_leading_digits :
  (forall yearParam monthParam year month,
     validateYearMonth yearParam monthParam = Some (year, month) ->
     validPeriod year month) /\
  (forall year month rest1 rest2,
     validPeriod year month ->
     noLeadingDigit rest1 = true -> noLeadingDigit rest2 = true ->
     validateYearMonth (pretty year ++ rest1)%string (pretty month ++ rest2)%string =
       Some (year, month)).
Proof.
  split.
  - intros ys ms y m. unfold validateYearMonth, validPeriod.
    destruct (parseInt ys) as [y0|]; [|done].
    destruct (parseInt ms) as [m0|]; [|done].
    destruct ((y0 <? 2000)%Z || (2100 <? y0)%Z || (m0 <? 1)%Z || (12 <? m0)%Z) eqn:E;
      [done|].
    intros [= <- <-].
    repeat (apply orb_false_iff in E as [E ?]).
    repeat match goal with
           | H : (_ <? _)%Z = false |- _ => apply Z.ltb_ge in H
           end. lia.
  - intros y m r1 r2 [Hy Hm] H1 H2. unfold validateYearMonth.
    destruct (year_parses y Hy) as [Hdy Hpy].
    destruct (month_parses m Hm) as [Hdm Hpm].
    rewrite !parseInt_digits by done. rewrite Hpy, Hpm.
    replace ((y <? 2000)%Z || (2100 <? y)%Z || (m <? 1)%Z || (12 <? m)%Z)
      with false; [done|].
    symmetry. repeat (apply orb_false_iff; split); apply Z.ltb_ge; lia.
Qed.

Lemma append_inv_head (a s t : string) : (a ++ s = a ++ t)%string -> s = t.
Proof. induction a as [|c a IH]; cbn; [done|]. intros [= Heq]. by apply IH. Qed.

Lemma months_distinct :
  forallb (fun i =>
     forallb (fun j =>
        implb (String.eqb (padStart2 (pretty (1 + Z.of_nat i)%Z))
                          (padStart2 (pretty (1 + Z.of_nat j)%Z)))
              (i =? j)%nat) (seq 0 12)) (seq 0 12) = true.
Proof. vm_compute. reflexivity. Qed.

Lemma getPeriodKey_inj year month year' month' :
  validPeriod year month -> validPeriod year' month' ->
  getPeriodKey year month = getPeriodKey year' month' ->
  year = year' /\ month = month'.
Proof.
  intros [Hy Hm] [Hy' Hm'] Heq. unfold getPeriodKey in Heq.
  assert (Hyy : year = year').
  { destruct (year_parses year Hy) as [Hd Hp].
    destruct (year_parses year' Hy') as [Hd' Hp'].
    assert (H1 : parseInt (pretty year ++ "-" ++ padStart2 (pretty month))%string = Some year).
    { rewrite parseInt_digits by done. done. }
    assert (H2 : parseInt (pretty year' ++ "-" ++ padStart2 (pretty month'))%string = Some year').
    { rewrite parseInt_digits by done. done. }
    rewrite Heq in H1. congruence. }
  subst year'. split; [done|].
  apply append_inv_head in Heq. apply (append_inv_head "-") in Heq.
  pose proof months_distinct as Hall.
  rewrite forallb_forall in Hall.
  assert (Hi : In (Z.to_nat (month - 1)) (seq 0 12)) by (apply in_seq; lia).
  specialize (Hall _ Hi). rewrite forallb_forall in Hall.
  assert (Hj : In (Z.to_nat (month' - 1)) (seq 0 12)) by (apply in_seq; lia).
  specialize (Hall _ Hj).
  replace (1 + Z.of_nat (Z.to_nat (month - 1)))%Z with month in Hall by lia.
  replace (1 + Z.of_nat (Z.to_nat (month' - 1)))%Z with month' in Hall by lia.
  rewrite Heq, String.eqb_refl in Hall. cbn in Hall.
  apply Nat.eqb_eq in Hall. lia.
Qed.

Lemma uniqueDates_sortByDate xs : uniqueDates xs -> uniqueDates (sortByDate xs).
Proof. unfold uniqueDates. intros Hu. by rewrite sortByDate_dates. Qed.

Lemma lastWithDate_iff d xs r :
  uniqueDates xs -> lastWithDate d xs = Some r <-> (r ∈ xs /\ date r = d).
Proof.
  intros Hu. split.
  - apply lastWithDate_Some.
  - intros [Hin Hd]. by apply lastWithDate_unique.
Qed.

Lemma mergeSeries_elem_unique ex fr r :
  uniqueDates ex -> uniqueDates fr ->
  (r ∈ mergeSeries ex fr <-> r ∈ fr \/ ((date r ∉ map date fr) /\ r ∈ ex)).
Proof.
  intros He Hf. rewrite mergeSeries_elem.
  rewrite (lastWithDate_iff _ fr r Hf), (lastWithDate_iff _ ex r He).
  rewrite lastWithDate_None. intuition.
Qed.

Lemma elem_dates r xs : r ∈ xs -> date r ∈ map date xs.
Proof. intros Hr. by apply list_elem_of_fmap_2. Qed.

Lemma mergeSeries_assoc a b c :
  uniqueDates a -> uniqueDates b -> uniqueDates c ->
  mergeSeries (mergeSeries a b) c = mergeSeries a (mergeSeries b c).
Proof.
  intros Ha Hb Hc. apply sorted_series_ext;
    auto using mergeSeries_sorted, mergeSeries_unique.
  intros r.
  rewrite (mergeSeries_elem_unique (mergeSeries a b) c) by auto using mergeSeries_unique.
  rewrite (mergeSeries_elem_unique a (mergeSeries b c)) by auto using mergeSeries_unique.
  rewrite !mergeSeries_elem_unique by done.
  rewrite mergeSeries_dates.
  pose proof (elem_dates r b). pose proof (elem_dates r c).
  destruct (decide (date r ∈ map date c)), (decide (date r ∈ map date b));
    intuition.
Qed.

Lemma mergeSeries_sort_l b c :
  uniqueDates b -> uniqueDates c ->
  mergeSeries (sortByDate b) c = mergeSeries b c.
Proof.
  intros Hb Hc. apply sorted_series_ext;
    auto using mergeSeries_sorted, mergeSeries_unique.
  intros r.
  rewrite !mergeSeries_elem_unique by auto using uniqueDates_sortByDate.
  by rewrite sortByDate_elem.
Qed.

Lemma mergeSeries_sort_r a c :
  uniqueDates a -> uniqueDates c ->
  mergeSeries a (sortByDate c) = mergeSeries a c.
Proof.
  intros Ha Hc. apply sorted_series_ext;
    auto using mergeSeries_sorted, mergeSeries_unique.
  intros r.
  rewrite !mergeSeries_elem_unique by auto using uniqueDates_sortByDate.
  by rewrite sortByDate_elem, sortByDate_dates.
Qed.

Lemma uniqueDates_nil : uniqueDates [].
Proof. constructor. Qed.

(** X8. On maps with one record per date the merge is associative: two
    successive refreshes stored one after the other give the same snapshot
    as storing their merge. *)
Theorem mergeMonthlyData_assoc (A B C : MonthlyData) :
  wellFormed A -> wellFormed B -> wellFormed C ->
  mergeMonthlyData (mergeMonthlyData A B) C =
  mergeMonthlyData A (mergeMonthlyData B C).
Proof.
  intros HA HB HC. apply map_eq. intros k.
  rewrite !mergeMonthlyData_lookup.
  destruct (A !! k) as [a|] eqn:Ea, (B !! k) as [b|] eqn:Eb,
    (C !! k) as [c|] eqn:Ec; cbn [default from_option Datatypes.id fmap option_fmap option_map];
    try specialize (HA _ _ Ea); try specialize (HB _ _ Eb);
    try specialize (HC _ _ Ec); f_equal.
  - by apply mergeSeries_assoc.
  - by apply mergeSeries_assoc; auto using uniqueDates_nil.
  - rewrite mergeSeries_sort_r by done.
    rewrite mergeSeries_nil_r by done. by apply mergeSeries_sort_l.
  - by apply mergeSeries_assoc; auto using uniqueDates_nil.
  - rewrite mergeSeries_sort_l by done.
    symmetry. apply sortByDate_id, mergeSeries_sorted.
  - rewrite mergeSeries_sort_l by auto using uniqueDates_nil.
    symmetry. apply sortByDate_id, mergeSeries_sorted.
  - symmetry. apply sortByDate_id, sortByDate_sorted.
Qed.

Section ChartTrace.
Context `{Host}.

Lemma elapsed_nonneg res latency : (0 <= elapsed res latency)%Z.
Proof. destruct res; cbn; lia. Qed.

Lemma chartAttempt_trace req key w :
  upstream (snd (chartAttempt req key w)) = upstream w ++ [ChartRequest req] /\
  (clock w <= clock (snd (chartAttempt req key w)))%Z /\
  match fst (chartAttempt req key w) with
  | Returned series =>
      cache (snd (chartAttempt req key w)) =
        <[key := mkSlot series (clock (snd (chartAttempt req key w)) + CACHE_TTL)%Z]>
          (cache w)
  | Thrown _ => cache (snd (chartAttempt req key w)) = cache w
  end.
Proof.
  unfold chartAttempt, bind, requestChart.
  destruct (yahoo req (length (upstream w))) as [res latency].
  pose proof (elapsed_nonneg res latency) as Hel.
  destruct (settle res) as [html|e]; cbn [fst snd].
  - destruct (JSON_parse html) as [json|].
    + destruct (chartSeries json) as [series|]; cbn; repeat split; try done; lia.
    + cbn. repeat split; try done; lia.
  - cbn. repeat split; try done; lia.
Qed.

Lemma chartRetries_trace req key retries w :
  Forall (fun r => 0 <= r)%Z retries ->
  match chartRetries req key retries w with
  | (Returned series, w') =>
      exists n, (1 <= n <= length retries)%nat /\
        upstream w' = upstream w ++ replicate n (ChartRequest req) /\
        cache w' = <[key := mkSlot series (clock w' + CACHE_TTL)%Z]> (cache w) /\
        (clock w <= clock w')%Z
  | (Thrown e, w') =>
      e = "데이터 조회 실패"%string /\
      upstream w' = upstream w ++ replicate (length retries) (ChartRequest req) /\
      cache w' = cache w /\
      (clock w + foldr (fun r acc => (r + 1) * 2000 + acc) 0 retries <= clock w')%Z
  end.
Proof.
  intros Hpos. revert w. induction retries as [|retry rest IH]; intros w.
  { cbn. rewrite app_nil_r. repeat split; try done; lia. }
  apply Forall_cons in Hpos as [Hretry Hpos].
  cbn [chartRetries]. unfold tryCatch.
  destruct (chartAttempt_trace req key w) as (Hup & Hclock & Hcache).
  destruct (chartAttempt req key w) as [[series|e] w1]; cbn [fst snd] in *.
  - exists 1%nat. cbn [length replicate]. repeat split; try done; lia.
  - unfold bind, delay, modify.
    specialize (IH Hpos (setClock (clock w1 + (retry + 1) * 2000)%Z w1)).
    destruct (chartRetries req key rest _) as [[series|e'] w2].
    + destruct IH as (n & Hn & Hup2 & Hcache2 & Hclock2).
      exists (S n). cbn in *. repeat split; try lia.
      * rewrite Hup2, Hup, <- app_assoc. done.
      * by rewrite Hcache2, Hcache.
    + destruct IH as (-> & Hup2 & Hcache2 & Hclock2).
      cbn in *. repeat split; try lia.
      * rewrite Hup2, Hup, <- app_assoc. done.
      * by rewrite Hcache2, Hcache.
Qed.

(** The three ways a fetch can go. *)
Lemma fetchChartFromYahoo_cases sym period1 period2 w :
  (isSymbolAllowed (symbolOverrides w) sym = false /\
   fetchChartFromYahoo sym period1 period2 w =
     (Thrown ("허용되지 않은 심볼: " ++ sym)%string, w)) \/
  (isSymbolAllowed (symbolOverrides w) sym = true /\
   exists slot,
     cache w !! getCacheKey sym (formatYMD period1) (formatYMD period2) = Some slot /\
     (clock w < slot_expires slot)%Z /\
     fetchChartFromYahoo sym period1 period2 w = (Returned (slot_data slot), w)) \/
  (isSymbolAllowed (symbolOverrides w) sym = true /\
   exists t1 t2,
     (forall a b, t1 = Some a -> t2 = Some b -> (a < b)%Z) /\
     fetchChartFromYahoo sym period1 period2 w =
       chartRetries (mkYahooRequest sym t1 t2)
         (getCacheKey sym (formatYMD period1) (formatYMD period2)) [0; 1; 2]%Z w).
Proof.
  assert (Hrange : forall a b,
    toTimestamp period1 = Some a ->
    match toTimestamp period1, toTimestamp period2 with
    | Some a, Some b => if (b <=? a)%Z then Some (a + 86400)%Z else Some b
    | _, t => t
    end = Some b -> (a < b)%Z).
  { intros a b Ha. rewrite Ha. destruct (toTimestamp period2) as [b0|]; [|done].
    destruct (b0 <=? a)%Z eqn:E; intros [= <-]; [lia|].
    apply Z.leb_gt in E. lia. }
  unfold fetchChartFromYahoo, bind, gets.
  destruct (isSymbolAllowed (symbolOverrides w) sym) eqn:Ea; cbn [negb];
    cbv beta iota zeta; [|by left].
  right.
  destruct (cache w !! getCacheKey sym (formatYMD period1) (formatYMD period2))
    as [slot|] eqn:Ec.
  - destruct (clock w <? slot_expires slot)%Z eqn:El.
    + left. split; [done|]. exists slot. apply Z.ltb_lt in El. by repeat split.
    + right. split; [done|]. eexists _, _. split; [exact Hrange|done].
  - right. split; [done|]. eexists _, _. split; [exact Hrange|done].
Qed.

(** X9. One fetch of a series sends at most three requests, all of them
    the same request for the symbol asked for, none when the symbol is not
    on the allow list, and never for an empty or reversed range of
    timestamps. *)
Theorem fetch_request_budget (sym : string) (period1 period2 : option Z)
    (w : World) :
  exists t1 t2 n,
    upstream (snd (fetchChartFromYahoo sym period1 period2 w)) =
      upstream w ++ replicate n (ChartRequest (mkYahooRequest sym t1 t2)) /\
    (n <= 3)%nat /\
    (isSymbolAllowed (symbolOverrides w) sym = false -> n = 0%nat) /\
    (forall a b, t1 = Some a -> t2 = Some b -> (a < b)%Z).
Proof.
  destruct (fetchChartFromYahoo_cases sym period1 period2 w)
    as [[Ha ->]|[(Ha & slot & _ & _ & ->)|(Ha & t1 & t2 & Hrange & ->)]].
  - exists None, None, 0%nat. cbn. rewrite app_nil_r. repeat split; try done; lia.
  - exists None, None, 0%nat. cbn. rewrite app_nil_r. repeat split; try done; lia.
  - exists t1, t2.
    pose proof (chartRetries_trace (mkYahooRequest sym t1 t2)
                  (getCacheKey sym (formatYMD period1) (formatYMD period2))
                  [0; 1; 2]%Z w) as Htr.
    destruct (chartRetries _ _ _ w) as [[series|e] w'].
    + destruct Htr as (n & Hn & Hup & _); [repeat constructor; lia|].
      exists n. cbn in *. split; [done|]. split; [lia|]. split; [congruence|exact Hrange].
    + destruct Htr as (_ & Hup & _); [repeat constructor; lia|].
      exists 3%nat. cbn in *. split; [done|]. split; [lia|]. split; [congruence|exact Hrange].
Qed.

(** X10. A fetch that returned a series is answered from the response
    cache when it is repeated right away: the same series comes back and
    the world, the request log included, does not change. *)
Theorem fetched_series_is_cached (sym : string) (period1 period2 : option Z)
    (w w' : World) (series : list DailyRecord) :
  fetchChartFromYahoo sym period1 period2 w = (Returned series, w') ->
  fetchChartFromYahoo sym period1 period2 w' = (Returned series, w').
Proof.
  intros Hfetch.
  pose proof (Preserves_fetchChartFromYahoo sym period1 period2 w) as Hkeep.
  rewrite Hfetch in Hkeep. destruct Hkeep as (Ho & _). cbn in Ho.
  destruct (fetchChartFromYahoo_cases sym period1 period2 w)
    as [[Ha Hf]|[(Ha & slot & Hc & Hl & Hf)|(Ha & t1 & t2 & _ & Hf)]];
    rewrite Hf in Hfetch.
  - discriminate.
  - injection Hfetch as <- <-. done.
  - pose proof (chartRetries_trace (mkYahooRequest sym t1 t2)
                  (getCacheKey sym (formatYMD period1) (formatYMD period2))
                  [0; 1; 2]%Z w) as Htr.
    rewrite Hfetch in Htr.
    destruct Htr as (n & _ & _ & Hcache & _); [repeat constructor; lia|].
    unfold fetchChartFromYahoo, bind, gets. rewrite Ho, Ha. cbn [negb].
    cbv beta iota zeta. rewrite Hcache, lookup_insert_eq. cbn [slot_expires slot_data].
    replace (clock w' <? clock w' + CACHE_TTL)%Z with true; [done|].
    symmetry. apply Z.ltb_lt. unfold CACHE_TTL. lia.
Qed.

(** X11. A fetch that throws has not written the response cache.  Either
    the symbol was refused and nothing happened at all, or the message is
    the one of the exhausted retries, exactly three requests were sent and
    at least twelve seconds of back-off have passed. *)
Theorem failed_fetch_backs_off (sym : string) (period1 period2 : option Z)
    (w w' : World) (message : string) :
  fetchChartFromYahoo sym period1 period2 w = (Thrown message, w') ->
  cache w' = cache w /\
  ((message = ("허용되지 않은 심볼: " ++ sym)%string /\ w' = w) \/
   (message = "데이터 조회 실패"%string /\
    length (upstream w') = (length (upstream w) + 3)%nat /\
    (clock w + 12000 <= clock w')%Z)).
Proof.
  intros Hfetch.
  destruct (fetchChartFromYahoo_cases sym period1 period2 w)
    as [[Ha Hf]|[(Ha & slot & Hc & Hl & Hf)|(Ha & t1 & t2 & _ & Hf)]];
    rewrite Hf in Hfetch.
  - injection Hfetch as <- <-. split; [done|]. by left.
  - discriminate.
  - pose proof (chartRetries_trace (mkYahooRequest sym t1 t2)
                  (getCacheKey sym (formatYMD period1) (formatYMD period2))
                  [0; 1; 2]%Z w) as Htr.
    rewrite Hfetch in Htr.
    destruct Htr as (-> & Hup & Hcache & Hclock); [repeat constructor; lia|].
    split; [done|]. right. split; [done|]. split.
    + rewrite Hup, length_app. done.
    + cbn in Hclock. lia.
Qed.

End ChartTrace.

Section BatchTrace.
Context `{Host}.

Lemma fetchChartFromYahoo_clock sym period1 period2 w :
  (clock w <= clock (snd (fetchChartFromYahoo sym period1 period2 w)))%Z.
Proof.
  destruct (fetchChartFromYahoo_cases sym period1 period2 w)
    as [[Ha ->]|[(Ha & slot & _ & _ & ->)|(Ha & t1 & t2 & _ & ->)]];
    [cbn; lia|cbn; lia|].
  pose proof (chartRetries_trace (mkYahooRequest sym t1 t2)
                (getCacheKey sym (formatYMD period1) (formatYMD period2))
                [0; 1; 2]%Z w) as Htr.
  destruct (chartRetries _ _ _ w) as [[series|e] w'].
  - destruct Htr as (n & _ & _ & _ & Hc); [repeat constructor; lia|]. cbn. lia.
  - destruct Htr as (_ & _ & _ & Hc); [repeat constructor; lia|]. cbn in *. lia.
Qed.

Lemma fetchAllLoop_trace todo start end_ (results : MonthlyData) failed w :
  exists r extra w',
    fetchAllLoop todo start end_ results failed w =
      (Returned (r, failed ++ extra), w') /\
    (forall k, is_Some (r !! k) <-> is_Some (results !! k) \/ k ∈ map id todo) /\
    sublist (map f_name extra) (map name todo) /\
    (Forall (fun i => isSymbolAllowed (symbolOverrides w) (symbol i) = true) todo ->
     Forall (fun f => reason f = "데이터 조회 실패"%string) extra) /\
    (clock w + 500 * Z.of_nat (length todo) <= clock w')%Z.
Proof.
  revert results failed w.
  induction todo as [|item rest IH]; intros results failed w.
  { exists results, [], w. rewrite app_nil_r. cbn. repeat split; try done; try lia.
    - intros Hk. by left.
    - intros [Hk|Hk]; [done|]. by apply elem_of_nil in Hk. }
  rewrite fetchAllLoop_cons.
  pose proof (fetchChartFromYahoo_clock (symbol item) start end_ w) as Hclock.
  pose proof (Preserves_fetchChartFromYahoo (symbol item) start end_ w) as Hkeep.
  destruct (batchStep_cases item start end_ results failed w)
    as [(series & w1 & Hf & ->)|(err & w1 & Hf & ->)];
    rewrite Hf in Hclock, Hkeep; cbn [fst snd] in *;
    destruct Hkeep as (Ho & _).
  - destruct (IH (<[id item := series]> results) failed
                (setClock (clock w1 + 500)%Z w1))
      as (r & extra & w' & -> & Hdom & Hsub & Hreason & Hc).
    exists r, extra, w'. split; [done|]. repeat split.
    + intros Hk. apply Hdom in Hk as [Hk|Hk].
      * destruct (decide (k = id item)) as [->|Hne]; [right; by left|].
        rewrite lookup_insert_ne in Hk by done. by left.
      * right. by right.
    + intros [Hk|Hk]; apply Hdom.
      * destruct (decide (k = id item)) as [->|Hne].
        -- left. rewrite lookup_insert_eq. by eexists.
        -- left. by rewrite lookup_insert_ne.
      * cbn [map] in Hk. apply elem_of_cons in Hk as [->|Hk]; [|by right].
        left. rewrite lookup_insert_eq. by eexists.
    + cbn [map]. by apply sublist_cons.
    + intros Hall. apply Forall_cons in Hall as [_ Hall].
      apply Hreason. cbn. by rewrite Ho.
    + cbn in Hc. cbn [length]. lia.
  - destruct (IH (<[id item := []]> results) (failed ++ [mkFailure (name item) err])
                (setClock (clock w1 + 500)%Z w1))
      as (r & extra & w' & -> & Hdom & Hsub & Hreason & Hc).
    exists r, (mkFailure (name item) err :: extra), w'.
    split; [by rewrite <- app_assoc|]. repeat split.
    + intros Hk. apply Hdom in Hk as [Hk|Hk].
      * destruct (decide (k = id item)) as [->|Hne]; [right; by left|].
        rewrite lookup_insert_ne in Hk by done. by left.
      * right. by right.
    + intros [Hk|Hk]; apply Hdom.
      * destruct (decide (k = id item)) as [->|Hne].
        -- left. rewrite lookup_insert_eq. by eexists.
        -- left. by rewrite lookup_insert_ne.
      * cbn [map] in Hk. apply elem_of_cons in Hk as [->|Hk]; [|by right].
        left. rewrite lookup_insert_eq. by eexists.
    + cbn [map f_name]. by apply sublist_skip.
    + intros Hall. apply Forall_cons in Hall as [Hitem Hall].
      constructor.
      * cbn [reason].
        destruct (fetchChartFromYahoo_cases (symbol item) start end_ w)
          as [[Ha _]|[(Ha & slot & _ & _ & Hf')|(Ha & t1 & t2 & _ & Hf')]];
          [congruence|congruence|].
        pose proof (chartRetries_trace (mkYahooRequest (symbol item) t1 t2)
                      (getCacheKey (symbol item) (formatYMD start) (formatYMD end_))
                      [0; 1; 2]%Z w) as Htr.
        rewrite <- Hf', Hf in Htr.
        destruct Htr as (-> & _); [repeat constructor; lia|done].
      * apply Hreason. cbn. by rewrite Ho.
    + cbn in Hc. cbn [length]. lia.
Qed.

End BatchTrace.

Section BatchTheorem.
Context `{Host}.

(** X12. The batch always returns.  Its result has a series for exactly
    the ids of the instruments asked for, the names of its failures are a
    subsequence of the names of the instruments in their order, a failure
    of an allowed symbol always carries the message of the exhausted
    retries, and the batch takes at least half a second per instrument. *)
Theorem batch_covers_every_instrument (todo : list Instrument)
    (start end_ : option Z) (w : World) :
  exists results failed w',
    fetchAllHistorical todo start end_ w = (Returned (results, failed), w') /\
    (forall k, is_Some (results !! k) <-> k ∈ map id todo) /\
    sublist (map f_name failed) (map name todo) /\
    (Forall (fun i => isSymbolAllowed (symbolOverrides w) (symbol i) = true) todo ->
     Forall (fun f => reason f = "데이터 조회 실패"%string) failed) /\
    (clock w + 500 * Z.of_nat (length todo) <= clock w')%Z.
Proof.
  unfold fetchAllHistorical.
  destruct (fetchAllLoop_trace todo start end_ ∅ [] w)
    as (r & extra & w' & Hrun & Hdom & Hsub & Hreason & Hclock).
  exists r, extra, w'. split; [done|]. repeat split; try done.
  - intros Hk. apply Hdom in Hk as [Hk|Hk]; [|done].
    rewrite lookup_empty in Hk. by destruct Hk.
  - intros Hk. apply Hdom. by right.
Qed.

End BatchTheorem.

Section NewsTrace.
Context `{Host}.

Lemma requestNews_trace req w :
  upstream (snd (requestNews req w)) = upstream w ++ [NewsCall req] /\
  newsCache (snd (requestNews req w)) = newsCache w /\
  (clock w <= clock (snd (requestNews req w)))%Z.
Proof.
  unfold requestNews.
  destruct (finnhub req (length (upstream w))) as [[body|] latency]; cbn;
    repeat split; lia.
Qed.

Lemma tryMarketNews_trace path fromDate toDateCapped allNews w :
  exists news w',
    tryMarketNews path fromDate toDateCapped allNews w = (Returned news, w') /\
    upstream w' = upstream w ++ [NewsCall (GeneralNews path)] /\
    newsCache w' = newsCache w.
Proof.
  unfold tryMarketNews, tryCatch, bind.
  destruct (requestNews_trace (GeneralNews path) w) as (Hup & Hn & _).
  destruct (requestNews (GeneralNews path) w) as [[body|e] w1]; cbn [fst snd] in *.
  - destruct (parseNewsBody body) as [[| | | |parsed|]|]; by eexists _, _.
  - by eexists _, _.
Qed.

Lemma bellwetherNews_trace symbols fromTs toTs allNews w :
  exists news w',
    bellwetherNews symbols fromTs toTs allNews w = (Returned news, w') /\
    upstream w' =
      upstream w ++ map (fun sym => NewsCall (CompanyNews sym fromTs toTs)) symbols /\
    newsCache w' = newsCache w.
Proof.
  revert allNews w. induction symbols as [|sym rest IH]; intros allNews w.
  { exists allNews, w. cbn. by rewrite app_nil_r. }
  cbn [bellwetherNews]. unfold bind at 1. unfold tryCatch, bind.
  destruct (requestNews_trace (CompanyNews sym fromTs toTs) w) as (Hup & Hn & _).
  assert (Hstep : exists news1 w1,
    match requestNews (CompanyNews sym fromTs toTs) w with
    | (Returned a, w'0) =>
        match parseNewsBody a with
        | Some (JArr parsed) =>
            if snd (pushParsed (fun _ => true) parsed allNews)
            then ret (fst (pushParsed (fun _ => true) parsed allNews))
            else (delay 150;; ret (fst (pushParsed (fun _ => true) parsed allNews)))
        | _ => ret allNews
        end w'0
    | (Thrown e, w'0) => (Thrown e, w'0)
    end = (Returned news1, w1) \/ True) by (exists allNews, w; by right).
  clear Hstep.
  destruct (requestNews (CompanyNews sym fromTs toTs) w) as [[body|e] w1];
    cbn [fst snd] in *.
  - destruct (parseNewsBody body) as [[| | | |parsed|]|];
      try (cbn [ret]; destruct (IH allNews w1) as (news & w' & -> & Hup' & Hn');
           exists news, w'; split; [done|]; split;
           [rewrite Hup', Hup, <- app_assoc; done|congruence]).
    destruct (snd (pushParsed (fun _ => true) parsed allNews)).
    + cbn [ret].
      destruct (IH (fst (pushParsed (fun _ => true) parsed allNews)) w1)
        as (news & w' & -> & Hup' & Hn').
      exists news, w'. split; [done|]. split;
        [rewrite Hup', Hup, <- app_assoc; done|congruence].
    + unfold delay, modify, bind, ret.
      destruct (IH (fst (pushParsed (fun _ => true) parsed allNews))
                  (setClock (clock w1 + 150)%Z w1))
        as (news & w' & -> & Hup' & Hn').
      exists news, w'. split; [done|]. cbn in Hup', Hn'. split;
        [rewrite Hup', Hup, <- app_assoc; done|congruence].
  - cbn [ret]. destruct (IH allNews w1) as (news & w' & -> & Hup' & Hn').
    exists news, w'. split; [done|]. split;
      [rewrite Hup', Hup, <- app_assoc; done|congruence].
Qed.

(** The live path of the market news fetch: what it requests and what it
    leaves in the news cache. *)
Lemma fetchMarketNews_live fromDate toDate skipCache w :
  liveNews ("market:" ++ fromDate ++ ":" ++ toDate)%string skipCache w =
    (Returned None, w) ->
  truthyStr FINNHUB_API_KEY = true ->
  exists news w' fromTs toTs reqs,
    fetchMarketNews fromDate toDate skipCache w = (Returned news, w') /\
    upstream w' = upstream w ++ map NewsCall reqs /\
    reqs `prefix_of` marketNewsPlan fromTs toTs /\
    (1 <= length reqs)%nat /\
    newsCache w' =
      <[("market:" ++ fromDate ++ ":" ++ toDate)%string :=
          mkNewsSlot news (clock w' + NEWS_CACHE_TTL)%Z]> (newsCache w).
Proof.
  intros Hlive Hkey. unfold fetchMarketNews. unfold bind at 1.
  rewrite Hlive, Hkey. cbn [negb].
  unfold cappedToday. unfold bind at 1. unfold bind at 1. unfold gets at 1.
  unfold ret at 1.
  set (toDateCapped := if String.ltb (formatYMD (Some (clock w))) toDate
                       then formatYMD (Some (clock w)) else toDate).
  set (fromTs := dayStartTs fromDate). set (toTs := dayEndTs toDateCapped).
  unfold bind at 1.
  destruct (tryMarketNews_trace "market-news" fromDate toDateCapped [] w)
    as (news1 & w1 & -> & Hup1 & Hn1).
  unfold bind at 1.
  assert (Hsecond : exists news2 w2 reqs2,
    match news1 with
    | [] => tryMarketNews "news" fromDate toDateCapped news1
    | _ => ret news1
    end w1 = (Returned news2, w2) /\
    upstream w2 = upstream w1 ++ map NewsCall reqs2 /\
    newsCache w2 = newsCache w1 /\
    ((news1 = [] /\ reqs2 = [GeneralNews "news"]) \/
     (news1 <> [] /\ news2 = news1 /\ reqs2 = []))).
  { destruct news1 as [|n1 rest1].
    - destruct (tryMarketNews_trace "news" fromDate toDateCapped [] w1)
        as (news2 & w2 & -> & Hup2 & Hn2).
      exists news2, w2, [GeneralNews "news"]. repeat split; try done. by left.
    - exists (n1 :: rest1), w1, []. cbn. rewrite app_nil_r.
      repeat split; try done. right. by repeat split. }
  destruct Hsecond as (news2 & w2 & reqs2 & -> & Hup2 & Hn2 & Hcase2).
  unfold bind at 1.
  assert (Hthird : exists news3 w3 reqs3,
    match news2 with
    | [] => bellwetherNews US_MARKET_NEWS_SYMBOLS fromTs toTs news2
    | _ => ret news2
    end w2 = (Returned news3, w3) /\
    upstream w3 = upstream w2 ++ map NewsCall reqs3 /\
    newsCache w3 = newsCache w2 /\
    ((news2 = [] /\
      reqs3 = map (fun sym => CompanyNews sym fromTs toTs) US_MARKET_NEWS_SYMBOLS) \/
     (news2 <> [] /\ reqs3 = []))).
  { destruct news2 as [|n2 rest2].
    - destruct (bellwetherNews_trace US_MARKET_NEWS_SYMBOLS fromTs toTs [] w2)
        as (news3 & w3 & -> & Hup3 & Hn3).
      exists news3, w3,
        (map (fun sym => CompanyNews sym fromTs toTs) US_MARKET_NEWS_SYMBOLS).
      split; [done|]. split; [rewrite Hup3; f_equal; by rewrite map_map|].
      split; [done|]. by left.
    - exists (n2 :: rest2), w2, []. cbn. rewrite app_nil_r.
      repeat split; try done. by right. }
  destruct Hthird as (news3 & w3 & reqs3 & -> & Hup3 & Hn3 & Hcase3).
  unfold newsCacheSet, bind, modify, ret.
  eexists (dedupeNews news3 []), _, fromTs, toTs,
    (GeneralNews "market-news" :: reqs2 ++ reqs3).
  split; [reflexivity|]. cbn [upstream newsCache clock setNewsCache].
  repeat split.
  - rewrite Hup3, Hup2, Hup1. cbn [map]. rewrite map_app, <- !app_assoc. done.
  - unfold marketNewsPlan.
    destruct Hcase2 as [[-> ->]|(Hne & -> & ->)].
    + destruct Hcase3 as [[-> ->]|[_ ->]]; cbn.
      * done.
      * by eexists.
    + destruct Hcase3 as [[-> _]|[_ ->]]; [done|]. cbn. by eexists.
  - cbn [length]. lia.
  - by rewrite Hn3, Hn2, Hn1.
Qed.

End NewsTrace.

Section NewsTheorems.
Context `{Host}.

Lemma liveNews_world key skipCache w :
  exists cached, liveNews key skipCache w = (Returned cached, w).
Proof. unfold liveNews, gets. by eexists. Qed.

(** X13. A fetch of the market news sends a prefix of a fixed plan of six
    requests: the general feed, the alternative feed, then the four large
    US names in their order.  Without a key it sends nothing and changes
    nothing. *)
Theorem market_news_request_plan (fromDate toDate : string) (skipCache : bool)
    (w : World) :
  exists fromTs toTs reqs,
    upstream (snd (fetchMarketNews fromDate toDate skipCache w)) =
      upstream w ++ map NewsCall reqs /\
    reqs `prefix_of` marketNewsPlan fromTs toTs /\
    (truthyStr FINNHUB_API_KEY = false ->
     snd (fetchMarketNews fromDate toDate skipCache w) = w).
Proof.
  destruct (liveNews_world ("market:" ++ fromDate ++ ":" ++ toDate)%string skipCache w)
    as [[data|] Hlive].
  - exists None, None, []. unfold fetchMarketNews, bind. rewrite Hlive. cbn.
    rewrite app_nil_r. repeat split; try done. by eexists.
  - destruct (truthyStr FINNHUB_API_KEY) eqn:Hkey.
    + destruct (fetchMarketNews_live fromDate toDate skipCache w Hlive Hkey)
        as (news & w' & fromTs & toTs & reqs & -> & Hup & Hpre & _).
      exists fromTs, toTs, reqs. by repeat split.
    + exists None, None, []. unfold fetchMarketNews, bind. rewrite Hlive, Hkey. cbn.
      rewrite app_nil_r. repeat split; try done. by eexists.
Qed.

(** X14. With a key configured, whatever a fetch of the market news
    returned, the empty list included, is what the next fetch that may use
    the cache returns right away, without a request. *)
Theorem market_news_is_cached (fromDate toDate : string) (skipCache : bool)
    (w w' : World) (news : list NewsItem) :
  truthyStr FINNHUB_API_KEY = true ->
  fetchMarketNews fromDate toDate skipCache w = (Returned news, w') ->
  fetchMarketNews fromDate toDate false w' = (Returned news, w').
Proof.
  intros Hkey Hfetch.
  destruct (liveNews_world ("market:" ++ fromDate ++ ":" ++ toDate)%string skipCache w)
    as [[data|] Hlive].
  - assert (Hhit : liveNews ("market:" ++ fromDate ++ ":" ++ toDate)%string false w =
                   (Returned (Some data), w)).
    { revert Hlive. unfold liveNews, gets.
      destruct (newsCache w !! _) as [slot|]; [|done].
      destruct skipCache; cbn [negb andb]; [done|]. done. }
    unfold fetchMarketNews, bind in Hfetch. rewrite Hlive in Hfetch.
    injection Hfetch as <- <-.
    unfold fetchMarketNews, bind. by rewrite Hhit.
  - destruct (fetchMarketNews_live fromDate toDate skipCache w Hlive Hkey)
      as (news' & w'' & fromTs & toTs & reqs & Hf & _ & _ & _ & Hcache).
    rewrite Hf in Hfetch. injection Hfetch as <- <-.
    unfold fetchMarketNews, bind, liveNews, gets.
    rewrite Hcache, lookup_insert_eq. cbn [negb andb news_expires news_data].
    replace (clock w'' <? clock w'' + NEWS_CACHE_TTL)%Z with true; [done|].
    symmetry. apply Z.ltb_lt. unfold NEWS_CACHE_TTL. lia.
Qed.

End NewsTheorems.

Section Store.
Context `{Host}.

(** X15. Collecting the data of one valid period, forced or not, leaves
    the stored snapshot of every other valid period as it was: no two
    valid periods share a key. *)
Theorem other_periods_are_untouched (w : World) (year month : Z) (force : bool)
    (year' month' : Z) :
  validPeriod year month -> validPeriod year' month' ->
  (year, month) <> (year', month') ->
  getCachedMonthly (snd (getMonthlyData year month force w)) year' month' =
  getCachedMonthly w year' month'.
Proof.
  intros Hv Hv' Hne.
  assert (Hkey : getPeriodKey year month <> getPeriodKey year' month').
  { intros Heq. destruct (getPeriodKey_inj _ _ _ _ Hv Hv' Heq) as [-> ->]. done. }
  destruct (getCachedMonthly w year month) as [data|] eqn:Ec, force.
  - destruct (getMonthlyData_fetch w year month true)
      as (? & ? & ? & ? & failed & ? & w2 & _ & Hget & Hd & _); [by right|].
    rewrite Hget. cbn [snd]. unfold getCachedMonthly.
    by rewrite Hd, lookup_insert_ne.
  - by rewrite (getMonthlyData_hit _ _ _ _ Ec).
  - destruct (getMonthlyData_fetch w year month true)
      as (? & ? & ? & ? & failed & ? & w2 & _ & Hget & Hd & _); [by right|].
    rewrite Hget. cbn [snd]. unfold getCachedMonthly.
    by rewrite Hd, lookup_insert_ne.
  - destruct (getMonthlyData_fetch w year month false)
      as (? & ? & ? & ? & failed & ? & w2 & _ & Hget & Hd & _); [by left|].
    rewrite Hget. cbn [snd]. unfold getCachedMonthly.
    by rewrite Hd, lookup_insert_ne.
Qed.




End Store.

Section Update.
Context `{Host}.

(** X17. The update route answers a valid period that has a stored
    snapshot with a success whose data is the new stored snapshot; no date
    of a stored series is lost, and every series of the answer is in date
    order. *)
Theorem update_keeps_stored_days (w : World) (yearParam monthParam : string)
    (year month : Z) (stored : MonthlyData) :
  validateYearMonth yearParam monthParam = Some (year, month) ->
  getCachedMonthly w year month = Some stored ->
  exists data effective stamp failed w',
    apiUpdate yearParam monthParam w =
      (Returned (UpdateResponse year month data effective stamp failed), w') /\
    getCachedMonthly w' year month = Some data /\
    (forall k xs, stored !! k = Some xs ->
       exists ys, data !! k = Some ys /\
                  forall d, d ∈ map date xs -> d ∈ map date ys) /\
    (forall k ys, data !! k = Some ys -> StronglySorted recLe ys).
Proof.
  intros Hvalid Hstored.
  destruct (getMonthlyData_fetch w year month true)
    as (rangeEnd & ms & me & raw & failed & w1 & w2 & _ & Hget & Hd & _);
    [by right|].
  rewrite Hstored in Hget. cbv zeta in Hget.
  eexists _, _, _, _, _. split.
  { unfold apiUpdate, tryCatch, bind. rewrite Hvalid, Hget.
    unfold getEffectiveItems, gets, ret. cbn [fst snd]. reflexivity. }
  split; [|split].
  - unfold getCachedMonthly. rewrite Hd, lookup_insert_eq. cbn. by rewrite Hstored.
  - intros k xs Hk. rewrite mergeMonthlyData_lookup, Hk.
    eexists. split; [done|]. intros d Hin. apply mergeSeries_dates. by left.
  - intros k ys. rewrite mergeMonthlyData_lookup.
    destruct (stored !! k) as [xs|].
    + intros [= <-]. apply mergeSeries_sorted.
    + destruct (windowed ms me raw !! k) as [fr|]; cbn; [|done].
      intros [= <-]. apply sortByDate_sorted.
Qed.

End Update.

Lemma Keeps_ret {A} (I : World -> Prop) (a : A) (Q : A -> Prop) :
  Q a -> Keeps I (ret a) Q.
Proof. intros Hq w Hw. by split. Qed.

Lemma Keeps_throw {A} (I : World -> Prop) e (Q : A -> Prop) :
  Keeps I (throw e) Q.
Proof. intros w Hw. by split. Qed.

Lemma Keeps_gets {A} (I : World -> Prop) (f : World -> A) (Q : A -> Prop) :
  (forall w, I w -> Q (f w)) -> Keeps I (gets f) Q.
Proof. intros Hf w Hw. split; [done|by apply Hf]. Qed.

Lemma Keeps_modify (I : World -> Prop) (f : World -> World) :
  (forall w, I w -> I (f w)) -> Keeps I (modify f) (fun _ => True).
Proof. intros Hf w Hw. split; [by apply Hf|done]. Qed.

Lemma Keeps_bind {A B} (I : World -> Prop) (c : M A) (k : A -> M B)
    (P : A -> Prop) (Q : B -> Prop) :
  Keeps I c P -> (forall a, P a -> Keeps I (k a) Q) -> Keeps I (bind c k) Q.
Proof.
  intros Hc Hk w Hw. unfold bind. destruct (Hc w Hw) as [Hi Hp].
  destruct (c w) as [[a|e] w1]; cbn [fst snd] in *; [|done].
  by apply Hk.
Qed.

Lemma Keeps_tryCatch {A} (I : World -> Prop) (c : M A) (h : string -> M A)
    (Q : A -> Prop) :
  Keeps I c Q -> (forall e, Keeps I (h e) Q) -> Keeps I (tryCatch c h) Q.
Proof.
  intros Hc Hh w Hw. unfold tryCatch. destruct (Hc w Hw) as [Hi Hq].
  destruct (c w) as [[a|e] w1]; cbn [fst snd] in *; [done|].
  by apply Hh.
Qed.

Lemma Keeps_weaken {A} (I : World -> Prop) (c : M A) (P Q : A -> Prop) :
  Keeps I c P -> (forall a, P a -> Q a) -> Keeps I c Q.
Proof.
  intros Hc Hpq w Hw. destruct (Hc w Hw) as [Hi Hp]. split; [done|].
  destruct (fst (c w)); [by apply Hpq|done].
Qed.

Lemma omap_length_le {A B} (f : A -> option B) (l : list A) :
  (length (omap f l) <= length l)%nat.
Proof.
  induction l as [|x l IH]; [done|]. cbn. destruct (f x); cbn; lia.
Qed.

Section SanitisedRows.
Context `{Host}.

Lemma sanitizeNum_bounded v : boundedField (sanitizeNum v).
Proof.
  unfold sanitizeNum.
  destruct v as [[]|]; try exact I;
    (destruct (toNumber _) as [q| | |]; try exact I;
     destruct (Qle_bool (Qabs q) SAFE_NUM_MAX) eqn:E; [|exact I];
     by apply Qle_bool_iff in E).
Qed.

Lemma sanitizeDate_Some str s : sanitizeDate str = Some s -> s = str.
Proof.
  unfold sanitizeDate. destruct (DATE_REGEX_test str); [|done].
  destruct (Date_parse str); [|done]. by intros [= <-].
Qed.

Lemma chartRow_sanitised quote i ts r :
  chartRow quote i ts = Some r -> sanitised r.
Proof.
  unfold chartRow. destruct ts as [| |[t| | |]| | |]; try done.
  set (dateStr := formatYMD (dateOfNumber (Fin (t * 1000)))).
  destruct (sanitizeDate _) as [s|] eqn:Ed; [|done].
  pose proof (sanitizeNum_bounded (optIndex i (optProp "close" quote))) as Hc.
  destruct (sanitizeNum (optIndex i (optProp "close" quote))) as [c|]; [|done].
  intros [= <-]. unfold sanitised. cbn [date close open high low volume].
  split; [rewrite Ed; f_equal; by apply sanitizeDate_Some|].
  split; [by exists c|].
  repeat split; apply sanitizeNum_bounded.
Qed.

Lemma chartSeries_sanitised (json : Json) (rows : list DailyRecord) :
  chartSeries json = Some rows -> Forall sanitised rows.
Proof.
  unfold chartSeries.
  destruct (negb (truthy _)); [done|].
  destruct (optProp "timestamp" _) as [[| | | |timestamps|]|]; try done.
  intros [= <-].
  apply Forall_forall. intros r Hr.
  apply list_elem_of_omap in Hr as (o & Ho & Hr). cbn in Hr. subst o.
  apply elem_of_lookup_imap in Ho as (i & ts & Hrow & _).
  symmetry in Hrow. by apply chartRow_sanitised in Hrow.
Qed.

(** X18. Every row the adapter builds from a parsed chart body has a
    date that passes the date check, a close that is present and within
    the safe bound, and optional fields that are absent or within the
    bound; there are at most as many rows as timestamps. *)
Theorem chart_rows_are_sanitised (json : Json) (rows : list DailyRecord) :
  chartSeries json = Some rows ->
  Forall sanitised rows /\
  (forall timestamps,
     optProp "timestamp"
       (optIndex 0 (optProp "result" (optProp "chart" (Some json)))) =
       Some (JArr timestamps) ->
     (length rows <= length timestamps)%nat).
Proof.
  intros Hrows. split; [by apply (chartSeries_sanitised json)|].
  revert Hrows. unfold chartSeries.
  destruct (negb (truthy _)); [done|].
  destruct (optProp "timestamp" _) as [[| | | |timestamps|]|]; try done.
  intros [= <-] ts [= <-].
  etransitivity; [apply omap_length_le|]. by rewrite length_imap.
Qed.

End SanitisedRows.

Section SanitisedStores.
Context `{Host}.

Lemma Keeps_requestChart req :
  Keeps storesSanitised (requestChart req) (fun _ => True).
Proof.
  intros w Hw. unfold requestChart.
  destruct (yahoo req (length (upstream w))) as [res latency].
  split; [exact Hw|]. by destruct (settle res).
Qed.

Lemma Keeps_cacheSet key data :
  Forall sanitised data ->
  Keeps storesSanitised (cacheSet key data) (fun _ => True).
Proof.
  intros Hdata. apply Keeps_modify. intros w [Hc Hs]. split; [|exact Hs].
  intros k slot. cbn. destruct (decide (k = key)) as [->|Hne].
  - rewrite lookup_insert_eq. by intros [= <-].
  - rewrite lookup_insert_ne by done. apply Hc.
Qed.

Lemma Keeps_delay ms : Keeps storesSanitised (delay ms) (fun _ => True).
Proof. apply Keeps_modify. by intros w Hw. Qed.

Lemma Keeps_chartAttempt req key :
  Keeps storesSanitised (chartAttempt req key) (Forall sanitised).
Proof.
  unfold chartAttempt.
  apply (Keeps_bind _ _ _ (fun _ => True)); [apply Keeps_requestChart|].
  intros html _. destruct (JSON_parse html) as [json|]; [|apply Keeps_throw].
  destruct (chartSeries json) as [result|] eqn:Es.
  - assert (Hres : Forall sanitised result).
    { by apply (chartSeries_sanitised json). }
    apply (Keeps_bind _ _ _ (fun _ => True)); [by apply Keeps_cacheSet|].
    intros _ _. by apply Keeps_ret.
  - apply (Keeps_bind _ _ _ (fun _ => True)); [by apply Keeps_cacheSet|].
    intros _ _. by apply Keeps_ret.
Qed.

Lemma Keeps_chartRetries req key retries :
  Keeps storesSanitised (chartRetries req key retries) (Forall sanitised).
Proof.
  induction retries as [|retry rest IH]; cbn [chartRetries]; [apply Keeps_throw|].
  apply Keeps_tryCatch; [apply Keeps_chartAttempt|].
  intros e. apply (Keeps_bind _ _ _ (fun _ => True)); [apply Keeps_delay|done].
Qed.

Lemma Keeps_fetchChartFromYahoo sym period1 period2 :
  Keeps storesSanitised (fetchChartFromYahoo sym period1 period2)
    (Forall sanitised).
Proof.
  unfold fetchChartFromYahoo.
  apply (Keeps_bind _ _ _ (fun _ => True)); [by apply Keeps_gets|].
  intros allowed _. destruct allowed; cbn [negb]; [|apply Keeps_throw].
  apply (Keeps_bind _ _ _
           (fun cached => match cached with
                          | Some slot => Forall sanitised (slot_data slot)
                          | None => True
                          end)).
  { apply Keeps_gets. intros w [Hc _].
    destruct (cache w !! _) as [slot|] eqn:E; [by apply (Hc _ _ E)|done]. }
  intros cached Hcached.
  apply (Keeps_bind _ _ _ (fun _ => True)); [by apply Keeps_gets|].
  intros now _. destruct cached as [slot|]; [|apply Keeps_chartRetries].
  destruct (now <? slot_expires slot)%Z;
    [by apply Keeps_ret|apply Keeps_chartRetries].
Qed.

Lemma dataSanitised_insert (results : MonthlyData) k xs :
  dataSanitised results -> Forall sanitised xs ->
  dataSanitised (<[k := xs]> results).
Proof.
  intros Hr Hxs k' ys. destruct (decide (k' = k)) as [->|Hne].
  - rewrite lookup_insert_eq. by intros [= <-].
  - rewrite lookup_insert_ne by done. apply Hr.
Qed.

Lemma Keeps_fetchAllLoop todo start end_ (results : MonthlyData) failed :
  dataSanitised results ->
  Keeps storesSanitised (fetchAllLoop todo start end_ results failed)
    (fun rf => dataSanitised (fst rf)).
Proof.
  revert results failed.
  induction todo as [|item rest IH]; intros results failed Hres.
  { by apply Keeps_ret. }
  cbn [fetchAllLoop].
  apply (Keeps_bind _ _ _ (fun rf => dataSanitised (fst rf))).
  - unfold batchStep. apply Keeps_tryCatch.
    + apply (Keeps_bind _ _ _ (Forall sanitised));
        [apply Keeps_fetchChartFromYahoo|].
      intros series Hs. apply Keeps_ret. by apply dataSanitised_insert.
    + intros e. apply Keeps_ret. by apply dataSanitised_insert.
  - intros step Hstep.
    apply (Keeps_bind _ _ _ (fun _ => True)); [apply Keeps_delay|].
    intros _ _. by apply IH.
Qed.

Lemma windowed_sanitised monthStart monthEnd (raw : MonthlyData) :
  dataSanitised raw -> dataSanitised (windowed monthStart monthEnd raw).
Proof.
  intros Hraw k xs. unfold windowed. rewrite lookup_fmap.
  destruct (raw !! k) as [ys|] eqn:E; [|done]. cbn. intros [= <-].
  apply Forall_forall. intros r Hr.
  apply (proj1 (sortByDate_elem _ _)) in Hr.
  apply list_elem_of_filter in Hr as [_ Hr].
  specialize (Hraw k ys E). rewrite Forall_forall in Hraw. by apply Hraw.
Qed.

Lemma mergeMonthlyData_sanitised (existing fresh : MonthlyData) :
  dataSanitised existing -> dataSanitised fresh ->
  dataSanitised (mergeMonthlyData existing fresh).
Proof.
  intros He Hf k xs. rewrite mergeMonthlyData_lookup.
  destruct (existing !! k) as [ex|] eqn:Ee.
  - intros [= <-]. apply Forall_forall. intros r Hr.
    specialize (He k ex Ee). rewrite Forall_forall in He.
    apply mergeSeries_elem in Hr as [Hr|[_ Hr]];
      apply lastWithDate_Some in Hr as [Hr _]; [|by apply He].
    destruct (fresh !! k) as [fr|] eqn:Ef; cbn in Hr.
    + specialize (Hf k fr Ef). rewrite Forall_forall in Hf. by apply Hf.
    + by apply elem_of_nil in Hr.
  - destruct (fresh !! k) as [fr|] eqn:Ef; cbn; [|done]. intros [= <-].
    apply Forall_forall. intros r Hr.
    apply (proj1 (sortByDate_elem _ _)) in Hr.
    specialize (Hf k fr Ef). rewrite Forall_forall in Hf. by apply Hf.
Qed.

Lemma Keeps_putSnapshot year month (toSave : MonthlyData) :
  dataSanitised toSave ->
  Keeps storesSanitised (putSnapshot year month toSave) (fun _ => True).
Proof.
  intros Hdata. unfold putSnapshot.
  apply (Keeps_bind _ _ _ (fun _ => True)); [by apply Keeps_gets|].
  intros stamp _. apply Keeps_modify. intros w [Hc Hs]. split; [exact Hc|].
  intros key snap data. cbn. destruct (decide (key = getPeriodKey year month)) as [->|Hne].
  - rewrite lookup_insert_eq. intros [= <-]. cbn. by intros [= <-].
  - rewrite lookup_insert_ne by done. apply Hs.
Qed.

Lemma Keeps_getMonthlyData year month force :
  Keeps storesSanitised (getMonthlyData year month force)
    (fun r => dataSanitised (fst r)).
Proof.
  unfold getMonthlyData.
  apply (Keeps_bind _ _ _ (fun _ => True)); [by apply Keeps_gets|].
  intros nowT _.
  apply (Keeps_bind _ _ _
           (fun cached => match cached with
                          | Some data => dataSanitised data
                          | None => True
                          end)).
  { apply Keeps_gets. intros w [_ Hs]. unfold getCachedMonthly.
    destruct (dailyFileCache w !! _) as [snap|] eqn:E; [|done].
    destruct (s_data snap) as [data|] eqn:Ed; [|done].
    by apply (Hs _ _ _ E Ed). }
  intros cached Hcached.
  assert (Hlive : forall (toSave : MonthlyData -> MonthlyData),
    (forall raw, dataSanitised raw -> dataSanitised (toSave raw)) ->
    Keeps storesSanitised
      (let! effective := getEffectiveItems in
       let! fetched := fetchAllHistorical effective
                         (fst (getMonthRange year month))
                         (if isCurrentMonthAt nowT year month then Some nowT
                          else snd (getMonthRange year month)) in
       putSnapshot year month (toSave (fst fetched));;
       scheduleSaveDailyCache;;
       ret (toSave (fst fetched), snd fetched))
      (fun r => dataSanitised (fst r))).
  { intros toSave Hsave.
    apply (Keeps_bind _ _ _ (fun _ => True)); [by apply Keeps_gets|].
    intros effective _.
    apply (Keeps_bind _ _ _ (fun rf => dataSanitised (fst rf))).
    { apply Keeps_fetchAllLoop. intros k xs. by rewrite lookup_empty. }
    intros fetched Hfetched.
    apply (Keeps_bind _ _ _ (fun _ => True));
      [apply Keeps_putSnapshot; by apply Hsave|].
    intros _ _. apply (Keeps_bind _ _ _ (fun _ => True)).
    { apply Keeps_modify. intros w Hw. by destruct (cacheSaveScheduled w). }
    intros _ _. apply Keeps_ret. by apply Hsave. }
  destruct cached as [data|], force.
  - apply (Hlive (fun raw => mergeMonthlyData data (windowed _ _ raw))).
    intros raw Hraw. apply mergeMonthlyData_sanitised; [done|].
    by apply windowed_sanitised.
  - by apply Keeps_ret.
  - apply (Hlive (fun raw => windowed _ _ raw)).
    intros raw Hraw. by apply windowed_sanitised.
  - apply (Hlive (fun raw => windowed _ _ raw)).
    intros raw Hraw. by apply windowed_sanitised.
Qed.

End SanitisedStores.

Section SanitisedTheorems.
Context `{Host}.

(** X19. If every series held by the response cache and by the monthly
    store is made of sanitised rows, then after collecting a month, forced
    or not, this still holds, and so it does of the data returned. *)
Theorem stores_stay_sanitised (w : World) (year month : Z) (force : bool) :
  storesSanitised w ->
  exists data failed w',
    getMonthlyData year month force w = (Returned (data, failed), w') /\
    storesSanitised w' /\ dataSanitised data.
Proof.
  intros Hw.
  destruct (getMonthlyData_returns w year month force)
    as (data & failed & w' & Hget & _).
  destruct (Keeps_getMonthlyData year month force w Hw) as [Hi Hq].
  rewrite Hget in Hi, Hq. by exists data, failed, w'.
Qed.

Lemma dataSanitised_closesPresent (raw : MonthlyData) :
  dataSanitised raw -> closesPresent raw.
Proof.
  intros Hraw k xs r Hk Hr. specialize (Hraw k xs Hk).
  rewrite Forall_forall in Hraw. destruct (Hraw r Hr) as (_ & (c & -> & _) & _).
  by eexists.
Qed.

(** X20. When the stores hold sanitised rows only, every event the event
    route answers carries an advisory of its own type: none is annotated
    with the dash. *)
Theorem events_carry_an_advisory (w : World) (yearParam monthParam : string)
    (refresh : option string) :
  storesSanitised w ->
  match fst (apiEvents yearParam monthParam refresh w) with
  | Returned (EventsResponse _ _ events _ _) =>
      forall d es e, events !! d = Some es -> e ∈ es ->
        (e_type e = FALL /\ sellWarning e ∈ fallAdvisories) \/
        (e_type e = RISE /\ sellWarning e ∈ riseAdvisories)
  | _ => True
  end.
Proof.
  intros Hw. unfold apiEvents, tryCatch, bind.
  destruct (validateYearMonth yearParam monthParam) as [[year month]|]; [|done].
  set (forceRefresh := match refresh with
                       | Some r => String.eqb r "1"
                       | None => false
                       end).
  destruct (getMonthlyData_returns w year month forceRefresh)
    as (raw & failed & w1 & Hget & _).
  destruct (Keeps_getMonthlyData year month forceRefresh w Hw) as [_ Hraw].
  rewrite Hget in Hraw. cbn [fst] in Hraw. rewrite Hget.
  unfold getEffectiveItems, gets. cbn [fst snd].
  match goal with
  | |- context [fetchMarketNews ?a ?b ?c w1] =>
      destruct (Total_fetchMarketNews a b c w1) as (marketNews & w2 & ->)
  end.
  cbn [fst ret]. intros d es e Hes He.
  assert (Hin : e ∈ default [] (groupByDate
            (gateEvents (buildMarketNewsByDate marketNews) raw
               (candidateEvents (effectiveItems items (symbolOverrides w1)) raw)) !! d)).
  { by rewrite Hes. }
  apply groupByDate_elem in Hin as [Hin _].
  apply gateEvents_elem in Hin as (c & Hc & _ & ->).
  exact (candidate_advisory _ raw c (dataSanitised_closesPresent _ Hraw) Hc).
Qed.

End SanitisedTheorems.

Section ChartRoute.
Context `{Host}.

Lemma find_matches_allowed overrides symbolParam i :
  List.find (matchesParam symbolParam) (effectiveItems items overrides) = Some i ->
  isSymbolAllowed overrides (symbol i) = true.
Proof.
  intros Hf. apply find_some in Hf as [Hin _].
  apply effective_allowed. by apply list_elem_of_In.
Qed.

Lemma find_none_refused overrides symbolParam :
  List.find (matchesParam symbolParam) (effectiveItems items overrides) = None ->
  isSymbolAllowed overrides symbolParam = false.
Proof.
  intros Hf. unfold isSymbolAllowed.
  apply not_true_is_false. intros Hex. apply existsb_exists in Hex as (i & Hin & Heq).
  pose proof (find_none _ _ Hf i Hin) as Hno. unfold matchesParam in Hno.
  rewrite Heq in Hno. by rewrite orb_true_r in Hno.
Qed.

(** X21. For a valid period the chart route serves exactly the ids and
    the symbols of the effective items.  A parameter that matches none is
    refused with a 400, without a request and without a change of the
    world; one that matches is fetched under the effective symbol of the
    first matching item, and the answer is its points under the name of the
    item, or a 500 that carries the message of the failed fetch. *)
Theorem chart_route_serves_effective_items (w : World)
    (symbolParam yearParam monthParam : string) (year month : Z) :
  validateYearMonth yearParam monthParam = Some (year, month) ->
  match List.find (matchesParam symbolParam)
          (effectiveItems items (symbolOverrides w)) with
  | None =>
      apiChart symbolParam yearParam monthParam w =
        (Returned (ChartRefused NOT_ALLOWED), w)
  | Some i =>
      match fetchChartFromYahoo (symbol i) (fst (getMonthRange year month))
              (snd (getMonthRange year month)) w with
      | (Returned series, w') =>
          apiChart symbolParam yearParam monthParam w =
            (Returned (ChartData (if nonEmpty (name i) then name i else symbolParam)
                         (map toPoint series)), w')
      | (Thrown message, w') =>
          apiChart symbolParam yearParam monthParam w =
            (Returned (ChartRefused
                         (apiError 500 "차트 데이터 조회 실패" (Some message))), w')
      end
  end.
Proof.
  intros Hvalid. unfold apiChart, tryCatch, bind, getEffectiveItems, gets.
  rewrite Hvalid. cbv beta iota zeta.
  destruct (List.find _ _) as [i|] eqn:Ef.
  - rewrite (find_matches_allowed _ _ _ Ef). cbn [negb].
    by destruct (fetchChartFromYahoo _ _ _ w) as [[series|message] w'].
  - by rewrite (find_none_refused _ _ Ef).
Qed.

End ChartRoute.

Lemma recentDays_range daysParam : (1 <= recentDays daysParam <= 365)%Z.
Proof. unfold recentDays. destruct (parseInt _); lia. Qed.

Section RecentRoute.
Context `{Host}.
Variable setHours0 : Z -> option Z.
Variable setDate : Z -> Z -> option Z.

(** X22. The route of the recent days always answers with data.  The
    number of days lies in 1..365 and is 30 when the parameter is absent;
    the monthly store, the news cache, the overrides and the cache file are
    left alone; the data has a series for exactly the configured ids, and
    every series is in date order and within the two bounds answered. *)
Theorem recent_days_route (w : World) (daysParam : option string) :
  exists from to days data failed w',
    apiDailyRecent setHours0 setDate daysParam w =
      (Returned (RecentData from to days data
                   (effectiveItems items (symbolOverrides w)) failed), w') /\
    (1 <= days <= 365)%Z /\
    (truthyStr daysParam = false -> days = 30%Z) /\
    keepsStores w w' /\
    (forall k, is_Some (data !! k) <-> k ∈ map id items) /\
    (forall k xs, data !! k = Some xs ->
       StronglySorted recLe xs /\
       Forall (fun r => String.leb from (date r) = true /\
                        String.leb (date r) to = true) xs).
Proof.
  unfold apiDailyRecent, tryCatch, bind, getEffectiveItems, gets.
  cbv beta iota zeta.
  set (days := recentDays daysParam).
  set (start := fst (recentRange setHours0 setDate (clock w) days)).
  set (end_ := snd (recentRange setHours0 setDate (clock w) days)).
  destruct (fetchAllLoop_trace (effectiveItems items (symbolOverrides w))
              start end_ ∅ [] w)
    as (r & extra & w' & Hrun & Hdom & _).
  pose proof (Preserves_fetchAllLoop (effectiveItems items (symbolOverrides w))
                start end_ ∅ [] w) as Hkeep.
  unfold fetchAllHistorical. rewrite Hrun in Hkeep |- *. cbn [fst snd] in *.
  destruct Hkeep as (Ho & Hkeep').
  eexists _, _, _, _, _, _. split; [unfold ret; rewrite Ho; reflexivity|].
  split; [apply recentDays_range|]. split.
  { intros Hp. subst days. unfold recentDays. rewrite Hp. reflexivity. }
  split; [by split|]. split.
  - intros k. rewrite windowed_dom, Hdom, lookup_empty, effectiveItems_ids.
    split; [intros [[? ?]|?]; done|by right].
  - intros k xs. unfold windowed. rewrite lookup_fmap.
    destruct (r !! k) as [ys|]; [|done]. cbn. intros [= <-].
    split; [apply sortByDate_sorted|].
    apply Forall_forall. intros x Hx.
    apply (proj1 (sortByDate_elem _ _)) in Hx.
    apply list_elem_of_filter in Hx as [Hx _]. unfold inWindow in Hx.
    destruct (sanitizeDate (date x)); [|done].
    by apply andb_true_iff in Hx.
Qed.

End RecentRoute.

Section FreshMonth.
Context `{Host}.

(** X23. A month that is not stored is answered with a series for exactly
    the configured ids; every series is in date order and every record has
    a date that passes the date check and lies between the first day of the
    month and its last day, or today for the running month. *)
Theorem fresh_month_is_windowed (w : World) (year month : Z) :
  getCachedMonthly w year month = None ->
  exists data failed w',
    getMonthlyData year month false w = (Returned (data, failed), w') /\
    (forall k, is_Some (data !! k) <-> k ∈ map id items) /\
    (forall k xs, data !! k = Some xs ->
       StronglySorted recLe xs /\
       Forall (fun r =>
                 sanitizeDate (date r) = Some (date r) /\
                 String.leb (formatYMD (fst (getMonthRange year month))) (date r) = true /\
                 String.leb (date r)
                   (formatYMD (if isCurrentMonthAt (clock w) year month
                               then Some (clock w)
                               else snd (getMonthRange year month))) = true) xs).
Proof.
  intros Hmiss.
  destruct (fetchAllLoop_trace (effectiveItems items (symbolOverrides w))
              (localDate year (month - 1) 1)
              (if isCurrentMonthAt (clock w) year month then Some (clock w)
               else localDate year month 0) ∅ [] w)
    as (r & extra & w' & Hrun & Hdom & _).
  unfold getMonthlyData, getEffectiveItems, fetchAllHistorical, getMonthRange.
  unfold bind, gets. cbv beta. rewrite Hmiss. cbn [fst snd].
  rewrite Hrun. cbn [fst snd]. unfold putSnapshot, scheduleSaveDailyCache,
    bind, gets, modify, ret. cbn [fst snd].
  eexists _, _, _. split; [reflexivity|]. split.
  - intros k. rewrite windowed_dom, Hdom, lookup_empty, effectiveItems_ids.
    split; [intros [[? ?]|?]; done|by right].
  - intros k xs. unfold windowed. rewrite lookup_fmap.
    destruct (r !! k) as [ys|]; [|done]. cbn. intros [= <-].
    split; [apply sortByDate_sorted|].
    apply Forall_forall. intros x Hx.
    apply (proj1 (sortByDate_elem _ _)) in Hx.
    apply list_elem_of_filter in Hx as [Hx _]. unfold inWindow in Hx.
    destruct (sanitizeDate (date x)) as [s|] eqn:Es; [|done].
    apply andb_true_iff in Hx as [H1 H2].
    split; [f_equal; by apply sanitizeDate_Some|]. by split.
Qed.

End FreshMonth.

Section NewsStamp.
Context `{Host}.

Lemma Qfloor_thousand (z : Z) :
  Qfloor (inject_Z (z * 1000) / 1000) = z.
Proof.
  transitivity (Qfloor (inject_Z z)); [|apply Qfloor_Z].
  apply Qfloor_comp.
  unfold Qeq, Qdiv, Qmult, Qinv, inject_Z. cbn. rewrite Pos.mul_1_l. lia.
Qed.

(** X24. A news item stamped in milliseconds and the same item stamped
    in whole seconds are parsed to the same result, for every instant from
    10^9 seconds on (September 2001) and below 10^12 seconds. *)
Theorem news_stamp_in_seconds_or_milliseconds (z : Z)
    (rest : list (string * Json)) :
  (1000000000 <= z < 1000000000000)%Z ->
  parseNewsItem (JObj (("datetime", JNum (Fin (inject_Z (z * 1000)))) :: rest)) =
  parseNewsItem (JObj (("datetime", JNum (Fin (inject_Z z))) :: rest)).
Proof.
  intros Hz. unfold parseNewsItem.
  cbn [prop assoc String.eqb Ascii.eqb Bool.eqb firstNonNullish filter isNullish].
  cbn -[Qltb Qfloor Qdiv inject_Z Z.mul dateOfNumber utcFields pretty padStart String.substring stringOf truthy].
  assert (Hfirst : forall n vs,
            firstNonNullish (Some (JNum n) :: vs) = Some (JNum n)).
  { intros n vs. unfold firstNonNullish. by rewrite filter_cons_True. }
  rewrite !Hfirst.
  replace (Qltb (inject_Z (z * 1000)) 1000000000000) with false.
  2:{ symmetry. apply Qltb_ge.
      change (inject_Z 1000000000000 <= inject_Z (z * 1000))%Q.
      rewrite <- Zle_Qle. lia. }
  replace (Qltb (inject_Z z) 1000000000000) with true.
  2:{ symmetry. apply Qltb_lt.
      change (inject_Z z < inject_Z 1000000000000)%Q.
      rewrite <- Zlt_Qlt. lia. }
  by rewrite Qfloor_thousand.
Qed.

End NewsStamp.

(** ** The further properties at concrete inputs *)

Lemma exact_date_gives_first_headline_witness :
  @getMarketHeadlineForDate keylessHost (buildMarketNewsByDate sampleNews)
    "2024-03-01" = Some "Fed holds rates"%string.
Proof.
  apply (@exact_date_gives_first_headline keylessHost sampleNews "2024-03-01"
           (mkNews "2024-03-01" "Fed holds rates")
           [mkNews "2024-03-01" "Oil slips"]).
  reflexivity.
Defined.

Lemma marchSnapshot_closesPresent : closesPresent marchSnapshot.
Proof.
  intros k xs r Hk Hr. unfold marchSnapshot in Hk.
  repeat (apply lookup_insert_Some in Hk as [[<- <-]|[_ Hk]];
          [repeat (apply elem_of_cons in Hr as [->|Hr]; [by eexists|]);
           by apply elem_of_nil in Hr|]).
  by rewrite lookup_empty in Hk.
Qed.

Lemma detected_event_has_advisory_witness :
  sellWarning thirdDayEvent ∈ fallAdvisories.
Proof.
  destruct (@detected_event_has_advisory keylessHost (effectiveItems items ∅)
              marchSnapshot [] "2024-03-06" [thirdDayEvent] thirdDayEvent)
    as [[_ Hfall]|[Hrise _]].
  - exact marchSnapshot_closesPresent.
  - vm_compute. reflexivity.
  - by left.
  - exact Hfall.
  - discriminate Hrise.
Defined.

Lemma other_periods_are_untouched_witness :
  getCachedMonthly (snd (@getMonthlyData keylessHost 2024 4 true marchWorld)) 2024 3 =
  Some marchSnapshot.
Proof.
  rewrite (@other_periods_are_untouched keylessHost marchWorld 2024 4 true 2024 3).
  - reflexivity.
  - split; lia.
  - split; lia.
  - discriminate.
Defined.


Lemma update_keeps_stored_days_witness :
  exists data effective stamp failed w' ys,
    @apiUpdate keylessHost "2024" "3" marchWorld =
      (Returned (UpdateResponse 2024 3 data effective stamp failed), w') /\
    data !! "apple" = Some ys /\
    "2024-03-06"%string ∈ map date ys.
Proof.
  destruct (@update_keeps_stored_days keylessHost marchWorld "2024" "3" 2024%Z 3%Z
              marchSnapshot)
    as (data & effective & stamp & failed & w' & Hrun & _ & Hkeep & _);
    [reflexivity|reflexivity|].
  destruct (Hkeep "apple" series_100_95_88) as (ys & Hys & Hdates); [reflexivity|].
  exists data, effective, stamp, failed, w', ys.
  split; [exact Hrun|]. split; [exact Hys|].
  apply Hdates. apply list_elem_of_In. cbn. right. right. left. reflexivity.
Defined.

Lemma fetched_series_is_cached_witness :
  @fetchChartFromYahoo emptyAppleHost "MSFT" marchStart marchEnd
    (snd (@fetchChartFromYahoo emptyAppleHost "MSFT" marchStart
            marchEnd freshWorld)) =
  (Returned [],
   snd (@fetchChartFromYahoo emptyAppleHost "MSFT" marchStart
          marchEnd freshWorld)).
Proof.
  apply (@fetched_series_is_cached emptyAppleHost "MSFT" marchStart
           marchEnd freshWorld).
  vm_compute. reflexivity.
Defined.

Lemma failed_fetch_backs_off_witness :
  cache (snd (@fetchChartFromYahoo keylessHost "AAPL" marchStart
                marchEnd freshWorld)) = cache freshWorld.
Proof.
  destruct (@failed_fetch_backs_off keylessHost "AAPL" marchStart
              marchEnd freshWorld
              (snd (@fetchChartFromYahoo keylessHost "AAPL" marchStart
                      marchEnd freshWorld))
              "데이터 조회 실패") as [Hcache _].
  - vm_compute. reflexivity.
  - exact Hcache.
Defined.

Lemma market_news_is_cached_witness :
  @fetchMarketNews emptyAppleHost "2024-03-01" "2024-03-31" false
    (snd (@fetchMarketNews emptyAppleHost "2024-03-01" "2024-03-31" true freshWorld)) =
  (Returned [],
   snd (@fetchMarketNews emptyAppleHost "2024-03-01" "2024-03-31" true freshWorld)).
Proof.
  apply (@market_news_is_cached emptyAppleHost "2024-03-01" "2024-03-31" true
           freshWorld).
  - reflexivity.
  - vm_compute. reflexivity.
Defined.

Lemma chart_rows_are_sanitised_witness :
  Forall (@sanitised keylessHost) [day "2024-03-04" 100].
Proof.
  destruct (@chart_rows_are_sanitised keylessHost oneDayChart [day "2024-03-04" 100])
    as [Hrows _]; [vm_compute; reflexivity|exact Hrows].
Defined.

Lemma series_100_95_88_sanitised : Forall (@sanitised keylessHost) series_100_95_88.
Proof.
  repeat constructor; try (by exists 100%Q); try (by exists 95%Q);
    try (by exists 88%Q).
Qed.

Lemma marchWorld_sanitised : @storesSanitised keylessHost marchWorld.
Proof.
  split.
  - intros key slot Hk. unfold marchWorld in Hk. cbn [cache] in Hk.
    by rewrite lookup_empty in Hk.
  - intros key snap data Hk Hd. unfold marchWorld in Hk. cbn [dailyFileCache] in Hk.
    apply lookup_insert_Some in Hk as [[<- <-]|[_ Hk]];
      [|by rewrite lookup_empty in Hk].
    cbn [s_data] in Hd. injection Hd as <-. intros k xs Hx. unfold marchSnapshot in Hx.
    repeat (apply lookup_insert_Some in Hx as [[<- <-]|[_ Hx]];
            [exact series_100_95_88_sanitised|]).
    by rewrite lookup_empty in Hx.
Qed.

Lemma stores_stay_sanitised_witness :
  exists data failed w',
    @getMonthlyData keylessHost 2024 3 false marchWorld =
      (Returned (data, failed), w') /\
    @dataSanitised keylessHost data.
Proof.
  destruct (@stores_stay_sanitised keylessHost marchWorld 2024 3 false
              marchWorld_sanitised) as (data & failed & w' & Hget & _ & Hdata).
  exists data, failed, w'. split; [exact Hget|exact Hdata].
Defined.

Lemma events_carry_an_advisory_witness :
  match fst (@apiEvents keylessHost "2024" "3" None marchWorld) with
  | Returned (EventsResponse _ _ events _ _) =>
      forall d es e, events !! d = Some es -> e ∈ es ->
        (e_type e = FALL /\ sellWarning e ∈ fallAdvisories) \/
        (e_type e = RISE /\ sellWarning e ∈ riseAdvisories)
  | _ => True
  end.
Proof.
  apply (@events_carry_an_advisory keylessHost marchWorld "2024" "3" None).
  exact marchWorld_sanitised.
Defined.

Lemma mergeMonthlyData_assoc_witness :
  mergeMonthlyData (mergeMonthlyData sampleA sampleB) sampleA =
  mergeMonthlyData sampleA (mergeMonthlyData sampleB sampleA).
Proof.
  apply mergeMonthlyData_assoc;
    [exact sampleA_wellFormed|exact sampleB_wellFormed|exact sampleA_wellFormed].
Defined.

Lemma chart_route_serves_effective_items_witness :
  @apiChart keylessHost "TSLA" "2024" "3" freshWorld =
    (Returned (ChartRefused NOT_ALLOWED), freshWorld).
Proof.
  pose proof (@chart_route_serves_effective_items keylessHost freshWorld
                "TSLA" "2024" "3" 2024%Z 3%Z) as Hroute.
  apply Hroute. reflexivity.
Defined.

Lemma news_stamp_in_seconds_or_milliseconds_witness :
  @parseNewsItem keylessHost
    (JObj [("datetime", JNum (Fin (inject_Z (1709553600 * 1000))));
           ("headline", JStr "Fed holds rates")]) =
  @parseNewsItem keylessHost
    (JObj [("datetime", JNum (Fin (inject_Z 1709553600)));
           ("headline", JStr "Fed holds rates")]).
Proof.
  apply (@news_stamp_in_seconds_or_milliseconds keylessHost 1709553600%Z
           [("headline", JStr "Fed holds rates")]).
  lia.
Defined.

Lemma fresh_month_is_windowed_witness :
  exists data failed w',
    @getMonthlyData keylessHost 2024 3 false freshWorld =
      (Returned (data, failed), w') /\
    is_Some (data !! "apple").
Proof.
  destruct (@fresh_month_is_windowed keylessHost freshWorld 2024 3)
    as (data & failed & w' & Hget & Hdom & _); [reflexivity|].
  exists data, failed, w'. split; [exact Hget|].
  apply Hdom. apply list_elem_of_In. vm_compute. do 8 right. left. reflexivity.
Defined.

(** ** Overrides *)

Lemma items_symbols_NoDup : NoDup (map symbol items).
Proof. by compute_done. Qed.

Lemma items_not_overridden base : base ∈ items -> overridden base = false.
Proof.
  intros Hin. unfold items in Hin.
  repeat (apply elem_of_cons in Hin as [->|Hin]; [reflexivity|]).
  by apply elem_of_nil in Hin.
Qed.

Lemma items_symbol_inj i j :
  i ∈ items -> j ∈ items -> symbol i = symbol j -> i = j.
Proof.
  intros Hi Hj Heq.
  apply list_elem_of_lookup in Hi as [n Hn], Hj as [m Hm].
  assert (Hnm : n = m).
  { eapply (NoDup_lookup (map symbol items)); [apply items_symbols_NoDup| |].
    - rewrite list_lookup_fmap, Hn. reflexivity.
    - rewrite list_lookup_fmap, Hm. cbn. by rewrite Heq. }
  subst m. congruence.
Qed.

Lemma existsb_elem {A} (p : A -> bool) (l : list A) :
  existsb p l = true <-> exists x, x ∈ l /\ p x = true.
Proof.
  rewrite existsb_exists. split; intros (x & Hin & Hp); exists x;
    (split; [by apply list_elem_of_In|done]).
Qed.

(** X25. The allow list follows the overrides.  Once a configured
    instrument is overridden, the new symbol may be fetched, and its
    configured symbol may not, unless some override names it. *)
Theorem allow_list_follows_overrides (overrides : gmap string Override)
    (base : Instrument) (o : Override) :
  base ∈ items -> overrides !! id base = Some o -> nonEmpty (o_symbol o) = true ->
  isSymbolAllowed overrides (o_symbol o) = true /\
  ((forall k o', overrides !! k = Some o' -> o_symbol o' <> symbol base) ->
   isSymbolAllowed overrides (symbol base) = false).
Proof.
  intros Hbase Ho Hne. unfold isSymbolAllowed, effectiveItems. split.
  - apply existsb_elem. exists (applyOverride overrides base). split.
    + by apply list_elem_of_fmap_2.
    + unfold applyOverride. rewrite Ho, Hne. cbn. apply String.eqb_refl.
  - intros Hfree. apply not_true_is_false. intros Hex.
    apply existsb_elem in Hex as (e & Hin & Heq).
    apply String.eqb_eq in Heq.
    apply list_elem_of_fmap in Hin as (j & -> & Hj).
    unfold applyOverride in Heq.
    destruct (overrides !! id j) as [o'|] eqn:Ej.
    + destruct (nonEmpty (o_symbol o')) eqn:En; cbn in Heq.
      * by apply (Hfree _ _ Ej).
      * pose proof (items_symbol_inj j base Hj Hbase Heq) as ->.
        rewrite Ho in Ej. injection Ej as <-. congruence.
    + cbn in Heq. pose proof (items_symbol_inj j base Hj Hbase Heq) as ->.
      congruence.
Qed.

Section OverrideDelete.
Context `{Host}.

(** X26. Removing an override.  An id that is not configured is refused
    with a 400 and nothing changes.  For a configured id the override is
    removed from memory, whether or not the file could be written, and the
    instrument is its configured self again; the answer is the effective
    list when the write succeeded and a 500 with the message of the error
    when it failed. *)
Theorem override_delete_restores (written : option string) (idParam : string)
    (w : World) :
  (idParam ∉ map id items ->
   apiOverrideDelete written idParam w =
     (Returned (OverrideRefused 400 "존재하지 않는 항목입니다"), w)) /\
  (idParam ∈ map id items ->
   symbolOverrides (snd (apiOverrideDelete written idParam w)) =
     delete idParam (symbolOverrides w) /\
   (forall base, base ∈ items -> id base = idParam ->
      applyOverride (symbolOverrides (snd (apiOverrideDelete written idParam w)))
        base = base) /\
   fst (apiOverrideDelete written idParam w) =
     match written with
     | None =>
         Returned (OverrideDone
                     (effectiveItems items (delete idParam (symbolOverrides w))))
     | Some message => Returned (OverrideRefused 500 message)
     end).
Proof.
  unfold apiOverrideDelete.
  destruct (existsb (fun i => String.eqb (id i) idParam) items) eqn:Ex; cbn [negb].
  - apply existsb_elem in Ex as (i & Hi & Heq). apply String.eqb_eq in Heq.
    split.
    { intros Hno. exfalso. apply Hno. rewrite <- Heq. by apply list_elem_of_fmap_2. }
    intros _.
    assert (Hw : symbolOverrides
                   (snd ((modify (fun w0 => setSymbolOverrides
                                    (delete idParam (symbolOverrides w0)) w0);;
                          match written with
                          | Some message => ret (OverrideRefused 500 message)
                          | None => let! effective := getEffectiveItems in
                                    ret (OverrideDone effective)
                          end) w)) = delete idParam (symbolOverrides w)).
    { unfold bind, modify, getEffectiveItems, gets, ret. by destruct written. }
    split; [exact Hw|]. split.
    + intros base Hbase Hid. rewrite Hw. unfold applyOverride.
      rewrite Hid, lookup_delete_eq.
      pose proof (items_not_overridden base Hbase) as Hov.
      destruct base; cbn in *. by subst.
    + unfold bind, modify, getEffectiveItems, gets, ret. by destruct written.
  - split; [done|]. intros Hin. exfalso.
    apply list_elem_of_fmap in Hin as (i & -> & Hi).
    assert (existsb (fun i0 => String.eqb (id i0) (id i)) items = true) as Hex.
    { apply existsb_elem. exists i. split; [done|apply String.eqb_refl]. }
    congruence.
Qed.

End OverrideDelete.

Lemma allow_list_follows_overrides_witness :
  isSymbolAllowed {["apple" := mkOverride "TSLA" None]} "TSLA" = true /\
  isSymbolAllowed {["apple" := mkOverride "TSLA" None]} "AAPL" = false.
Proof.
  destruct (allow_list_follows_overrides {["apple" := mkOverride "TSLA" None]}
              apple (mkOverride "TSLA" None)) as [Hnew Hold].
  - apply list_elem_of_In. cbn. do 8 right. left. reflexivity.
  - reflexivity.
  - reflexivity.
  - split; [exact Hnew|]. apply Hold. intros k o' Hk.
    apply lookup_singleton_Some in Hk as [_ <-]. discriminate.
Defined.
